(** * WOS client onboarding: a shallow embedding of the three scripts

    - [scripts/generate_client_config.py]  (module [GenerateClientConfig])
    - [scripts/setup_n8n_tables.py]        (module [SetupN8nTables])
    - [scripts/verify_hubspot_properties.py] (module [VerifyHubspotProperties])

    Conventions of the embedding.

    - A Python [str] is a [string]; each character of the [string] stands
      for one code point in U+0000..U+00FF.  The character predicates of
      the Python runtime used by the scripts ([str.isdigit], [str.upper],
      [str.strip], the class [[A-Z]] of [re]) are written out for that
      range.
    - A Python [dict] with string keys is a [gmap string _]; a [set] of
      strings is a [gset string]; [d.get(k)] is [d !! k] and [d[k]] raises
      [KeyError] when the key is absent.
    - Code that can raise returns a [result]; code that prints or calls
      the network runs in the monad [io], which threads the list of what
      was printed and which calls were made.
    - [date.today()] and the answers of the remote API are inputs of the
      functions that use them. *)

From Stdlib Require Import ZArith Ascii String List Bool Lia.
From stdpp Require Import base option list gmap strings pretty.

Local Open Scope string_scope.
Local Open Scope list_scope.

(** ** Python runtime pieces shared by the scripts *)

Module Py.

(** Exceptions that the scripts can meet. [HTTPError] is the one raised by
    [Response.raise_for_status]; [Timeout] and [ConnectionError] are the
    transport-level failures of [requests], siblings of [HTTPError] below
    [RequestException]. *)
Inductive exc : Type :=
  | KeyError (key : string)
  | OverflowError
  | HTTPError (status : Z)
  | Timeout
  | ConnectionError.

Inductive result (A : Type) : Type :=
  | Ok (a : A)
  | Raise (e : exc).
Arguments Ok {A} a.
Arguments Raise {A} e.

Definition rbind {A B} (r : result A) (k : A -> result B) : result B :=
  match r with
  | Ok a => k a
  | Raise e => Raise e
  end.

(** How a process ends: [sys.exit(status)] (or the end of [main], status
    0), or the traceback of an exception that nothing caught. *)
Inductive ending : Type :=
  | Exit (status : Z)
  | Uncaught (e : exc).

(** [d[k]] on a dict. *)
Definition getitem {V} (d : gmap string V) (k : string) : result V :=
  match d !! k with
  | Some v => Ok v
  | None => Raise (KeyError k)
  end.

(** [d.get(k, default)]. *)
Definition get_default {V} (d : gmap string V) (k : string) (dflt : V) : V :=
  match d !! k with
  | Some v => v
  | None => dflt
  end.

(** Truth value of [d.get(k)] when the values are strings: [None] and the
    empty string are false. *)
Definition truthy (o : option string) : bool :=
  match o with
  | Some (String _ _) => true
  | _ => false
  end.

Definition code (c : ascii) : N := N_of_ascii c.

(** [c.isdigit()] on U+0000..U+00FF: the ten ASCII digits and the three
    superscript digits U+00B2, U+00B3 and U+00B9 (Numeric_Type=Digit). *)
Definition isdigit_char (c : ascii) : bool :=
  let n := code c in
  ((48 <=? n) && (n <=? 57) || (n =? 178) || (n =? 179) || (n =? 185))%N.

Fixpoint all_chars (p : ascii -> bool) (s : string) : bool :=
  match s with
  | EmptyString => true
  | String c s' => p c && all_chars p s'
  end.

(** [s.isdigit()]: every character is a digit and there is at least one. *)
Definition isdigit (s : string) : bool :=
  match s with
  | EmptyString => false
  | _ => all_chars isdigit_char s
  end.

(** [c.upper()] on U+0000..U+00FF. The result is a string because U+00DF
    becomes "SS". U+00B5 and U+00FF have their upper case outside the range
    (U+039C, U+0178) and are left as they are. *)
Definition upper_char (c : ascii) : string :=
  let n := code c in
  if ((97 <=? n) && (n <=? 122))%N then String (ascii_of_N (n - 32)) ""
  else if (n =? 223)%N then "SS"
  else if ((224 <=? n) && (n <=? 254) && negb (n =? 247))%N
       then String (ascii_of_N (n - 32)) ""
  else String c "".

Fixpoint upper (s : string) : string :=
  match s with
  | EmptyString => EmptyString
  | String c s' => upper_char c +:+ upper s'
  end.

(** White space of [str.strip()] on U+0000..U+00FF. *)
Definition isspace_char (c : ascii) : bool :=
  let n := code c in
  ((9 <=? n) && (n <=? 13) || (28 <=? n) && (n <=? 32)
   || (n =? 133) || (n =? 160))%N.

Fixpoint lstrip (s : string) : string :=
  match s with
  | String c s' => if isspace_char c then lstrip s' else s
  | EmptyString => EmptyString
  end.

Definition strip (s : string) : string :=
  String.rev (lstrip (String.rev (lstrip s))).

Definition startswith (p s : string) : bool := String.prefix p s.

(** [s.partition("=")]: the text before the first "=" and the text after
    it, or [None] when there is no "=" ([ "=" in s ] is false). *)
Fixpoint partition_eq (s : string) : option (string * string) :=
  match s with
  | EmptyString => None
  | String c s' =>
      if (code c =? 61)%N then Some ("", s')
      else match partition_eq s' with
           | Some (k, v) => Some (String c k, v)
           | None => None
           end
  end.

(** [enumerate(l)]. *)
Definition enumerate {A} (l : list A) : list (nat * A) :=
  combine (seq 0 (length l)) l.

(** [str(n)] for a natural number. *)
Definition str_nat (n : nat) : string := pretty n.

(** [os.path.join(a, b)] on a POSIX system. *)
Definition ends_with_slash (a : string) : bool :=
  match String.rev a with
  | String c _ => (code c =? 47)%N
  | EmptyString => false
  end.

Definition path_join (a b : string) : string :=
  if startswith "/" b then b
  else if (String.length a =? 0)%nat || ends_with_slash a then a +:+ b
  else a +:+ "/" +:+ b.

(** *** The fragment of [re] that the scripts use *)

Inductive regex : Type :=
  | ReVoid                                 (* matches nothing *)
  | ReEps                                  (* matches the empty string *)
  | ReRange (lo hi : ascii)                (* [lo-hi] *)
  | ReCat (r1 r2 : regex)
  | ReAlt (r1 r2 : regex)
  | ReRep (r : regex) (lo hi : nat).       (* r{lo,hi} *)

Fixpoint nullable (r : regex) : bool :=
  match r with
  | ReVoid => false
  | ReEps => true
  | ReRange _ _ => false
  | ReCat r1 r2 => nullable r1 && nullable r2
  | ReAlt r1 r2 => nullable r1 || nullable r2
  | ReRep r lo _ => (lo =? 0)%nat || nullable r
  end.

Definition in_range (lo hi c : ascii) : bool :=
  ((code lo <=? code c) && (code c <=? code hi))%N.

(** Derivative of [r] by the character [c]. *)
Fixpoint deriv (c : ascii) (r : regex) : regex :=
  match r with
  | ReVoid => ReVoid
  | ReEps => ReVoid
  | ReRange lo hi => if in_range lo hi c then ReEps else ReVoid
  | ReCat r1 r2 =>
      if nullable r1 then ReAlt (ReCat (deriv c r1) r2) (deriv c r2)
      else ReCat (deriv c r1) r2
  | ReAlt r1 r2 => ReAlt (deriv c r1) (deriv c r2)
  | ReRep r lo hi =>
      match hi with
      | O => ReVoid
      | S hi' => ReCat (deriv c r) (ReRep r (Nat.pred lo) hi')
      end
  end.

(** [re.fullmatch(r, s) is not None]. *)
Fixpoint fullmatch (r : regex) (s : string) : bool :=
  match s with
  | EmptyString => nullable r
  | String c s' => fullmatch (deriv c r) s'
  end.

End Py.

(** ** scripts/generate_client_config.py *)

Module GenerateClientConfig.
Import Py.

Definition ENV_KEYS : list string :=
  [ "HUBSPOT_TOKEN"; "UNIPILE_API_KEY"; "UNIPILE_ACCOUNT_ID";
    "UNIPILE_DNS"; "CARGO_API_KEY" ].

(** The client config as [json.load] gives it: a dict whose keys may be
    absent; [company_name] and [prefix] hold strings, [operators] and
    [personas] hold lists of dicts from strings to strings. *)
Record Config : Type := {
  company_name : option string;
  prefix : option string;
  operators : option (list (gmap string string));
  personas : option (list (gmap string string));
}.

(** [config.get(field)] for the two string fields. *)
Definition config_get (config : Config) (field : string) : option string :=
  if String.eqb field "company_name" then company_name config
  else if String.eqb field "prefix" then prefix config
  else None.

(** The pattern [[A-Z]{2,4}]. *)
Definition PREFIX_RE : regex := ReRep (ReRange "A" "Z") 2 4.

Definition validate_prefix (prefix : string) : list string :=
  let errors := [] in
  let errors :=
    if negb (fullmatch PREFIX_RE prefix)
    then errors ++ ["Prefix must be 2-4 uppercase letters, got: '" +:+ prefix +:+ "'"]
    else errors in
  errors.

(** Body of [for i, op in enumerate(operators)]. *)
Definition check_operator (errors : list string) (iop : nat * gmap string string)
  : list string :=
  let '(i, op) := iop in
  let errors :=
    if negb (truthy (op !! "name"))
    then errors ++ ["Operator " +:+ str_nat (i + 1) +:+ ": missing name"]
    else errors in
  let owner_id := get_default op "hubspot_owner_id" "" in
  if negb (truthy (Some owner_id))
  then errors ++ ["Operator " +:+ str_nat (i + 1) +:+ ": missing hubspot_owner_id"]
  else if negb (isdigit owner_id)
  then errors ++ ["Operator " +:+ str_nat (i + 1)
                  +:+ ": hubspot_owner_id must be numeric, got: '" +:+ owner_id +:+ "'"]
  else errors.

(** Body of [for i, p in enumerate(personas)]. *)
Definition check_persona (errors : list string) (ip : nat * gmap string string)
  : list string :=
  let '(i, p) := ip in
  let errors :=
    if negb (truthy (p !! "title_keywords"))
    then errors ++ ["Persona " +:+ str_nat (i + 1) +:+ ": missing title_keywords"]
    else errors in
  if negb (truthy (p !! "location"))
  then errors ++ ["Persona " +:+ str_nat (i + 1) +:+ ": missing location"]
  else errors.

Definition validate_config (config : Config) : list string :=
  let errors := [] in
  let errors :=
    fold_left
      (fun errors field =>
         if negb (truthy (config_get config field))
         then errors ++ ["Missing required field: " +:+ field]
         else errors)
      ["company_name"; "prefix"] errors in
  let errors :=
    match prefix config with
    | Some p => if truthy (Some p) then errors ++ validate_prefix p else errors
    | None => errors
    end in
  let operators := default [] (operators config) in
  let errors :=
    match operators with
    | [] => errors ++ ["At least one operator is required"]
    | _ => errors
    end in
  let errors := fold_left check_operator (enumerate operators) errors in
  let personas := default [] (personas config) in
  let errors :=
    match personas with
    | [] => errors ++ ["At least one persona is required"]
    | _ => errors
    end in
  let errors := fold_left check_persona (enumerate personas) errors in
  errors.

Definition validate_env (env : gmap string string) : list string :=
  fold_left
    (fun errors key =>
       let val := strip (get_default env key "") in
       if negb (truthy (Some val))
       then errors ++ ["Missing or empty credential: " +:+ key]
       else errors)
    ENV_KEYS [].

(** [parse_env_file], on the lines of the file. *)
Definition parse_env_lines (lines : list string) : gmap string string :=
  fold_left
    (fun (env : gmap string string) line =>
       let line := strip line in
       if negb (truthy (Some line)) || startswith "#" line then env
       else match partition_eq line with
            | Some (key, value) => <[strip key := strip value]> env
            | None => env
            end)
    lines ∅.

(** What the scripts read from disk: which paths exist, what [json.load]
    gives for a config file, and the lines of a text file. *)
Record filesystem : Type := {
  path_exists : string -> bool;
  json_load : string -> Config;
  read_lines : string -> list string;
}.

(** What a run leaves behind: the messages printed (decorations of the
    report lines left out) and the exit status. *)
Inductive report : Type :=
  | Validating (prefix : string)
  | Found (path : string)
  | ErrorCount (n : nat)
  | ErrorLine (msg : string)
  | AllChecksPassed.

Definition run_validate (fs : filesystem) (prefix configs_dir : string)
  : list report * Z :=
  let config_path := path_join configs_dir (prefix +:+ "-client-config.json") in
  let env_path := path_join configs_dir (prefix +:+ ".env") in
  let out := [Validating prefix] in
  let all_errors := [] in
  let '(out, all_errors) :=
    if negb (path_exists fs config_path)
    then (out, all_errors ++ ["Config file not found: " +:+ config_path])
    else (out ++ [Found config_path],
          all_errors ++ validate_config (json_load fs config_path)) in
  let '(out, all_errors) :=
    if negb (path_exists fs env_path)
    then (out, all_errors ++ ["Env file not found: " +:+ env_path])
    else (out ++ [Found env_path],
          all_errors ++ validate_env (parse_env_lines (read_lines fs env_path))) in
  match all_errors with
  | [] => (out ++ [AllChecksPassed], 0%Z)
  | _ => (out ++ [ErrorCount (length all_errors)] ++ map ErrorLine all_errors, 1%Z)
  end.

(** The command line after [argparse]: [--validate], [--prefix],
    [--output-dir]. *)
Record args : Type := {
  arg_validate : bool;
  arg_prefix : option string;
  arg_output_dir : string;
}.

(** [main] in validate mode; [parser.error] exits with status 2. The
    interactive mode reads the terminal and is not part of the model:
    [None] stands for it. *)
Definition main (fs : filesystem) (a : args) : option (list report * Z) :=
  if arg_validate a then
    if negb (truthy (arg_prefix a)) then Some ([], 2%Z)
    else Some (run_validate fs (upper (default "" (arg_prefix a))) (arg_output_dir a))
  else None.

End GenerateClientConfig.

(** ** The [datetime.date] of the Python runtime

    Written after the reference implementation of the [datetime] module:
    a date holds year, month and day; arithmetic goes through the
    proleptic Gregorian ordinal (day 1 is 0001-01-01, a Monday). *)

Module Date.
Import Py.
Local Open Scope Z_scope.

Record date : Type := { year : Z; month : Z; day : Z }.

Definition MAXORDINAL : Z := 3652059.   (* date(9999, 12, 31).toordinal() *)

Definition DAYS_IN_MONTH : list Z :=
  [-1; 31; 28; 31; 30; 31; 30; 31; 31; 30; 31; 30; 31].

Definition DAYS_BEFORE_MONTH : list Z :=
  [-1; 0; 31; 59; 90; 120; 151; 181; 212; 243; 273; 304; 334].

Definition index (l : list Z) (i : Z) : Z := nth (Z.to_nat i) l 0.

Definition is_leap (y : Z) : bool :=
  (y mod 4 =? 0) && (negb (y mod 100 =? 0) || (y mod 400 =? 0)).

Definition days_before_year (y : Z) : Z :=
  let y := y - 1 in
  y * 365 + y / 4 - y / 100 + y / 400.

Definition days_in_month (y m : Z) : Z :=
  if (m =? 2) && is_leap y then 29 else index DAYS_IN_MONTH m.

Definition days_before_month (y m : Z) : Z :=
  index DAYS_BEFORE_MONTH m + (if (2 <? m) && is_leap y then 1 else 0).

Definition ymd2ord (y m d : Z) : Z :=
  days_before_year y + days_before_month y m + d.

Definition DI400Y : Z := 146097.
Definition DI100Y : Z := 36524.
Definition DI4Y : Z := 1461.

(** Month and day of the [n]-th day (from 0) of a year. *)
Definition month_and_day (n : Z) (leapyear : bool) : Z * Z :=
  let m := Z.shiftr (n + 50) 5 in
  let preceding :=
    index DAYS_BEFORE_MONTH m + (if (2 <? m) && leapyear then 1 else 0) in
  let '(m, preceding) :=
    if n <? preceding
    then (m - 1,
          preceding - (index DAYS_IN_MONTH (m - 1)
                       + (if (m - 1 =? 2) && leapyear then 1 else 0)))
    else (m, preceding) in
  (m, n - preceding + 1).

Definition ord2ymd (n : Z) : date :=
  let n := n - 1 in
  let n400 := n / DI400Y in
  let n := n mod DI400Y in
  let y := n400 * 400 + 1 in
  let n100 := n / DI100Y in
  let n := n mod DI100Y in
  let n4 := n / DI4Y in
  let n := n mod DI4Y in
  let n1 := n / 365 in
  let n := n mod 365 in
  let y := y + n100 * 100 + n4 * 4 + n1 in
  if (n1 =? 4) || (n100 =? 4) then {| year := y - 1; month := 12; day := 31 |}
  else
    let leapyear := (n1 =? 3) && (negb (n4 =? 24) || (n100 =? 3)) in
    let '(m, d) := month_and_day n leapyear in
    {| year := y; month := m; day := d |}.

Definition toordinal (d : date) : Z := ymd2ord (year d) (month d) (day d).
Definition fromordinal (n : Z) : date := ord2ymd n.

(** The dates that the constructor of [date] accepts. *)
Definition valid_date (d : date) : Prop :=
  1 <= year d <= 9999 /\ 1 <= month d <= 12
  /\ 1 <= day d <= days_in_month (year d) (month d).

(** [d.weekday()]: Monday is 0. *)
Definition weekday (d : date) : Z := (toordinal d + 6) mod 7.

(** [d + timedelta(days=n)]. *)
Definition add_days (d : date) (n : Z) : result date :=
  let o := toordinal d + n in
  if (0 <? o) && (o <=? MAXORDINAL) then Ok (fromordinal o)
  else Raise OverflowError.

(** [str(z)] and the conversion [%0wd] of a non-negative [z]. *)
Definition str_int (z : Z) : string := pretty z.

Fixpoint zeros (n : nat) : string :=
  match n with
  | O => ""
  | S n' => String "0" (zeros n')
  end.

Definition zero_pad (w : nat) (z : Z) : string :=
  let s := str_int z in
  (zeros (w - String.length s) +:+ s)%string.

(** [d.isoformat()], that is ["%04d-%02d-%02d" % (year, month, day)]. *)
Definition isoformat (d : date) : string :=
  (zero_pad 4 (year d) +:+ "-" +:+ zero_pad 2 (month d)
   +:+ "-" +:+ zero_pad 2 (day d))%string.

(** Reading of a string of the form YYYY-MM-DD (ISO 8601, calendar date,
    extended format): four digits, a hyphen, two digits, a hyphen, two
    digits. This is the form that the spec gives for the reset dates; the
    scripts only write such strings. *)
Definition digit_value (c : ascii) : option Z :=
  let n := code c in
  if ((48 <=? n) && (n <=? 57))%N then Some (Z.of_N n - 48) else None.

Fixpoint digits_value (s : string) (acc : Z) : option Z :=
  match s with
  | EmptyString => Some acc
  | String c s' =>
      match digit_value c with
      | Some v => digits_value s' (10 * acc + v)
      | None => None
      end
  end.

Definition read_iso_date (s : string) : option date :=
  match s with
  | String y1 (String y2 (String y3 (String y4 (String h1
      (String m1 (String m2 (String h2 (String d1 (String d2 EmptyString))))))))) =>
      if (code h1 =? 45)%N && (code h2 =? 45)%N then
        match digits_value (String y1 (String y2 (String y3 (String y4 ""))))%string 0,
              digits_value (String m1 (String m2 ""))%string 0,
              digits_value (String d1 (String d2 ""))%string 0 with
        | Some y, Some m, Some d => Some {| year := y; month := m; day := d |}
        | _, _, _ => None
        end
      else None
  | _ => None
  end.

End Date.

(** ** scripts/setup_n8n_tables.py *)

Module SetupN8nTables.
Import Py Date.

Definition WEEKLY_REMAINING : Z := 150.
Definition DAILY_REMAINING : Z := 20.

(** [next_monday()], with the value of [date.today()] as its argument. *)
Definition next_monday (today : date) : result string :=
  let days_ahead := (7 - weekday today)%Z in
  let days_ahead := if (days_ahead =? 7)%Z then 7%Z else days_ahead in
  rbind (add_days today days_ahead) (fun d => Ok (isoformat d)).

(** [tomorrow()], with the value of [date.today()] as its argument. *)
Definition tomorrow (today : date) : result string :=
  rbind (add_days today 1) (fun d => Ok (isoformat d)).

(** A table spec: name, columns, rows. *)
Definition table : Type := string * list string * list (gmap string string).

Definition credentials_table (prefix : string) (env : gmap string string) : table :=
  let name := prefix +:+ "-wos-credentials" in
  let columns := ["service"; "api_key"; "account_id"; "dns"; "extra_1"; "extra_2"] in
  let rows : list (gmap string string) :=
    [ {[ "service" := "hubspot";
         "api_key" := get_default env "HUBSPOT_TOKEN" "";
         "account_id" := "";
         "dns" := "";
         "extra_1" := "";
         "extra_2" := "" ]};
      {[ "service" := "unipile";
         "api_key" := get_default env "UNIPILE_API_KEY" "";
         "account_id" := get_default env "UNIPILE_ACCOUNT_ID" "";
         "dns" := get_default env "UNIPILE_DNS" "";
         "extra_1" := "";
         "extra_2" := "" ]};
      {[ "service" := "cargo";
         "api_key" := get_default env "CARGO_API_KEY" "";
         "account_id" := "";
         "dns" := "";
         "extra_1" := "";
         "extra_2" := "" ]} ] in
  (name, columns, rows).

(** The dict that [personas_table] appends for the persona [p]. *)
Definition persona_row (p : gmap string string) : result (gmap string string) :=
  rbind (getitem p "title_keywords") (fun title_keywords =>
  rbind (getitem p "location") (fun location =>
  Ok ({[ "title_keywords" := title_keywords;
         "language" := get_default p "language" "en";
         "network_distance" := get_default p "network_distance" "S";
         "location" := location;
         "extra_1" := "";
         "extra_2" := "" ]} : gmap string string))).

(** [for x in xs: rows.append(f(x))], stopping at the first exception. *)
Fixpoint append_rows {A} (f : A -> result (gmap string string)) (xs : list A)
    (rows : list (gmap string string)) : result (list (gmap string string)) :=
  match xs with
  | [] => Ok rows
  | x :: xs' => rbind (f x) (fun row => append_rows f xs' (rows ++ [row]))
  end.

Definition personas_table (prefix : string) (personas : list (gmap string string))
  : result table :=
  let name := prefix +:+ "-wos-personas" in
  let columns :=
    ["title_keywords"; "language"; "network_distance"; "location";
     "extra_1"; "extra_2"] in
  rbind (append_rows persona_row personas []) (fun rows =>
  Ok (name, columns, rows)).

(** The dict that [user_counters_table] appends for the operator [op]. *)
Definition counter_row (nm tm : string) (op : gmap string string)
  : result (gmap string string) :=
  rbind (getitem op "name") (fun user_name =>
  rbind (getitem op "hubspot_owner_id") (fun owner_id =>
  Ok ({[ "user_name" := user_name;
         "hubspot_owner_id" := owner_id;
         "weekly_count" := "0";
         "daily_count" := "0";
         "weekly_remaining" := str_int WEEKLY_REMAINING;
         "daily_remaining" := str_int DAILY_REMAINING;
         "weekly_reset_date" := nm;
         "daily_reset_date" := tm;
         "invite_safe_date" := "";
         "extra_1" := "";
         "extra_2" := "";
         "extra_3" := "" ]} : gmap string string))).

(** [user_counters_table], with the value of [date.today()] as its last
    argument (both helpers read the clock on the same day). *)
Definition user_counters_table (prefix : string)
    (operators : list (gmap string string)) (today : date) : result table :=
  let name := prefix +:+ "-wos-user_counters" in
  let columns :=
    ["user_name"; "hubspot_owner_id"; "weekly_count"; "daily_count";
     "weekly_remaining"; "daily_remaining"; "weekly_reset_date";
     "daily_reset_date"; "invite_safe_date"; "extra_1"; "extra_2"; "extra_3"] in
  rbind (next_monday today) (fun nm =>
  rbind (tomorrow today) (fun tm =>
  rbind (append_rows (counter_row nm tm) operators []) (fun rows =>
  Ok (name, columns, rows)))).

(** What [main] prints, decorations left out; [PrintTable] stands for one
    call of [print_table]. *)
Inductive printed : Type :=
  | ConfigNotFound (path : string)
  | EnvNotFound (path : string)
  | Header (company prefix now : string)
  | PrintTable (t : table)
  | Done (total_rows : nat).

(** [for generator in (...): print_table( *generator())]. *)
Fixpoint print_tables (gens : list (unit -> result table)) (out : list printed)
  : list printed * option exc :=
  match gens with
  | [] => (out, None)
  | g :: gens' =>
      match g tt with
      | Ok t => print_tables gens' (out ++ [PrintTable t])
      | Raise e => (out, Some e)
      end
  end.

(** [main], given the file system, the clock ([today] for [date.today()],
    [now] for the formatted [datetime.now()]) and the arguments
    [--prefix] and [--configs-dir]. *)
Definition main (fs : GenerateClientConfig.filesystem) (today : date) (now : string)
    (arg_prefix configs_dir : string) : list printed * ending :=
  let prefix := upper arg_prefix in
  let config_path := path_join configs_dir (prefix +:+ "-client-config.json") in
  let env_path := path_join configs_dir (prefix +:+ ".env") in
  if negb (GenerateClientConfig.path_exists fs config_path)
  then ([ConfigNotFound config_path], Exit 1)
  else
    let config := GenerateClientConfig.json_load fs config_path in
    if negb (GenerateClientConfig.path_exists fs env_path)
    then ([EnvNotFound env_path], Exit 1)
    else
      let env :=
        GenerateClientConfig.parse_env_lines
          (GenerateClientConfig.read_lines fs env_path) in
      let personas := default [] (GenerateClientConfig.personas config) in
      let operators := default [] (GenerateClientConfig.operators config) in
      let out :=
        [Header (default prefix (GenerateClientConfig.company_name config)) prefix now] in
      match print_tables
              [ (fun _ => Ok (credentials_table prefix env));
                (fun _ => personas_table prefix personas);
                (fun _ => user_counters_table prefix operators today) ] out with
      | (out, Some e) => (out, Uncaught e)
      | (out, None) =>
          (out ++ [Done (length personas + length operators + 3)], Exit 0)
      end.

End SetupN8nTables.

(** ** scripts/verify_hubspot_properties.py *)

Module VerifyHubspotProperties.
Import Py.

Definition BASE_URL : string := "https://api.hubapi.com/crm/v3/properties".

Record property : Type := {
  name : string;
  type : string;
  fieldType : string;
  label : string;
  groupName : string;
}.

Definition contact_text (n l : string) : property :=
  {| name := n; type := "string"; fieldType := "text"; label := l;
     groupName := "contactinformation" |}.

Definition contact_date (n l : string) : property :=
  {| name := n; type := "datetime"; fieldType := "date"; label := l;
     groupName := "contactinformation" |}.

Definition CONTACT_PROPERTIES : list property :=
  [ contact_text "wos_outreach_stage" "WOS Outreach Stage";
    contact_text "wos_sequence_status" "WOS Sequence Status";
    contact_text "wos_sequence_name" "WOS Sequence Name";
    contact_date "wos_sequence_start_date" "WOS Sequence Start Date";
    contact_text "wos_user_id" "WOS User ID";
    contact_date "wos_last_interaction_date" "WOS Last Interaction Date";
    contact_text "wos_linkedin_url" "WOS LinkedIn URL";
    contact_text "wos_linkedin_id" "WOS LinkedIn ID";
    contact_text "wos_linkedin_connection_status" "WOS LinkedIn Connection Status";
    contact_date "wos_connection_accepted_date" "WOS Connection Accepted Date";
    contact_text "n8n_initiate_li_message" "n8n Initiate LI Message" ].

Definition COMPANY_PROPERTIES : list property :=
  [ {| name := "wos_process_company"; type := "datetime"; fieldType := "date";
       label := "WOS Initiate LI Agent"; groupName := "companyinformation" |};
    {| name := "wos_persona"; type := "string"; fieldType := "text";
       label := "WOS Persona"; groupName := "companyinformation" |};
    {| name := "wos_user_id"; type := "string"; fieldType := "text";
       label := "WOS User ID"; groupName := "companyinformation" |} ].

(** The dict [PROPERTY_SPECS], in the order of its keys. *)
Definition PROPERTY_SPECS : list (string * list property) :=
  [ ("contacts", CONTACT_PROPERTIES); ("companies", COMPANY_PROPERTIES) ].

(** *** The remote API

    A response of [requests]: its status code, its text, and the names
    listed under the key "results" of its JSON body (none when the key is
    absent). *)
Record response : Type := {
  status_code : Z;
  text : string;
  results : list string;
}.

(** The remote system during one run: each call either answers with a
    response or fails at the transport level ([Timeout] after the 30
    seconds given to the call, [ConnectionError]). One run sends every
    request at most once, so a function of the request covers every
    behaviour of the remote system. *)
Record network : Type := {
  requests_get : string -> string -> result response;          (* url, token *)
  requests_post : string -> string -> property -> result response;
}.

(** What a run prints and which calls it makes, in order. The lines of
    the checklist carry the object type of the section they are in. *)
Inductive event : Type :=
  | Banner (create : bool)
  | SectionHeader (object_type : string) (required : nat)
  | Get (url : string) (answer : result response)
  | Post (url : string) (prop : property) (answer : result response)
  | FetchError (object_type : string) (e : exc)
  | Present (object_type name : string)
  | Missing (object_type name : string)
  | Creating (object_type name : string)
  | CreateError (name : string) (status : Z) (body : string)
  | CreateDone
  | SummaryAllPresent
  | SummaryRerunWithCreate
  | SummaryNotCreated.

(** Programs that print, call the network and may raise: they extend the
    trace and end in a value or an exception. *)
Definition io (A : Type) : Type := list event -> list event * result A.

Definition ret {A} (a : A) : io A := fun tr => (tr, Ok a).

Definition bind {A B} (m : io A) (k : A -> io B) : io B :=
  fun tr =>
    match m tr with
    | (tr', Ok a) => k a tr'
    | (tr', Raise e) => (tr', Raise e)
    end.

Definition emit (e : event) : io unit := fun tr => (tr ++ [e], Ok tt).

Definition raise {A} (e : exc) : io A := fun tr => (tr, Raise e).

Notation "'do' x <- m ; k" := (bind m (fun x => k))
  (at level 10, x name, m at level 100, k at level 200).
Notation "'run' m ; k" := (bind m (fun _ => k))
  (at level 10, m at level 100, k at level 200).

(** [try: m  except requests.HTTPError as exc: ...]: the handler sees an
    [HTTPError]; every other exception goes on to the caller. *)
Definition try_except_HTTPError {A} (m : io A) : io (exc + A) :=
  fun tr =>
    match m tr with
    | (tr', Ok a) => (tr', Ok (inr a))
    | (tr', Raise (HTTPError s)) => (tr', Ok (inl (HTTPError s)))
    | (tr', Raise e) => (tr', Raise e)
    end.

Definition http_get (net : network) (url token : string) : io response :=
  fun tr =>
    let answer := requests_get net url token in
    (tr ++ [Get url answer], answer).

Definition http_post (net : network) (url token : string) (prop : property)
  : io response :=
  fun tr =>
    let answer := requests_post net url token prop in
    (tr ++ [Post url prop answer], answer).

(** [resp.raise_for_status()]: a status from 400 to 599 raises. *)
Definition raise_for_status (resp : response) : io unit :=
  if ((400 <=? status_code resp) && (status_code resp <? 600))%Z
  then raise (HTTPError (status_code resp))
  else ret tt.

Definition fetch_existing_properties (net : network) (token object_type : string)
  : io (gset string) :=
  let url := BASE_URL +:+ "/" +:+ object_type in
  do resp <- http_get net url token ;
  run raise_for_status resp ;
  ret (list_to_set (results resp)).

Definition create_property (net : network) (token object_type : string)
    (prop : property) : io bool :=
  let url := BASE_URL +:+ "/" +:+ object_type in
  do resp <- http_post net url token prop ;
  if ((status_code resp =? 200) || (status_code resp =? 201))%Z then ret true
  else
    run emit (CreateError (name prop) (status_code resp) (text resp)) ;
    ret false.

(** Body of the loop [for prop in specs] of [verify_and_create]; the
    value is the new [all_ok]. *)
Definition check_prop (net : network) (token : string) (do_create : bool)
    (object_type : string) (existing : gset string) (prop : property)
    (all_ok : bool) : io bool :=
  let name := name prop in
  if decide (name ∈ existing) then
    run emit (Present object_type name) ;
    ret all_ok
  else
    run emit (Missing object_type name) ;
    if do_create then
      run emit (Creating object_type name) ;
      do ok <- create_property net token object_type prop ;
      if ok then (run emit CreateDone ; ret all_ok)
      else ret false
    else ret false.

Fixpoint check_specs (net : network) (token : string) (do_create : bool)
    (object_type : string) (existing : gset string) (specs : list property)
    (all_ok : bool) : io bool :=
  match specs with
  | [] => ret all_ok
  | prop :: specs' =>
      do all_ok <- check_prop net token do_create object_type existing prop all_ok ;
      check_specs net token do_create object_type existing specs' all_ok
  end.

(** The loop [for object_type, specs in PROPERTY_SPECS.items()]. *)
Fixpoint verify_types (net : network) (token : string) (do_create : bool)
    (items : list (string * list property)) (all_ok : bool) : io bool :=
  match items with
  | [] => ret all_ok
  | (object_type, specs) :: items' =>
      run emit (SectionHeader object_type (length specs)) ;
      do fetched <- try_except_HTTPError
                      (fetch_existing_properties net token object_type) ;
      match fetched with
      | inl exc =>
          run emit (FetchError object_type exc) ;
          verify_types net token do_create items' false
      | inr existing =>
          do all_ok <- check_specs net token do_create object_type existing
                         specs all_ok ;
          verify_types net token do_create items' all_ok
      end
  end.

Definition verify_and_create (net : network) (token : string) (do_create : bool)
  : io bool :=
  verify_types net token do_create PROPERTY_SPECS true.

(** [main], given the remote system, the token ([--token] or the
    environment variable, [None] when neither is set) and [--create].
    [parser.error] exits with status 2. *)
Definition main (net : network) (token : option string) (create : bool)
  : list event * ending :=
  if negb (truthy token) then ([], Exit 2)
  else
    match (run emit (Banner create) ;
           verify_and_create net (default "" token) create) [] with
    | (tr, Raise e) => (tr, Uncaught e)
    | (tr, Ok ok) =>
        if ok then (tr ++ [SummaryAllPresent], Exit 0)
        else if negb create then (tr ++ [SummaryRerunWithCreate], Exit 1)
        else (tr ++ [SummaryNotCreated], Exit 1)
    end.

End VerifyHubspotProperties.

(** * Definitions used to state the properties *)

Module DateSpec.
Import Py Date.
Local Open Scope Z_scope.

(** The checks behind [month_and_day]: month and day are in range and add
    up to the day of the year. *)
Definition yday_ok (leap : bool) (n : Z) : bool :=
  let '(m, d) := month_and_day n leap in
  (1 <=? m) && (m <=? 12) && (1 <=? d)
  && (d <=? (if (m =? 2) && leap then 29 else index DAYS_IN_MONTH m))
  && (index DAYS_BEFORE_MONTH m + (if (2 <? m) && leap then 1 else 0) + d =? n + 1).

(** [%0wd] gives [w] characters that read back as the number. *)
Definition pad_ok (w : nat) (z : Z) : bool :=
  (String.length (zero_pad w z) =? w)%nat
  && match digits_value (zero_pad w z) 0 with
     | Some v => v =? z
     | None => false
     end.

(** [date.max]. *)
Definition date_max : date := {| year := 9999; month := 12; day := 31 |}.

Definition wednesday : date := {| year := 2024; month := 1; day := 10 |}.
Definition monday8 : date := {| year := 2024; month := 1; day := 8 |}.

End DateSpec.

Module TableSpec.
Import Py.

(** What the row of a persona holds. *)
Definition persona_row_of (p row : gmap string string) : Prop :=
  row !! "title_keywords" = p !! "title_keywords"
  /\ row !! "language" = Some (default "en" (p !! "language"))
  /\ row !! "network_distance" = Some (default "S" (p !! "network_distance"))
  /\ row !! "location" = p !! "location"
  /\ row !! "extra_1" = Some "" /\ row !! "extra_2" = Some ""
  /\ dom row = list_to_set
       ["title_keywords"; "language"; "network_distance"; "location";
        "extra_1"; "extra_2"].

(** What the row of an operator holds, given the two reset dates. *)
Definition counter_row_of (nm tm : string) (op row : gmap string string) : Prop :=
  row !! "user_name" = op !! "name"
  /\ row !! "hubspot_owner_id" = op !! "hubspot_owner_id"
  /\ row !! "weekly_count" = Some "0" /\ row !! "daily_count" = Some "0"
  /\ row !! "weekly_remaining" = Some "150"
  /\ row !! "daily_remaining" = Some "20"
  /\ row !! "weekly_reset_date" = Some nm
  /\ row !! "daily_reset_date" = Some tm
  /\ row !! "invite_safe_date" = Some ""
  /\ row !! "extra_1" = Some "" /\ row !! "extra_2" = Some ""
  /\ row !! "extra_3" = Some ""
  /\ dom row = list_to_set
       ["user_name"; "hubspot_owner_id"; "weekly_count"; "daily_count";
        "weekly_remaining"; "daily_remaining"; "weekly_reset_date";
        "daily_reset_date"; "invite_safe_date"; "extra_1"; "extra_2"; "extra_3"].

End TableSpec.

Module ConfigSpec.
Import Py GenerateClientConfig.

Definition uppercase_ascii_letter (c : ascii) : bool :=
  ((65 <=? code c) && (code c <=? 90))%N.

(** The strings that the expression ^[A-Z]{2,4}$ describes, "$" read as the
    end of the string: 2 to 4 uppercase ASCII letters. *)
Definition two_to_four_uppercase (s : string) : Prop :=
  2 <= String.length s <= 4 /\ all_chars uppercase_ascii_letter s = true.

(** The decimal digits 0 to 9. *)
Definition decimal_digit (c : ascii) : bool :=
  ((48 <=? code c) && (code c <=? 57))%N.

(** A field that is absent, or present and empty. *)
Definition absent_or_empty (o : option string) : Prop :=
  o = None \/ o = Some "".

Definition operators_of (c : Config) : list (gmap string string) :=
  default [] (operators c).

Definition personas_of (c : Config) : list (gmap string string) :=
  default [] (personas c).

(** The ways a config can break the rules of the validator; operators and
    personas are counted from 0. *)
Inductive violation : Type :=
  | MissingField (field : string)
  | PrefixShape (p : string)
  | NoOperator
  | OperatorName (i : nat)
  | OperatorOwnerMissing (i : nat)
  | OperatorOwnerNumeric (i : nat) (owner_id : string)
  | NoPersona
  | PersonaTitle (i : nat)
  | PersonaLocation (i : nat).

(** The message that reports a violation. *)
Definition message (v : violation) : string :=
  match v with
  | MissingField field => "Missing required field: " +:+ field
  | PrefixShape p => "Prefix must be 2-4 uppercase letters, got: '" +:+ p +:+ "'"
  | NoOperator => "At least one operator is required"
  | OperatorName i => "Operator " +:+ str_nat (i + 1) +:+ ": missing name"
  | OperatorOwnerMissing i =>
      "Operator " +:+ str_nat (i + 1) +:+ ": missing hubspot_owner_id"
  | OperatorOwnerNumeric i owner_id =>
      "Operator " +:+ str_nat (i + 1)
      +:+ ": hubspot_owner_id must be numeric, got: '" +:+ owner_id +:+ "'"
  | NoPersona => "At least one persona is required"
  | PersonaTitle i => "Persona " +:+ str_nat (i + 1) +:+ ": missing title_keywords"
  | PersonaLocation i => "Persona " +:+ str_nat (i + 1) +:+ ": missing location"
  end.

(** When a config breaks a rule. The shape of the prefix is a rule for a
    prefix that is there; the digits of an owner id are a rule for an id
    that is there, and the digits are those of [str.isdigit]. *)
Definition violated (c : Config) (v : violation) : Prop :=
  match v with
  | MissingField field =>
      (field = "company_name" /\ absent_or_empty (company_name c))
      \/ (field = "prefix" /\ absent_or_empty (prefix c))
  | PrefixShape p =>
      prefix c = Some p /\ p <> "" /\ ~ two_to_four_uppercase p
  | NoOperator => operators_of c = []
  | OperatorName i =>
      exists op, operators_of c !! i = Some op /\ absent_or_empty (op !! "name")
  | OperatorOwnerMissing i =>
      exists op, operators_of c !! i = Some op
                 /\ absent_or_empty (op !! "hubspot_owner_id")
  | OperatorOwnerNumeric i owner_id =>
      exists op, operators_of c !! i = Some op
                 /\ op !! "hubspot_owner_id" = Some owner_id
                 /\ owner_id <> "" /\ isdigit owner_id = false
  | NoPersona => personas_of c = []
  | PersonaTitle i =>
      exists p, personas_of c !! i = Some p
                /\ absent_or_empty (p !! "title_keywords")
  | PersonaLocation i =>
      exists p, personas_of c !! i = Some p /\ absent_or_empty (p !! "location")
  end.

Definition operator_violations (iop : nat * gmap string string) : list violation :=
  let '(i, op) := iop in
  (if truthy (op !! "name") then [] else [OperatorName i])
  ++ match op !! "hubspot_owner_id" with
     | Some (String a s) =>
         if isdigit (String a s) then [] else [OperatorOwnerNumeric i (String a s)]
     | _ => [OperatorOwnerMissing i]
     end.

Definition persona_violations (ip : nat * gmap string string) : list violation :=
  let '(i, p) := ip in
  (if truthy (p !! "title_keywords") then [] else [PersonaTitle i])
  ++ (if truthy (p !! "location") then [] else [PersonaLocation i]).

(** The violations of a config, each once, in the order of the rules. *)
Definition violations (c : Config) : list violation :=
  (if truthy (company_name c) then [] else [MissingField "company_name"])
  ++ (if truthy (prefix c) then [] else [MissingField "prefix"])
  ++ match prefix c with
     | Some (String a s) =>
         if fullmatch PREFIX_RE (String a s) then [] else [PrefixShape (String a s)]
     | _ => []
     end
  ++ match operators_of c with [] => [NoOperator] | _ => [] end
  ++ flat_map operator_violations (enumerate (operators_of c))
  ++ match personas_of c with [] => [NoPersona] | _ => [] end
  ++ flat_map persona_violations (enumerate (personas_of c)).

(** The rule that a violation breaks, in the order of the checks. *)
Definition rule_number (v : violation) : nat :=
  match v with
  | MissingField field => if String.eqb field "company_name" then 0 else 1
  | PrefixShape _ => 2
  | NoOperator => 3
  | OperatorName _ | OperatorOwnerMissing _ | OperatorOwnerNumeric _ _ => 4
  | NoPersona => 5
  | PersonaTitle _ | PersonaLocation _ => 6
  end.

(** The operator or persona that a violation is about. *)
Definition position (v : violation) : option nat :=
  match v with
  | OperatorName i | OperatorOwnerMissing i | OperatorOwnerNumeric i _
  | PersonaTitle i | PersonaLocation i => Some i
  | _ => None
  end.

(** A message about operator number [i] (from 0): it starts with
    "Operator ", the number [i + 1] and a colon. *)
Definition about_operator (i : nat) (msg : string) : Prop :=
  String.prefix ("Operator " +:+ str_nat (i + 1) +:+ ": ") msg = true.

(** C5 as the spec words it: an error about an operator exactly when its
    name is empty, its owner id is absent or empty, or its owner id holds a
    character that is not a decimal digit. *)
Definition owner_id_rule_as_stated (c : Config) (i : nat) (op : gmap string string)
  : Prop :=
  (exists msg, In msg (validate_config c) /\ about_operator i msg)
  <-> (absent_or_empty (op !! "name")
       \/ absent_or_empty (op !! "hubspot_owner_id")
       \/ exists owner_id, op !! "hubspot_owner_id" = Some owner_id
                           /\ all_chars decimal_digit owner_id = false).

(** The one-character string U+00B2, superscript two. *)
Definition superscript_two : string := String (ascii_of_N 178) "".

Definition dana : gmap string string :=
  {[ "name" := "Dana"; "hubspot_owner_id" := "1234567" ]}.

Definition cto : gmap string string :=
  {[ "title_keywords" := "CTO"; "location" := "United States" ]}.

Definition acme : Config :=
  {| company_name := Some "Acme Corp"; prefix := Some "ACM";
     operators := Some [dana]; personas := Some [cto] |}.

(** The config [acme] with the owner id of its operator replaced. *)
Definition acme_with_owner_id (owner_id : string) : Config :=
  {| company_name := Some "Acme Corp"; prefix := Some "ACM";
     operators := Some [ <["hubspot_owner_id" := owner_id]> dana ];
     personas := Some [cto] |}.

(** A config that breaks several rules at once. *)
Definition incomplete : Config :=
  {| company_name := None; prefix := Some "";
     operators := Some [ {[ "hubspot_owner_id" := "12a" ]} ];
     personas := None |}.

(** A file system without any file. *)
Definition no_files : filesystem :=
  {| path_exists := fun _ => false;
     json_load := fun _ =>
       {| company_name := None; prefix := None; operators := None;
          personas := None |};
     read_lines := fun _ => [] |}.

End ConfigSpec.

Module ReconcilerSpec.
Import Py VerifyHubspotProperties.

(** The address of the fields of an object type. *)
Definition url_of (object_type : string) : string :=
  BASE_URL +:+ "/" +:+ object_type.

(** How the fetch of the fields of an object type ends: with the set of
    the names that exist, with an HTTP error status (the failure that
    [verify_and_create] handles), or with another exception. *)
Inductive fetch_outcome : Type :=
  | Fetched (existing : gset string)
  | FetchFailed (e : exc)
  | FetchCrashed (e : exc).

Definition is_error_status (status : Z) : bool :=
  ((400 <=? status) && (status <? 600))%Z.

Definition fetch_outcome_of (net : network) (token object_type : string)
  : fetch_outcome :=
  match requests_get net (url_of object_type) token with
  | Ok resp =>
      if is_error_status (status_code resp)
      then FetchFailed (HTTPError (status_code resp))
      else Fetched (list_to_set (results resp))
  | Raise (HTTPError s) => FetchFailed (HTTPError s)
  | Raise e => FetchCrashed e
  end.

(** The statuses that count as a successful creation. *)
Definition is_created_status (status : Z) : bool :=
  ((status =? 200) || (status =? 201))%Z.

(** The remote system accepts the creation of [prop]. *)
Definition accepts (net : network) (token object_type : string) (prop : property)
  : bool :=
  match requests_post net (url_of object_type) token prop with
  | Ok resp => is_created_status (status_code resp)
  | Raise _ => false
  end.

(** The field [prop] was successfully created during the run that left
    the trace [tr]: the run sent the creation call and the answer had
    status 200 or 201. *)
Definition created (tr : list event) (object_type : string) (prop : property)
  : Prop :=
  exists resp,
    In (Post (url_of object_type) prop (Ok resp)) tr
    /\ is_created_status (status_code resp) = true.

(** The run went through the check of the field [name] of the object
    type. *)
Definition checked (tr : list event) (object_type name : string) : Prop :=
  In (Present object_type name) tr \/ In (Missing object_type name) tr.

(** Every field of [specs] is there after the run: it existed, or the run
    created it. *)
Definition all_fields_there (tr : list event) (object_type : string)
    (existing : gset string) (specs : list property) : Prop :=
  forall prop, In prop specs ->
    name prop ∈ existing \/ created tr object_type prop.


(** A call of the trace failed with the exception [e], which is not the
    [HTTPError] that the handler of the fetch catches. *)
Definition call_failed (tr : list event) (e : exc) : Prop :=
  (exists url, In (Get url (Raise e)) tr /\ forall s, e <> HTTPError s)
  \/ (exists url prop, In (Post url prop (Raise e)) tr).

(** What the check of one field adds to the trace. *)
Definition prop_trace (net : network) (token : string) (do_create : bool)
    (object_type : string) (existing : gset string) (prop : property)
  : list event :=
  if decide (name prop ∈ existing) then [Present object_type (name prop)]
  else
    Missing object_type (name prop) ::
    (if do_create then
       let a := requests_post net (url_of object_type) token prop in
       [Creating object_type (name prop); Post (url_of object_type) prop a]
       ++ match a with
          | Ok resp =>
              if is_created_status (status_code resp) then [CreateDone]
              else [CreateError (name prop) (status_code resp) (text resp)]
          | Raise _ => []
          end
     else []).

(** The value of [all_ok] after the check of one field, or the exception
    that ends the check. *)
Definition prop_value (net : network) (token : string) (do_create : bool)
    (object_type : string) (existing : gset string) (prop : property)
    (all_ok : bool) : result bool :=
  if decide (name prop ∈ existing) then Ok all_ok
  else if do_create then
    match requests_post net (url_of object_type) token prop with
    | Ok resp => if is_created_status (status_code resp) then Ok all_ok else Ok false
    | Raise e => Raise e
    end
  else Ok false.

(** The field is there after its check: it existed, or the run was asked
    to create it and the remote system accepted. *)
Definition field_ok (net : network) (token : string) (do_create : bool)
    (object_type : string) (existing : gset string) (prop : property) : bool :=
  bool_decide (name prop ∈ existing)
  || (do_create && accepts net token object_type prop).

(** An object type is in order after its pass: its fields were fetched
    and each one is there. *)
Definition type_ok (net : network) (token : string) (do_create : bool)
    (item : string * list property) : bool :=
  match fetch_outcome_of net token (fst item) with
  | Fetched existing =>
      forallb (field_ok net token do_create (fst item) existing) (snd item)
  | _ => false
  end.

(** An event of the pass over the fields [specs] of [object_type], given
    the set [existing] that was fetched: the lines of the checklist say
    what the set says, and a creation call is sent only on request, for a
    missing field of [specs], and carries the answer of the remote
    system. *)
Definition section_event (net : network) (token : string) (do_create : bool)
    (object_type : string) (existing : gset string) (specs : list property)
    (e : event) : Prop :=
  match e with
  | Present ot n =>
      ot = object_type /\ n ∈ existing
      /\ exists prop, In prop specs /\ name prop = n
  | Missing ot n =>
      ot = object_type /\ n ∉ existing
      /\ exists prop, In prop specs /\ name prop = n
  | Creating ot n =>
      ot = object_type /\ n ∉ existing /\ do_create = true
      /\ exists prop, In prop specs /\ name prop = n
  | Post url prop a =>
      url = url_of object_type /\ do_create = true
      /\ a = requests_post net url token prop
      /\ In prop specs /\ name prop ∉ existing
  | CreateError _ _ _ | CreateDone => True
  | _ => False
  end.

(** An event of a run over the object types [items]: the header of a
    section, the fetch and its answer, the report of a failed fetch, or an
    event of the pass over an object type whose fields were fetched. *)
Definition run_event (net : network) (token : string) (do_create : bool)
    (items : list (string * list property)) (e : event) : Prop :=
  match e with
  | SectionHeader ot n => exists specs, In (ot, specs) items /\ n = length specs
  | Get url a =>
      exists ot specs, In (ot, specs) items /\ url = url_of ot
                       /\ a = requests_get net url token
  | FetchError ot exc =>
      exists specs, In (ot, specs) items
                    /\ fetch_outcome_of net token ot = FetchFailed exc
  | _ =>
      exists ot specs existing,
        In (ot, specs) items
        /\ fetch_outcome_of net token ot = Fetched existing
        /\ section_event net token do_create ot existing specs e
  end.

(** A program of [io] only adds to the trace, and what it adds and how it
    ends do not depend on the trace it starts from. *)
Definition appends {A} (m : io A) : Prop :=
  forall tr, m tr = (tr ++ fst (m []), snd (m [])).



(** A response with a status and a list of field names. *)
Definition answer (status : Z) (names : list string) : result response :=
  Ok {| status_code := status; text := ""; results := names |}.

Definition names_of (specs : list property) : list string := map name specs.

(** A remote system where every required field exists. *)
Definition complete_remote : network :=
  {| requests_get := fun url _ =>
       if String.eqb url (url_of "contacts")
       then answer 200 (names_of CONTACT_PROPERTIES)
       else answer 200 (names_of COMPANY_PROPERTIES);
     requests_post := fun _ _ _ => answer 201 [] |}.

(** A remote system without any of the fields, which accepts every
    creation. *)
Definition empty_remote : network :=
  {| requests_get := fun _ _ => answer 200 [];
     requests_post := fun _ _ _ => answer 201 [] |}.



(** A remote system that refuses the fetch of the contact fields with
    status 500 and has every company field. *)
Definition contacts_down : network :=
  {| requests_get := fun url _ =>
       if String.eqb url (url_of "contacts") then answer 500 []
       else answer 200 (names_of COMPANY_PROPERTIES);
     requests_post := fun _ _ _ => answer 201 [] |}.

End ReconcilerSpec.

(** * Further definitions: what a trace of the reconciler holds *)

Module ReconcilerTrace.
Import Py VerifyHubspotProperties ReconcilerSpec.

(** The creation calls of a trace, in order: address and body. *)
Definition creation_calls (tr : list event) : list (string * property) :=
  flat_map (fun e => match e with Post url prop _ => [(url, prop)] | _ => [] end) tr.

(** The fetches of a trace, in order: the address of each one. *)
Definition fetch_calls (tr : list event) : list string :=
  flat_map (fun e => match e with Get url _ => [url] | _ => [] end) tr.

(** The fields that a trace reports as missing, in order. *)
Definition missing_lines (tr : list event) : list (string * string) :=
  flat_map (fun e => match e with Missing ot n => [(ot, n)] | _ => [] end) tr.

(** The names on the checklist of an object type, in order. *)
Definition checklist (object_type : string) (tr : list event) : list string :=
  flat_map
    (fun e =>
       match e with
       | Present ot n | Missing ot n =>
           if String.eqb ot object_type then [n] else []
       | _ => []
       end) tr.

(** The required fields that are not in the set [existing]. *)
Definition missing_from (existing : gset string) (specs : list property)
  : list property :=
  filter (fun prop => name prop ∉ existing) specs.

(** What the section of one object type adds to the trace of a run that
    returns. *)
Definition section_trace (net : network) (token : string) (do_create : bool)
    (item : string * list property) : list event :=
  let '(ot, specs) := item in
  [SectionHeader ot (length specs);
   Get (url_of ot) (requests_get net (url_of ot) token)]
  ++ match fetch_outcome_of net token ot with
     | Fetched existing => flat_map (prop_trace net token do_create ot existing) specs
     | FetchFailed e => [FetchError ot e]
     | FetchCrashed _ => []
     end.

(** The fields of an object type that a run has to create. *)
Definition to_create (net : network) (token : string)
    (item : string * list property) : list (string * property) :=
  match fetch_outcome_of net token (fst item) with
  | Fetched existing =>
      map (fun prop => (url_of (fst item), prop)) (missing_from existing (snd item))
  | _ => []
  end.

End ReconcilerTrace.

(** * Further definitions: credentials and env files *)

Module EnvSpec.
Import Py GenerateClientConfig.

(** A string as the list of its characters. *)
Definition chars (s : string) : list ascii := list_ascii_of_string s.

(** Only white space (the empty string included). *)
Definition blank (s : string) : bool := all_chars isspace_char s.

(** A credential that [validate_env] does not accept: the key is absent,
    or its value holds only white space. *)
Definition credential_missing (env : gmap string string) (key : string) : bool :=
  match env !! key with
  | Some v => blank v
  | None => true
  end.

(** No equals sign in the string. *)
Definition no_equals (s : string) : bool :=
  all_chars (fun c => negb (code c =? 61)%N) s.

(** The first character that is not white space is "#". *)
Definition comment_line (line : string) : bool := startswith "#" (lstrip line).

(** A line that assigns nothing: blank, comment, or without equals
    sign. *)
Definition assigns_nothing (line : string) : bool :=
  blank line || comment_line line || no_equals line.

(** Removal of white space at the front and at the end of a list of
    characters. *)
Fixpoint drop_space (l : list ascii) : list ascii :=
  match l with
  | c :: l' => if isspace_char c then drop_space l' else l
  | [] => []
  end.

Definition drop_space_end (l : list ascii) : list ascii :=
  rev (drop_space (rev l)).

(** White space only at the end of the string removed. *)
Definition rstrip (s : string) : string := String.rev (lstrip (String.rev s)).

End EnvSpec.

(** * Further definitions: the two scripts on the same files *)

Module PipelineSpec.
Import Py GenerateClientConfig ConfigSpec.

(** A config and env pair on disk under the prefix "ACM". *)
Definition acm_files (config : Config) (env_lines : list string) : filesystem :=
  {| path_exists := fun path =>
       String.eqb path "configs/ACM-client-config.json"
       || String.eqb path "configs/ACM.env";
     json_load := fun _ => config;
     read_lines := fun _ => env_lines |}.

(** The config [acme] with a persona that has no location. *)
Definition acme_without_location : Config :=
  {| company_name := Some "Acme Corp"; prefix := Some "ACM";
     operators := Some [dana];
     personas := Some [ {[ "title_keywords" := "CTO" ]} ] |}.

End PipelineSpec.

(** * Further definitions: [print_table] of scripts/setup_n8n_tables.py *)

Module PrintTable.
Import Py SetupN8nTables.

(** One printed line. The rules and the column separators are box-drawing
    characters, outside the range of the characters of a [string]: a line
    of cells stands for the two spaces and the cells joined by the
    separator, and a separator line holds the number of dashes of each
    column. *)
Inductive line : Type :=
  | Blank
  | Rule
  | Title (name : string)
  | Columns (n : nat) (names : string)
  | Rows (n : nat)
  | NoRows
  | Cells (cells : list string)
  | Separator (dashes : list nat).

(** [sep.join(l)]. *)
Fixpoint join (sep : string) (l : list string) : string :=
  match l with
  | [] => ""
  | [x] => x
  | x :: l' => x +:+ sep +:+ join sep l'
  end.

Fixpoint spaces (n : nat) : string :=
  match n with
  | O => ""
  | S n' => String " " (spaces n')
  end.

(** [s.ljust(width)]. *)
Definition ljust (s : string) (width : nat) : string :=
  s +:+ spaces (width - String.length s).

(** A loop [for x in xs: s = f(s, x)] whose body can raise. *)
Fixpoint for_each {S A} (f : S -> A -> result S) (xs : list A) (s : S) : result S :=
  match xs with
  | [] => Ok s
  | x :: xs' => rbind (f s x) (for_each f xs')
  end.

(** A comprehension [[f(x) for x in xs]] whose body can raise. *)
Fixpoint collect {A B} (f : A -> result B) (xs : list A) : result (list B) :=
  match xs with
  | [] => Ok []
  | x :: xs' => rbind (f x) (fun y => rbind (collect f xs') (fun ys => Ok (y :: ys)))
  end.

Section Placeholder.

(** The default of [row.get(col, ...)] is the one-character string U+2014,
    outside the range of the characters of a [string]; it is the variable
    [dash] here. *)
Variable dash : string.

(** [str(row.get(col, dash))]. *)
Definition cell_value (row : gmap string string) (col : string) : string :=
  get_default row col dash.

(** [widths[col] = max(widths[col], min(len(val), 40))]. *)
Definition widen (row : gmap string string) (widths : gmap string nat) (col : string)
  : result (gmap string nat) :=
  let val := cell_value row col in
  rbind (getitem widths col) (fun w =>
  Ok (<[col := Nat.max w (Nat.min (String.length val) 40)]> widths)).

(** The dict [widths] after the two loops. *)
Definition column_widths (columns : list string) (rows : list (gmap string string))
  : result (gmap string nat) :=
  let widths : gmap string nat :=
    foldl (fun widths col => <[col := String.length col]> widths) ∅ columns in
  for_each (fun widths row => for_each (widen row) columns widths) rows widths.

(** One cell of a row: the value, cut to 37 characters and three dots when
    it is longer than 40, padded to the width of its column. *)
Definition cell (widths : gmap string nat) (row : gmap string string) (col : string)
  : result string :=
  let val := cell_value row col in
  let val := if (40 <? String.length val)%nat
             then substring 0 37 val +:+ "..." else val in
  rbind (getitem widths col) (fun w => Ok (ljust val w)).

(** The loop over the rows, one printed line per row. *)
Fixpoint print_rows (widths : gmap string nat) (columns : list string)
    (rows : list (gmap string string)) (out : list line) : list line * option exc :=
  match rows with
  | [] => (out, None)
  | row :: rows' =>
      match collect (cell widths row) columns with
      | Ok vals => print_rows widths columns rows' (out ++ [Cells vals])
      | Raise e => (out, Some e)
      end
  end.

(** [print_table(name, columns, rows)]: what is printed, and the
    exception that ended the call, if any. *)
Definition print_table (t : table) : list line * option exc :=
  let '(name, columns, rows) := t in
  let out :=
    [Blank; Rule; Title name; Rule;
     Columns (length columns) (join ", " columns); Rows (length rows); Blank] in
  match rows with
  | [] => (out ++ [NoRows], None)
  | _ =>
      match column_widths columns rows with
      | Raise e => (out, Some e)
      | Ok widths =>
          match collect (fun col => rbind (getitem widths col) (fun w =>
                                    Ok (ljust col w))) columns with
          | Raise e => (out, Some e)
          | Ok header =>
              match collect (fun col => getitem widths col) columns with
              | Raise e => (out, Some e)
              | Ok sep =>
                  print_rows widths columns rows
                    (out ++ [Cells header; Separator sep])
              end
          end
      end
  end.

(** The width of a column as a function of the column and the rows: the
    length of its name, or of the longest value in it, cut at 40. *)
Definition width_of (rows : list (gmap string string)) (col : string) : nat :=
  foldl (fun w row => Nat.max w (Nat.min (String.length (cell_value row col)) 40))
    (String.length col) rows.

(** The text of a value as a cell shows it, before the padding. *)
Definition cell_text (val : string) : string :=
  if (40 <? String.length val)%nat then substring 0 37 val +:+ "..." else val.

End Placeholder.

(** A table whose rows have a value for every column. *)
Definition complete (t : table) : Prop :=
  let '(_, columns, rows) := t in
  forall row col, In row rows -> In col columns -> is_Some (row !! col).

(** Only spaces. *)
Definition padding (s : string) : bool := all_chars (fun c => Ascii.eqb c " ") s.

End PrintTable.

(** * Further definitions: the interactive mode of
      scripts/generate_client_config.py

    [run_interactive] and the prompts it calls, the part of the script
    that [GenerateClientConfig.main] leaves out. The terminal is a state:
    the lines still to be read and what was shown. *)

Module Interactive.
Import Py GenerateClientConfig.

(** What the interactive mode shows on the terminal. Headings, marks and
    arrows are characters outside the range of a [string]; a message keeps
    the text between them. [Prompt] is the prompt of one [input()]. *)
Inductive message : Type :=
  | Heading (title : string)
  | Say (text : string)
  | Prompt (text : string)
  | ValidationErrors (errors : list string)
  | ConfigWritten (path : string)
  | EnvTemplateWritten (path : string)
  | EnvKept (path : string)
  | NextSteps (env_path prefix : string).

(** The terminal: the lines that [input()] has still to read, without
    their line ends, and what was shown so far. *)
Record terminal : Type := {
  stdin : list string;
  shown : list message;
}.

(** How a run stops early: [input()] at the end of the input raises
    [EOFError], which nothing catches; [sys.exit(status)]; [OutOfFuel]
    belongs to the model, for a loop that was given too few turns. *)
Inductive halt : Type :=
  | EOFError
  | SystemExit (status : Z)
  | OutOfFuel.

Inductive reply (A : Type) : Type :=
  | Got (a : A) (t : terminal)
  | Halt (h : halt) (t : terminal).
Arguments Got {A} a t.
Arguments Halt {A} h t.

Definition console (A : Type) : Type := terminal -> reply A.

Definition ret {A} (a : A) : console A := fun t => Got a t.

Definition bind {A B} (m : console A) (k : A -> console B) : console B :=
  fun t =>
    match m t with
    | Got a t' => k a t'
    | Halt h t' => Halt h t'
    end.

Notation "'ask' x <- m ; k" := (bind m (fun x => k))
  (at level 10, x name, m at level 100, k at level 200).
Notation "'say' m ; k" := (bind m (fun _ => k))
  (at level 10, m at level 100, k at level 200).

Definition print (m : message) : console unit :=
  fun t => Got tt {| stdin := stdin t; shown := shown t ++ [m] |}.

(** [input(prompt)]. *)
Definition input (prompt : string) : console string :=
  fun t =>
    let shown' := shown t ++ [Prompt prompt] in
    match stdin t with
    | l :: rest => Got l {| stdin := rest; shown := shown' |}
    | [] => Halt EOFError {| stdin := []; shown := shown' |}
    end.

Definition sys_exit {A} (status : Z) : console A :=
  fun t => Halt (SystemExit status) t.

(** A [while] loop: the body goes round again with a new state ([inl]) or
    leaves the loop with a value ([inr]); [fuel] bounds the number of
    turns. *)
Fixpoint loop {S R} (fuel : nat) (body : S -> console (S + R)) (s : S) : console R :=
  fun t =>
    match fuel with
    | O => Halt OutOfFuel t
    | Datatypes.S fuel' =>
        match body s t with
        | Got (inl s') t' => loop fuel' body s' t'
        | Got (inr r) t' => Got r t'
        | Halt h t' => Halt h t'
        end
    end.

(** [while bad(v): v = post(input(prompt))]. *)
Definition ask_again (fuel : nat) (bad : string -> bool) (prompt : string)
    (post : string -> string) (v : string) : console string :=
  loop fuel
    (fun v => if bad v then ask l <- input prompt ; ret (inl (post l))
              else ret (inr v))
    v.

(** Truth value of a list. *)
Definition nonempty {A} (l : list A) : bool :=
  match l with
  | [] => false
  | _ => true
  end.

Definition prompt_basic_info (fuel : nat) : console (string * string) :=
  say print (Heading "Client Information") ;
  ask l <- input "Company name (e.g. Acme Corp): " ;
  ask company_name <-
    ask_again fuel (fun v => negb (truthy (Some v)))
      "  Company name cannot be empty: " strip (strip l) ;
  ask l <- input "Short prefix (2-4 uppercase letters, e.g. ACM): " ;
  ask prefix <-
    ask_again fuel (fun v => nonempty (validate_prefix v))
      "  Must be 2-4 uppercase letters: " (fun l => upper (strip l))
      (upper (strip l)) ;
  ret (company_name, prefix).

(** One turn of the [while True] of [prompt_operators]; the state is
    [operators] and [idx]. *)
Definition operators_turn (fuel : nat) (s : list (gmap string string) * nat)
  : console (list (gmap string string) * nat + list (gmap string string)) :=
  let '(operators, idx) := s in
  ask l <- input ("  Operator " +:+ str_nat idx +:+ " name (blank to finish): ") ;
  let name := strip l in
  if negb (truthy (Some name)) then
    if negb (nonempty operators) then
      say print (Say "  At least one operator is required.") ;
      ret (inl (operators, idx))
    else ret (inr operators)
  else
    ask l <- input ("  Operator " +:+ str_nat idx +:+ " HubSpot owner ID: ") ;
    ask owner_id <-
      ask_again fuel (fun v => negb (isdigit v)) "    Must be numeric: " strip
        (strip l) ;
    ret (inl (operators
              ++ [ ({[ "name" := name; "hubspot_owner_id" := owner_id ]}
                    : gmap string string) ],
              idx + 1)).

Definition prompt_operators (fuel : nat) : console (list (gmap string string)) :=
  say print (Heading "Operators") ;
  say print (Say "  Add operators who will run outreach. Enter a blank name to stop.") ;
  loop fuel (operators_turn fuel) ([], 1).

(** [s or dflt] on strings. *)
Definition or_default (s dflt : string) : string :=
  if truthy (Some s) then s else dflt.

(** One turn of the [while True] of [prompt_personas]. *)
Definition personas_turn (fuel : nat) (s : list (gmap string string) * nat)
  : console (list (gmap string string) * nat + list (gmap string string)) :=
  let '(personas, idx) := s in
  ask l <- input ("  Persona " +:+ str_nat idx +:+ " title_keywords (blank to finish): ") ;
  let title_keywords := strip l in
  if negb (truthy (Some title_keywords)) then
    if negb (nonempty personas) then
      say print (Say "  At least one persona is required.") ;
      ret (inl (personas, idx))
    else ret (inr personas)
  else
    ask l <- input ("  Persona " +:+ str_nat idx +:+ " language [en]: ") ;
    let language := or_default (strip l) "en" in
    ask l <- input ("  Persona " +:+ str_nat idx +:+ " network_distance [S]: ") ;
    let network_distance := or_default (strip l) "S" in
    ask l <- input ("  Persona " +:+ str_nat idx +:+ " location (e.g. United States): ") ;
    ask location <-
      ask_again fuel (fun v => negb (truthy (Some v)))
        "    Location cannot be empty: " strip (strip l) ;
    ret (inl (personas
              ++ [ ({[ "title_keywords" := title_keywords;
                       "language" := language;
                       "network_distance" := network_distance;
                       "location" := location ]} : gmap string string) ],
              idx + 1)).

Definition prompt_personas (fuel : nat) : console (list (gmap string string)) :=
  say print (Heading "ICP Personas") ;
  say print (Say "  Add LinkedIn search personas. Enter blank title_keywords to stop.") ;
  loop fuel (personas_turn fuel) ([], 1).

(** [write_config]: after it the path exists and [json.load] gives back
    the dict that [json.dump] wrote. Directories, and the text of the JSON
    file, are not part of the model (no script reads a config file as
    lines). *)
Definition write_config (config : Config) (path : string) (fs : filesystem)
  : console filesystem :=
  let fs' :=
    {| path_exists := fun p => String.eqb p path || path_exists fs p;
       json_load := fun p => if String.eqb p path then config else json_load fs p;
       read_lines := read_lines fs |} in
  say print (ConfigWritten path) ;
  ret fs'.

Definition newline : string := String (ascii_of_N 10) "".

(** The lines that [write_env_template] writes. The second comment holds
    the character U+2014, outside the range of a [string]: it is the
    argument [dash]. *)
Definition env_template (dash : string) : list string :=
  [ "# WOS Client Credentials" +:+ newline;
    "# Fill in the values below " +:+ dash +:+ " do not commit this file" +:+ newline ]
  ++ map (fun key => key +:+ "=" +:+ newline) ENV_KEYS.

Definition write_env_template (dash : string) (path : string) (fs : filesystem)
  : console filesystem :=
  let fs' :=
    {| path_exists := fun p => String.eqb p path || path_exists fs p;
       json_load := json_load fs;
       read_lines := fun p => if String.eqb p path then env_template dash
                              else read_lines fs p |} in
  say print (EnvTemplateWritten path) ;
  ret fs'.

(** [run_interactive], given the fuel of its loops. *)
Definition interactive (dash : string) (fs : filesystem) (output_dir : string)
    (fuel : nat) : console filesystem :=
  ask basic <- prompt_basic_info fuel ;
  let '(company_name, prefix) := basic in
  ask operators <- prompt_operators fuel ;
  ask personas <- prompt_personas fuel ;
  let config :=
    {| company_name := Some company_name; prefix := Some prefix;
       operators := Some operators; personas := Some personas |} in
  let errors := validate_config config in
  if nonempty errors then
    say print (ValidationErrors errors) ;
    sys_exit 1
  else
    let config_path := path_join output_dir (prefix +:+ "-client-config.json") in
    let env_path := path_join output_dir (prefix +:+ ".env") in
    ask fs <- write_config config config_path fs ;
    ask fs <-
      (if negb (path_exists fs env_path) then write_env_template dash env_path fs
       else say print (EnvKept env_path) ; ret fs) ;
    say print (NextSteps env_path prefix) ;
    ret fs.

(** [run_interactive]: a turn of a loop that goes round again has read a
    line, so the loops get one turn more than there are lines to read. *)
Definition run_interactive (dash : string) (fs : filesystem) (output_dir : string)
  : console filesystem :=
  fun t => interactive dash fs output_dir (S (length (stdin t))) t.

End Interactive.

Module InteractiveSpec.
Import Py GenerateClientConfig Interactive.

(** A program of the console that, started with fewer than [n] lines to
    read, either returns, having read [c] lines, with [Q] of its value
    and [c], or stops with [EOFError] at the end of the input. *)
Definition spec {A} (n : nat) (m : console A) (Q : A -> nat -> Prop) : Prop :=
  forall t, length (stdin t) < n ->
    match m t with
    | Got a t' => exists c, length (stdin t) = c + length (stdin t') /\ Q a c
    | Halt h t' => h = EOFError /\ stdin t' = []
    end.

(** An operator as [validate_config] wants it. *)
Definition good_operator (op : gmap string string) : Prop :=
  truthy (op !! "name") = true
  /\ exists owner_id, op !! "hubspot_owner_id" = Some owner_id
                      /\ isdigit owner_id = true.

(** A persona as [validate_config] wants it. *)
Definition good_persona (p : gmap string string) : Prop :=
  truthy (p !! "title_keywords") = true /\ truthy (p !! "location") = true.

(** The answers of a short session: one operator, one persona. *)
Definition session : terminal :=
  {| stdin := [ " Acme Corp "; "acme corp"; "acm";
                ""; "Dana"; "12a"; "1234567"; "";
                "CTO, VP Engineering"; ""; ""; ""; "United States"; "" ];
     shown := [] |}.

(** The run returned. *)
Definition returned {A} (r : reply A) : bool :=
  match r with
  | Got _ _ => true
  | Halt _ _ => false
  end.

End InteractiveSpec.

(** * Properties *)

(** ** The calendar *)

Module DateFacts.
Import Py Date DateSpec.
Local Open Scope Z_scope.

(** A bounded quantifier over an initial segment of the integers, checked
    by evaluation. *)
Lemma forallb_range (P : Z -> bool) (k : nat) :
  forallb P (map Z.of_nat (seq 0 k)) = true ->
  forall n, 0 <= n < Z.of_nat k -> P n = true.
Proof.
  intros H n Hn. rewrite forallb_forall in H. apply H.
  apply in_map_iff. exists (Z.to_nat n). split.
  - lia.
  - apply in_seq. lia.
Qed.

Lemma month_and_day_ok (leap : bool) (n : Z) :
  0 <= n < (if leap then 366 else 365) -> yday_ok leap n = true.
Proof.
  intros Hn. destruct leap.
  - apply (forallb_range (yday_ok true) 366); [vm_compute; reflexivity | lia].
  - apply (forallb_range (yday_ok false) 365); [vm_compute; reflexivity | lia].
Qed.

Lemma is_leap_true y :
  is_leap y = true <-> (y mod 4 = 0 /\ (y mod 100 <> 0 \/ y mod 400 = 0)).
Proof.
  unfold is_leap.
  rewrite andb_true_iff, orb_true_iff, negb_true_iff, !Z.eqb_eq, Z.eqb_neq.
  tauto.
Qed.

(** [date.fromordinal] gives a date that the constructor accepts and whose
    ordinal is the one asked for. *)
Lemma toordinal_fromordinal n :
  1 <= n <= MAXORDINAL ->
  toordinal (fromordinal n) = n /\ valid_date (fromordinal n).
Proof.
  unfold MAXORDINAL. intros Hn.
  unfold fromordinal, ord2ymd, DI400Y, DI100Y, DI4Y.
  set (n0 := n - 1).
  set (q400 := n0 / 146097). set (r400 := n0 mod 146097).
  set (q100 := r400 / 36524). set (r100 := r400 mod 36524).
  set (q4 := r100 / 1461). set (r4 := r100 mod 1461).
  set (q1 := r4 / 365). set (r1 := r4 mod 365).
  assert (E400 : n0 = 146097 * q400 + r400 /\ 0 <= r400 < 146097)
    by (subst q400 r400; split; [apply Z.div_mod; lia | apply Z.mod_pos_bound; lia]).
  assert (E100 : r400 = 36524 * q100 + r100 /\ 0 <= r100 < 36524)
    by (subst q100 r100; split; [apply Z.div_mod; lia | apply Z.mod_pos_bound; lia]).
  assert (E4 : r100 = 1461 * q4 + r4 /\ 0 <= r4 < 1461)
    by (subst q4 r4; split; [apply Z.div_mod; lia | apply Z.mod_pos_bound; lia]).
  assert (E1 : r4 = 365 * q1 + r1 /\ 0 <= r1 < 365)
    by (subst q1 r1; split; [apply Z.div_mod; lia | apply Z.mod_pos_bound; lia]).
  assert (Hn0 : 0 <= n0 < 3652059 /\ n = n0 + 1) by (subst n0; lia).
  clearbody q400 r400 q100 r100 q4 r4 q1 r1 n0.
  assert (0 <= q400 <= 24 /\ 0 <= q100 <= 4 /\ 0 <= q4 <= 24 /\ 0 <= q1 <= 4) by lia.
  destruct ((q1 =? 4) || (q100 =? 4)) eqn:Hend.
  - (* the last day of a leap year *)
    unfold toordinal, valid_date, ymd2ord, days_before_year, days_before_month,
      days_in_month; cbn [year month day].
    change (index DAYS_BEFORE_MONTH 12) with 334.
    change (index DAYS_IN_MONTH 12) with 31.
    change (12 =? 2) with false. change (2 <? 12) with true. cbn [andb].
    apply orb_true_iff in Hend. rewrite !Z.eqb_eq in Hend.
    destruct (is_leap _) eqn:Hl.
    + apply is_leap_true in Hl. split; [|lia].
      Z.div_mod_to_equations; lia.
    + assert (Hl' : ~ (is_leap (q400 * 400 + 1 + q100 * 100 + q4 * 4 + q1 - 1) = true))
        by congruence.
      rewrite is_leap_true in Hl'. exfalso. apply Hl'.
      Z.div_mod_to_equations; lia.
  - apply orb_false_iff in Hend. rewrite !Z.eqb_neq in Hend.
    set (leap := (q1 =? 3) && (negb (q4 =? 24) || (q100 =? 3))).
    assert (Hr1 : 0 <= r1 < (if leap then 366 else 365)) by (destruct leap; lia).
    pose proof (month_and_day_ok leap r1 Hr1) as Hok. unfold yday_ok in Hok.
    destruct (month_and_day r1 leap) as [m d].
    rewrite !andb_true_iff, !Z.leb_le, Z.eqb_eq in Hok.
    assert (Hleap : is_leap (q400 * 400 + 1 + q100 * 100 + q4 * 4 + q1) = leap).
    { subst leap. apply eq_true_iff_eq. rewrite is_leap_true.
      rewrite andb_true_iff, orb_true_iff, negb_true_iff, Z.eqb_eq, Z.eqb_neq, Z.eqb_eq.
      Z.div_mod_to_equations; lia. }
    unfold toordinal, valid_date, ymd2ord, days_before_year, days_before_month,
      days_in_month; cbn [year month day].
    rewrite Hleap. split; [|lia].
    Z.div_mod_to_equations; lia.
Qed.

Lemma toordinal_pos d : valid_date d -> 1 <= toordinal d.
Proof.
  intros (Hy & Hm & Hd).
  unfold toordinal, ymd2ord, days_before_year, days_before_month.
  assert (0 <= index DAYS_BEFORE_MONTH (month d)).
  { assert (month d = 1 \/ month d = 2 \/ month d = 3 \/ month d = 4
            \/ month d = 5 \/ month d = 6 \/ month d = 7 \/ month d = 8
            \/ month d = 9 \/ month d = 10 \/ month d = 11 \/ month d = 12)
      as Hc by lia.
    repeat destruct Hc as [-> | Hc]; try rewrite Hc; vm_compute; discriminate. }
  destruct (_ && _); Z.div_mod_to_equations; lia.
Qed.

Lemma days_in_month_le y m : 1 <= m <= 12 -> days_in_month y m <= 31.
Proof.
  intros Hm. unfold days_in_month. destruct (_ && _); [lia|].
  assert (m = 1 \/ m = 2 \/ m = 3 \/ m = 4 \/ m = 5 \/ m = 6 \/ m = 7
          \/ m = 8 \/ m = 9 \/ m = 10 \/ m = 11 \/ m = 12) as Hc by lia.
  repeat destruct Hc as [-> | Hc]; try rewrite Hc; vm_compute; discriminate.
Qed.

Lemma add_days_ok d n :
  1 <= toordinal d + n <= MAXORDINAL ->
  exists d', add_days d n = Ok d' /\ toordinal d' = toordinal d + n /\ valid_date d'.
Proof.
  intros H. unfold add_days.
  replace ((0 <? toordinal d + n) && (toordinal d + n <=? MAXORDINAL)) with true.
  - eexists; split; [reflexivity | apply toordinal_fromordinal; exact H].
  - symmetry. apply andb_true_iff. split; [apply Z.ltb_lt | apply Z.leb_le]; lia.
Qed.

Lemma add_days_overflow d n :
  MAXORDINAL < toordinal d + n -> add_days d n = Raise OverflowError.
Proof.
  intros H. unfold add_days.
  replace (toordinal d + n <=? MAXORDINAL) with false.
  - now rewrite andb_false_r.
  - symmetry. apply Z.leb_gt. lia.
Qed.

(** *** The conversion [%0wd] and the form YYYY-MM-DD *)

Lemma pad4_ok z : 0 <= z < 10000 -> pad_ok 4 z = true.
Proof.
  intros H. apply (forallb_range (pad_ok 4) (Z.to_nat 10000)); [|lia].
  vm_compute. reflexivity.
Qed.

Lemma pad2_ok z : 0 <= z < 100 -> pad_ok 2 z = true.
Proof.
  intros H. apply (forallb_range (pad_ok 2) (Z.to_nat 100)); [|lia].
  vm_compute. reflexivity.
Qed.

Lemma read_iso_date_isoformat d :
  valid_date d -> read_iso_date (isoformat d) = Some d.
Proof.
  intros (Hy & Hm & Hd).
  assert (Hd' : day d <= 31).
  { pose proof (days_in_month_le (year d) (month d) Hm). lia. }
  pose proof (pad4_ok (year d) ltac:(lia)) as H4.
  pose proof (pad2_ok (month d) ltac:(lia)) as Hm2.
  pose proof (pad2_ok (day d) ltac:(lia)) as Hd2.
  unfold pad_ok in *. unfold isoformat.
  destruct d as [y m dd]; cbn [year month day] in *.
  destruct (zero_pad 4 y) as [|y1 [|y2 [|y3 [|y4 [|? ?]]]]]; try discriminate H4.
  destruct (zero_pad 2 m) as [|m1 [|m2 [|? ?]]]; try discriminate Hm2.
  destruct (zero_pad 2 dd) as [|d1 [|d2 [|? ?]]]; try discriminate Hd2.
  cbn [String.length Nat.eqb andb] in *.
  destruct (digits_value (String y1 _) 0) as [vy|] eqn:Vy; [|discriminate].
  destruct (digits_value (String m1 _) 0) as [vm|] eqn:Vm; [|discriminate].
  destruct (digits_value (String d1 _) 0) as [vd|] eqn:Vd; [|discriminate].
  apply Z.eqb_eq in H4, Hm2, Hd2. subst vy vm vd.
  change (read_iso_date _) with
    (match digits_value (String y1 (String y2 (String y3 (String y4 "")))) 0,
           digits_value (String m1 (String m2 "")) 0,
           digits_value (String d1 (String d2 "")) 0 with
     | Some y, Some m, Some d => Some {| year := y; month := m; day := d |}
     | _, _, _ => None
     end).
  now rewrite Vy, Vm, Vd.
Qed.

End DateFacts.

(** ** The table generators of setup_n8n_tables.py *)

Module TableFacts.
Import Py Date DateSpec DateFacts SetupN8nTables TableSpec.

Lemma next_monday_ok today :
  valid_date today -> (toordinal today + 7 <= MAXORDINAL)%Z ->
  exists monday,
    next_monday today = Ok (isoformat monday)
    /\ valid_date monday /\ weekday monday = 0%Z
    /\ (toordinal today < toordinal monday <= toordinal today + 7)%Z
    /\ (weekday today = 0%Z -> toordinal monday = toordinal today + 7)%Z.
Proof.
  intros Hv Hmax. pose proof (toordinal_pos today Hv) as Hpos.
  unfold next_monday.
  assert (Hw : (0 <= weekday today < 7)%Z)
    by (unfold weekday; apply Z.mod_pos_bound; lia).
  replace (if (7 - weekday today =? 7)%Z then 7%Z else (7 - weekday today)%Z)
    with (7 - weekday today)%Z by (destruct (Z.eqb_spec (7 - weekday today) 7); lia).
  destruct (add_days_ok today (7 - weekday today)%Z) as (d & Hadd & Hord & Hvd);
    [lia|].
  exists d. rewrite Hadd. cbn [rbind].
  split; [reflexivity|]. split; [assumption|]. split; [|lia].
  unfold weekday in *. rewrite Hord.
  Z.div_mod_to_equations; lia.
Qed.

Lemma tomorrow_ok today :
  valid_date today -> (toordinal today + 1 <= MAXORDINAL)%Z ->
  exists tmrw,
    tomorrow today = Ok (isoformat tmrw)
    /\ valid_date tmrw /\ (toordinal tmrw = toordinal today + 1)%Z.
Proof.
  intros Hv Hmax. pose proof (toordinal_pos today Hv) as Hpos.
  unfold tomorrow.
  destruct (add_days_ok today 1%Z) as (d & Hadd & Hord & Hvd); [lia|].
  exists d. rewrite Hadd. cbn [rbind]. auto.
Qed.

(** The loop that appends one row per element. *)
Lemma append_rows_ok {A} (R : A -> gmap string string -> Prop)
    (f : A -> result (gmap string string)) xs :
  Forall (fun x => exists row, f x = Ok row /\ R x row) xs ->
  forall rows, exists new,
    append_rows f xs rows = Ok (rows ++ new) /\ Forall2 R xs new.
Proof.
  induction 1 as [|x xs (row & Hf & HR) _ IH]; intros rows.
  - exists []. cbn. rewrite app_nil_r. split; [reflexivity | constructor].
  - destruct (IH (rows ++ [row])) as (new & Hrun & Hnew).
    exists (row :: new). cbn. rewrite Hf. cbn. rewrite Hrun, <- app_assoc.
    split; [reflexivity | constructor; assumption].
Qed.

Lemma append_rows_raise {A} (Q : exc -> Prop)
    (f : A -> result (gmap string string)) xs :
  (forall x e, f x = Raise e -> Q e) ->
  Exists (fun x => exists e, f x = Raise e) xs ->
  forall rows, exists e, append_rows f xs rows = Raise e /\ Q e.
Proof.
  intros HQ Hex. induction xs as [|x xs IH]; intros rows.
  - inversion Hex.
  - cbn. destruct (f x) as [row|e] eqn:Hf; cbn.
    + apply IH. inversion Hex as [? ? (e & He)|]; [congruence | assumption].
    + exists e. split; [reflexivity | eauto].
Qed.

Lemma persona_row_ok p :
  is_Some (p !! "title_keywords") -> is_Some (p !! "location") ->
  exists row, persona_row p = Ok row /\ persona_row_of p row.
Proof.
  intros [t Ht] [l Hl]. unfold persona_row, getitem, get_default.
  rewrite Ht, Hl. cbn [rbind]. eexists. split; [reflexivity|].
  unfold persona_row_of. rewrite Ht, Hl.
  destruct (p !! "language"), (p !! "network_distance");
    repeat split; try (vm_compute; reflexivity).
Qed.

Lemma counter_row_ok nm tm op :
  is_Some (op !! "name") -> is_Some (op !! "hubspot_owner_id") ->
  exists row, counter_row nm tm op = Ok row /\ counter_row_of nm tm op row.
Proof.
  intros [n Hn] [o Ho]. unfold counter_row, getitem.
  rewrite Hn, Ho. cbn [rbind]. eexists. split; [reflexivity|].
  unfold counter_row_of. rewrite Hn, Ho.
  repeat split; try (vm_compute; reflexivity).
Qed.

Lemma persona_row_raise p e :
  persona_row p = Raise e ->
  e = KeyError "title_keywords" \/ e = KeyError "location".
Proof.
  unfold persona_row, getitem.
  destruct (p !! "title_keywords"); cbn; [|intros [= <-]; auto].
  destruct (p !! "location"); cbn; [discriminate | intros [= <-]; auto].
Qed.

Lemma counter_row_raise nm tm op e :
  counter_row nm tm op = Raise e ->
  e = KeyError "name" \/ e = KeyError "hubspot_owner_id".
Proof.
  unfold counter_row, getitem.
  destruct (op !! "name"); cbn; [|intros [= <-]; auto].
  destruct (op !! "hubspot_owner_id"); cbn; [discriminate | intros [= <-]; auto].
Qed.

Lemma persona_row_missing p :
  p !! "title_keywords" = None \/ p !! "location" = None ->
  exists e, persona_row p = Raise e.
Proof.
  unfold persona_row, getitem. intros [H|H].
  - rewrite H. cbn. eauto.
  - destruct (p !! "title_keywords"); cbn; [rewrite H; cbn|]; eauto.
Qed.

Lemma counter_row_missing nm tm op :
  op !! "name" = None \/ op !! "hubspot_owner_id" = None ->
  exists e, counter_row nm tm op = Raise e.
Proof.
  unfold counter_row, getitem. intros [H|H].
  - rewrite H. cbn. eauto.
  - destruct (op !! "name"); cbn; [rewrite H; cbn|]; eauto.
Qed.

Lemma append_rows_inv {A} (f : A -> result (gmap string string)) xs :
  forall rows out,
    append_rows f xs rows = Ok out ->
    length out = (length rows + length xs)%nat
    /\ forall row, In row out -> In row rows \/ exists x, In x xs /\ f x = Ok row.
Proof.
  induction xs as [|x xs IH]; intros rows out; cbn.
  - intros [= <-]. split; [lia | auto].
  - destruct (f x) as [r|e] eqn:Hf; cbn; [|discriminate].
    intros Hrun. apply IH in Hrun as [Hlen Hin]. split.
    + rewrite Hlen, length_app. cbn. lia.
    + intros row Hrow. destruct (Hin row Hrow) as [H|(y & Hy & Hfy)].
      * apply in_app_iff in H as [H|[<-|[]]]; eauto.
      * eauto.
Qed.

(** The two dates are read once, before the loop, and every row holds
    them. *)
Lemma user_counters_rows prefix operators today name columns rows :
  user_counters_table prefix operators today = Ok (name, columns, rows) ->
  exists nm tm,
    next_monday today = Ok nm /\ tomorrow today = Ok tm
    /\ length rows = length operators
    /\ forall row, In row rows ->
         row !! "weekly_reset_date" = Some nm /\ row !! "daily_reset_date" = Some tm.
Proof.
  unfold user_counters_table.
  destruct (next_monday today) as [nm|]; cbn; [|discriminate].
  destruct (tomorrow today) as [tm|]; cbn; [|discriminate].
  destruct (append_rows _ _ _) as [out|] eqn:Hrun; cbn; [|discriminate].
  intros [= <- <- <-]. exists nm, tm.
  apply append_rows_inv in Hrun as [Hlen Hin].
  repeat split; try reflexivity; try assumption.
  all: destruct (Hin row H) as [[]|(op & _ & Hop)];
    unfold counter_row, getitem in Hop;
    destruct (op !! "name"); cbn in Hop; try discriminate;
    destruct (op !! "hubspot_owner_id"); cbn in Hop; try discriminate;
    injection Hop as <-; vm_compute; reflexivity.
Qed.

Lemma user_counters_table_ok prefix operators today :
  valid_date today -> (toordinal today + 7 <= MAXORDINAL)%Z ->
  Forall (fun op => is_Some (op !! "name") /\ is_Some (op !! "hubspot_owner_id"))
    operators ->
  exists monday tmrw rows,
    next_monday today = Ok (isoformat monday)
    /\ tomorrow today = Ok (isoformat tmrw)
    /\ user_counters_table prefix operators today =
         Ok (prefix +:+ "-wos-user_counters",
             ["user_name"; "hubspot_owner_id"; "weekly_count"; "daily_count";
              "weekly_remaining"; "daily_remaining"; "weekly_reset_date";
              "daily_reset_date"; "invite_safe_date"; "extra_1"; "extra_2";
              "extra_3"], rows)
    /\ Forall2 (counter_row_of (isoformat monday) (isoformat tmrw)) operators rows.
Proof.
  intros Hv Hmax Hops.
  destruct (next_monday_ok today Hv Hmax) as (monday & Hnm & _).
  destruct (tomorrow_ok today Hv ltac:(lia)) as (tmrw & Htm & _).
  destruct (append_rows_ok (counter_row_of (isoformat monday) (isoformat tmrw))
              (counter_row (isoformat monday) (isoformat tmrw)) operators)
    with (rows := @nil (gmap string string)) as (rows & Hrun & Hrows).
  { eapply Forall_impl; [exact Hops|]. intros op [H1 H2].
    now apply counter_row_ok. }
  exists monday, tmrw, rows. unfold user_counters_table.
  rewrite Hnm, Htm. cbn [rbind]. rewrite Hrun. cbn. auto.
Qed.

(** Past [date.max] there is no next day: on 9999-12-31 the table of the
    counters cannot be built, whatever the operators. *)
Lemma user_counters_table_at_date_max prefix operators :
  toordinal date_max = MAXORDINAL
  /\ tomorrow date_max = Raise OverflowError
  /\ user_counters_table prefix operators date_max = Raise OverflowError.
Proof. repeat split; vm_compute; reflexivity. Qed.

End TableFacts.

(** ** Claims about setup_n8n_tables.py *)

Section TableClaims.
Import Py Date DateSpec DateFacts SetupN8nTables TableSpec TableFacts.
Local Open Scope Z_scope.

(** C3. For every operator list and every value [today] of the clock at
    least a week before [date.max], [user_counters_table] gives one row per
    operator, and every row holds under weekly_reset_date the date of the
    next Monday strictly after [today] (the Monday within the seven days
    that follow; [today] plus 7 days when [today] is a Monday) and under
    daily_reset_date the date of [today] plus one day, both written as
    YYYY-MM-DD. When [today] is Wednesday 2024-01-10 the rows hold
    2024-01-15 and 2024-01-11; when it is Monday 2024-01-08 they hold
    2024-01-15. *)
Theorem user_counters_reset_dates :
  (forall prefix operators today,
     valid_date today -> toordinal today + 7 <= MAXORDINAL ->
     Forall (fun op => is_Some (op !! "name") /\ is_Some (op !! "hubspot_owner_id"))
       operators ->
     exists monday tmrw name columns rows,
       user_counters_table prefix operators today = Ok (name, columns, rows)
       /\ length rows = length operators
       /\ valid_date monday /\ weekday monday = 0
       /\ toordinal today < toordinal monday <= toordinal today + 7
       /\ (weekday today = 0 -> toordinal monday = toordinal today + 7)
       /\ valid_date tmrw /\ toordinal tmrw = toordinal today + 1
       /\ (forall row, In row rows ->
             row !! "weekly_reset_date" = Some (isoformat monday)
             /\ row !! "daily_reset_date" = Some (isoformat tmrw))
       /\ read_iso_date (isoformat monday) = Some monday
       /\ read_iso_date (isoformat tmrw) = Some tmrw)
  /\ (weekday wednesday = 2
      /\ forall prefix operators name columns rows,
           user_counters_table prefix operators wednesday = Ok (name, columns, rows) ->
           forall row, In row rows ->
             row !! "weekly_reset_date" = Some "2024-01-15"%string
             /\ row !! "daily_reset_date" = Some "2024-01-11"%string)
  /\ (weekday monday8 = 0
      /\ forall prefix operators name columns rows,
           user_counters_table prefix operators monday8 = Ok (name, columns, rows) ->
           forall row, In row rows ->
             row !! "weekly_reset_date" = Some "2024-01-15"%string).
Proof.
  split; [|split].
  - intros prefix operators today Hv Hmax Hops.
    destruct (next_monday_ok today Hv Hmax) as (monday & Hnm & Hvm & Hwm & Hrange & Hmon).
    destruct (tomorrow_ok today Hv ltac:(lia)) as (tmrw & Htm & Hvt & Hot).
    destruct (user_counters_table_ok prefix operators today Hv Hmax Hops)
      as (monday' & tmrw' & rows & Hnm' & Htm' & Hrun & _).
    destruct (user_counters_rows _ _ _ _ _ _ Hrun) as (nm & tm & Hnm2 & Htm2 & Hlen & Hrows).
    rewrite Hnm in Hnm2. rewrite Htm in Htm2.
    injection Hnm2 as <-. injection Htm2 as <-.
    exists monday, tmrw. do 3 eexists. split; [exact Hrun|].
    repeat (split; [first [assumption | lia | now apply read_iso_date_isoformat]|]).
    now apply read_iso_date_isoformat.
  - split; [vm_compute; reflexivity|].
    intros prefix operators name columns rows Hrun row Hrow.
    destruct (user_counters_rows _ _ _ _ _ _ Hrun) as (nm & tm & Hnm & Htm & _ & Hrows).
    vm_compute in Hnm, Htm. injection Hnm as <-. injection Htm as <-.
    exact (Hrows row Hrow).
  - split; [vm_compute; reflexivity|].
    intros prefix operators name columns rows Hrun row Hrow.
    destruct (user_counters_rows _ _ _ _ _ _ Hrun) as (nm & tm & Hnm & Htm & _ & Hrows).
    vm_compute in Hnm. injection Hnm as <-.
    exact (proj1 (Hrows row Hrow)).
Qed.

Lemma user_counters_reset_dates_witness :
  valid_date wednesday
  /\ toordinal wednesday + 7 <= MAXORDINAL
  /\ exists monday tmrw name columns rows,
       user_counters_table "ACM"
         [ {[ "name" := "Dana"; "hubspot_owner_id" := "1234567" ]} ] wednesday
       = Ok (name, columns, rows)
       /\ length rows = 1%nat
       /\ valid_date monday /\ weekday monday = 0
       /\ toordinal wednesday < toordinal monday <= toordinal wednesday + 7
       /\ (weekday wednesday = 0 -> toordinal monday = toordinal wednesday + 7)
       /\ valid_date tmrw /\ toordinal tmrw = toordinal wednesday + 1
       /\ (forall row, In row rows ->
             row !! "weekly_reset_date" = Some (isoformat monday)
             /\ row !! "daily_reset_date" = Some (isoformat tmrw))
       /\ read_iso_date (isoformat monday) = Some monday
       /\ read_iso_date (isoformat tmrw) = Some tmrw.
Proof.
  assert (Hv : valid_date wednesday) by (vm_compute; intuition discriminate).
  assert (Hmax : toordinal wednesday + 7 <= MAXORDINAL) by (vm_compute; discriminate).
  split; [exact Hv|]. split; [exact Hmax|].
  apply (proj1 user_counters_reset_dates "ACM"%string
           [ {[ "name" := "Dana"; "hubspot_owner_id" := "1234567" ]} ]
           wednesday Hv Hmax).
  repeat constructor; vm_compute; eauto.
Defined.

(** C8. For every credential mapping, the empty one included,
    [credentials_table] returns (it cannot raise) exactly three rows, for
    hubspot, unipile and cargo in this order, under the columns service,
    api_key, account_id, dns, extra_1, extra_2. Each row has exactly these
    six columns; a credential field holds the value of its key in the
    mapping, or the empty string when the key is absent; every column that
    does not belong to the service of the row is the empty string. *)
Theorem credentials_table_three_rows (prefix : string) (env : gmap string string) :
  exists hubspot unipile cargo : gmap string string,
    credentials_table prefix env =
      ((prefix +:+ "-wos-credentials")%string,
       ["service"; "api_key"; "account_id"; "dns"; "extra_1"; "extra_2"]%string,
       [hubspot; unipile; cargo])
    /\ (hubspot !! "service" = Some "hubspot"%string
        /\ hubspot !! "api_key" = Some (default ""%string (env !! "HUBSPOT_TOKEN"))
        /\ hubspot !! "account_id" = Some ""%string
        /\ hubspot !! "dns" = Some ""%string
        /\ hubspot !! "extra_1" = Some ""%string
        /\ hubspot !! "extra_2" = Some ""%string)
    /\ (unipile !! "service" = Some "unipile"%string
        /\ unipile !! "api_key" = Some (default ""%string (env !! "UNIPILE_API_KEY"))
        /\ unipile !! "account_id" = Some (default ""%string (env !! "UNIPILE_ACCOUNT_ID"))
        /\ unipile !! "dns" = Some (default ""%string (env !! "UNIPILE_DNS"))
        /\ unipile !! "extra_1" = Some ""%string
        /\ unipile !! "extra_2" = Some ""%string)
    /\ (cargo !! "service" = Some "cargo"%string
        /\ cargo !! "api_key" = Some (default ""%string (env !! "CARGO_API_KEY"))
        /\ cargo !! "account_id" = Some ""%string
        /\ cargo !! "dns" = Some ""%string
        /\ cargo !! "extra_1" = Some ""%string
        /\ cargo !! "extra_2" = Some ""%string)
    /\ Forall (fun row : gmap string string =>
                 dom row = list_to_set
                   ["service"; "api_key"; "account_id"; "dns"; "extra_1"; "extra_2"]%string)
         [hubspot; unipile; cargo].
Proof.
  unfold credentials_table. do 3 eexists. split; [reflexivity|].
  unfold get_default.
  destruct (env !! "HUBSPOT_TOKEN"), (env !! "UNIPILE_API_KEY"),
    (env !! "UNIPILE_ACCOUNT_ID"), (env !! "UNIPILE_DNS"), (env !! "CARGO_API_KEY");
    cbn [default];
    (repeat split; [..| repeat constructor]; vm_compute; reflexivity).
Qed.

(** C10. When the clock is at least a week before [date.max]:
    if every persona has the keys title_keywords and location, then
    [personas_table] raises nothing and returns one row per persona, in the
    order of the input, with language "en" and network_distance "S" where
    the persona has none; if every operator has the keys name and
    hubspot_owner_id, the same holds of [user_counters_table]; and when an
    element lacks one of its mandatory keys, the lookup fails with a
    [KeyError] for such a key. *)
Theorem tables_total_on_validated_input
    (prefix : string) (personas operators : list (gmap string string))
    (today : date) :
  valid_date today -> toordinal today + 7 <= MAXORDINAL ->
  (Forall (fun p => is_Some (p !! "title_keywords") /\ is_Some (p !! "location"))
     personas ->
   exists rows,
     personas_table prefix personas =
       Ok ((prefix +:+ "-wos-personas")%string,
           ["title_keywords"; "language"; "network_distance"; "location";
            "extra_1"; "extra_2"]%string, rows)
     /\ Forall2 persona_row_of personas rows)
  /\ (Forall (fun op => is_Some (op !! "name") /\ is_Some (op !! "hubspot_owner_id"))
       operators ->
      exists nm tm rows,
        next_monday today = Ok nm /\ tomorrow today = Ok tm
        /\ user_counters_table prefix operators today =
             Ok ((prefix +:+ "-wos-user_counters")%string,
                 ["user_name"; "hubspot_owner_id"; "weekly_count"; "daily_count";
                  "weekly_remaining"; "daily_remaining"; "weekly_reset_date";
                  "daily_reset_date"; "invite_safe_date"; "extra_1"; "extra_2";
                  "extra_3"]%string, rows)
        /\ Forall2 (counter_row_of nm tm) operators rows)
  /\ (Exists (fun p => p !! "title_keywords" = None \/ p !! "location" = None)
       personas ->
      exists k, personas_table prefix personas = Raise (KeyError k)
                /\ (k = "title_keywords"%string \/ k = "location"%string))
  /\ (Exists (fun op => op !! "name" = None \/ op !! "hubspot_owner_id" = None)
       operators ->
      exists k, user_counters_table prefix operators today = Raise (KeyError k)
                /\ (k = "name"%string \/ k = "hubspot_owner_id"%string)).
Proof.
  intros Hv Hmax. repeat split.
  - intros Hps.
    destruct (append_rows_ok persona_row_of persona_row personas)
      with (rows := @nil (gmap string string)) as (rows & Hrun & Hrows).
    { eapply Forall_impl; [exact Hps|]. intros p [H1 H2]. now apply persona_row_ok. }
    exists rows. unfold personas_table. rewrite Hrun. cbn. auto.
  - intros Hops.
    destruct (user_counters_table_ok prefix operators today Hv Hmax Hops)
      as (monday & tmrw & rows & Hnm & Htm & Hrun & Hrows).
    exists (isoformat monday), (isoformat tmrw), rows. auto.
  - intros Hex.
    destruct (append_rows_raise
                (fun e => e = KeyError "title_keywords" \/ e = KeyError "location")
                persona_row personas persona_row_raise) with (rows := @nil (gmap string string))
      as (e & Hrun & He).
    { eapply Exists_impl; [exact Hex|]. intros p Hp. now apply persona_row_missing. }
    unfold personas_table. rewrite Hrun. cbn.
    destruct He as [-> | ->]; eexists; split; eauto.
  - intros Hex.
    destruct (next_monday_ok today Hv Hmax) as (monday & Hnm & _).
    destruct (tomorrow_ok today Hv ltac:(lia)) as (tmrw & Htm & _).
    destruct (append_rows_raise
                (fun e => e = KeyError "name" \/ e = KeyError "hubspot_owner_id")
                (counter_row (isoformat monday) (isoformat tmrw)) operators
                (counter_row_raise _ _)) with (rows := @nil (gmap string string))
      as (e & Hrun & He).
    { eapply Exists_impl; [exact Hex|]. intros p Hp. now apply counter_row_missing. }
    unfold user_counters_table. rewrite Hnm, Htm. cbn [rbind]. rewrite Hrun. cbn.
    destruct He as [-> | ->]; eexists; split; eauto.
Qed.

Lemma tables_total_on_validated_input_witness :
  valid_date wednesday
  /\ toordinal wednesday + 7 <= MAXORDINAL
  /\ (exists rows,
        personas_table "ACM"
          [ {[ "title_keywords" := "CTO"; "location" := "United States" ]} ]
        = Ok ("ACM-wos-personas"%string,
              ["title_keywords"; "language"; "network_distance"; "location";
               "extra_1"; "extra_2"]%string, rows)
        /\ Forall2 persona_row_of
             [ {[ "title_keywords" := "CTO"; "location" := "United States" ]} ]
             rows)
  /\ (exists k,
        personas_table "ACM" [ {[ "title_keywords" := "CTO" ]} ] = Raise (KeyError k)
        /\ (k = "title_keywords"%string \/ k = "location"%string)).
Proof.
  assert (Hv : valid_date wednesday) by (vm_compute; intuition discriminate).
  assert (Hmax : toordinal wednesday + 7 <= MAXORDINAL) by (vm_compute; discriminate).
  split; [exact Hv|]. split; [exact Hmax|]. split.
  - refine (proj1 (tables_total_on_validated_input "ACM"
                     [ {[ "title_keywords" := "CTO"; "location" := "United States" ]} ]
                     [] wednesday Hv Hmax) _).
    repeat constructor; vm_compute; eauto.
  - refine (proj1 (proj2 (proj2 (tables_total_on_validated_input "ACM"
                     [ {[ "title_keywords" := "CTO" ]} ] [] wednesday Hv Hmax))) _).
    constructor. right. vm_compute. reflexivity.
Defined.

End TableClaims.

(** ** The validators of generate_client_config.py *)

Module ConfigFacts.
Import Py GenerateClientConfig ConfigSpec.

(** *** [re.fullmatch] on a bounded repetition of a character class *)

Lemma fullmatch_void s : fullmatch ReVoid s = false.
Proof. induction s; cbn; auto. Qed.

Lemma fullmatch_cat_void r s : fullmatch (ReCat ReVoid r) s = false.
Proof. induction s; cbn; auto. Qed.

Lemma fullmatch_alt r1 r2 s :
  fullmatch (ReAlt r1 r2) s = fullmatch r1 s || fullmatch r2 s.
Proof. revert r1 r2. induction s; intros; cbn; auto. Qed.

Lemma fullmatch_cat_eps r s : fullmatch (ReCat ReEps r) s = fullmatch r s.
Proof.
  destruct s; cbn; [reflexivity|].
  now rewrite fullmatch_alt, fullmatch_cat_void.
Qed.

Lemma fullmatch_rep_range lo hi s :
  forall m n,
    fullmatch (ReRep (ReRange lo hi) m n) s
    = (m <=? String.length s)%nat && (String.length s <=? n)%nat
      && all_chars (in_range lo hi) s.
Proof.
  induction s as [|c s IH]; intros m n.
  - cbn. destruct m; cbn; reflexivity.
  - destruct n as [|n].
    + cbn. rewrite fullmatch_void. now rewrite andb_false_r.
    + cbn [fullmatch deriv nullable all_chars String.length].
      destruct (in_range lo hi c).
      * rewrite fullmatch_cat_eps, IH. cbn [andb].
        destruct m; cbn; reflexivity.
      * rewrite fullmatch_cat_void. cbn. now rewrite andb_false_r.
Qed.

Lemma fullmatch_prefix_re s :
  fullmatch PREFIX_RE s = true <-> two_to_four_uppercase s.
Proof.
  unfold PREFIX_RE, two_to_four_uppercase. rewrite fullmatch_rep_range.
  rewrite !andb_true_iff, !Nat.leb_le.
  change (in_range "A" "Z") with uppercase_ascii_letter. tauto.
Qed.

Lemma validate_prefix_nil s :
  validate_prefix s = [] <-> two_to_four_uppercase s.
Proof.
  rewrite <- fullmatch_prefix_re. unfold validate_prefix.
  destruct (fullmatch PREFIX_RE s); cbn; split; congruence.
Qed.

(** *** [validate_config] as the list of the violations *)

Lemma truthy_false o : truthy o = false <-> absent_or_empty o.
Proof.
  unfold absent_or_empty. destruct o as [[|a s]|]; cbn; split;
    try tauto; try congruence; intros [H|H]; congruence.
Qed.

Lemma in_enumerate_from {A} (l : list A) :
  forall s i x,
    In (i, x) (combine (seq s (length l)) l) <-> s <= i /\ l !! (i - s) = Some x.
Proof.
  induction l as [|y l IH]; intros s i x; cbn [length seq combine In].
  - split; [tauto | intros [_ H]; discriminate].
  - rewrite IH. split.
    + intros [[= <- <-] | [Hle Hl]].
      * split; [lia|]. now replace (s - s) with 0 by lia.
      * split; [lia|]. now replace (i - s) with (S (i - S s)) by lia.
    + intros [Hle Hl]. destruct (decide (i = s)) as [->|Hne].
      * left. replace (s - s) with 0 in Hl by lia. cbn in Hl. congruence.
      * right. split; [lia|].
        replace (i - s) with (S (i - S s)) in Hl by lia. exact Hl.
Qed.

Lemma in_enumerate {A} (l : list A) i x :
  In (i, x) (enumerate l) <-> l !! i = Some x.
Proof.
  unfold enumerate. rewrite in_enumerate_from.
  replace (i - 0) with i by lia. split; [tauto | split; [lia | assumption]].
Qed.

Lemma check_operator_app acc iop :
  check_operator acc iop = acc ++ map message (operator_violations iop).
Proof.
  destruct iop as [i op]. unfold check_operator, operator_violations, get_default.
  destruct (truthy (op !! "name")); cbn [negb];
    destruct (op !! "hubspot_owner_id") as [[|a s]|]; cbn [truthy negb];
    try destruct (isdigit (String a s)); cbn [negb app map message];
    rewrite <- ?app_assoc, ?app_nil_r; reflexivity.
Qed.

Lemma check_persona_app acc ip :
  check_persona acc ip = acc ++ map message (persona_violations ip).
Proof.
  destruct ip as [i p]. unfold check_persona, persona_violations.
  destruct (truthy (p !! "title_keywords")), (truthy (p !! "location"));
    cbn [negb app map message]; rewrite <- ?app_assoc, ?app_nil_r; reflexivity.
Qed.

Lemma fold_check_operator l :
  forall acc,
    fold_left check_operator l acc
    = acc ++ map message (flat_map operator_violations l).
Proof.
  induction l as [|iop l IH]; intros acc; cbn [fold_left flat_map].
  - cbn. now rewrite app_nil_r.
  - now rewrite IH, check_operator_app, map_app, app_assoc.
Qed.

Lemma fold_check_persona l :
  forall acc,
    fold_left check_persona l acc
    = acc ++ map message (flat_map persona_violations l).
Proof.
  induction l as [|ip l IH]; intros acc; cbn [fold_left flat_map].
  - cbn. now rewrite app_nil_r.
  - now rewrite IH, check_persona_app, map_app, app_assoc.
Qed.

(** The errors are the messages of the violations, in the order of the
    rules: no rule is skipped because an earlier one failed. *)
Lemma validate_config_messages c :
  validate_config c = map message (violations c).
Proof.
  unfold validate_config, violations.
  rewrite fold_check_persona, fold_check_operator.
  fold (operators_of c). fold (personas_of c).
  cbn [fold_left]. unfold config_get. cbn [String.eqb Ascii.eqb Bool.eqb].
  rewrite !map_app.
  destruct (company_name c) as [[|? ?]|], (prefix c) as [[|pa ps]|];
    cbn [truthy negb app map message];
    try (unfold validate_prefix; destruct (fullmatch PREFIX_RE (String pa ps)));
    destruct (operators_of c), (personas_of c);
    cbn [truthy negb app map message];
    rewrite <- ?app_assoc, ?app_nil_r; reflexivity.
Qed.

(** [H] says that [v] is in a list of at most one element. *)
Ltac pick H := first [ solve [destruct H] | destruct H as [<-|[]] ].

Lemma in_operator_violations i op v :
  In v (operator_violations (i, op)) <->
  (v = OperatorName i /\ absent_or_empty (op !! "name"))
  \/ (v = OperatorOwnerMissing i /\ absent_or_empty (op !! "hubspot_owner_id"))
  \/ (exists owner_id,
        v = OperatorOwnerNumeric i owner_id
        /\ op !! "hubspot_owner_id" = Some owner_id
        /\ owner_id <> "" /\ isdigit owner_id = false).
Proof.
  unfold operator_violations. rewrite in_app_iff. split.
  - intros [H|H].
    + destruct (truthy (op !! "name")) eqn:T; pick H.
      left. split; [reflexivity | now apply truthy_false].
    + destruct (op !! "hubspot_owner_id") as [[|a s]|] eqn:O.
      * pick H. right; left. split; [reflexivity | now right].
      * destruct (isdigit (String a s)) eqn:D; pick H.
        right; right. exists (String a s). repeat split; auto; discriminate.
      * pick H. right; left. split; [reflexivity | now left].
  - intros [[-> H]|[[-> H]|(o & -> & Ho & Hne & Hd)]].
    + left. apply truthy_false in H. rewrite H. now left.
    + right. destruct H as [H|H]; rewrite H; now left.
    + right. rewrite Ho. destruct o as [|a s]; [congruence|].
      rewrite Hd. now left.
Qed.

Lemma in_persona_violations i p v :
  In v (persona_violations (i, p)) <->
  (v = PersonaTitle i /\ absent_or_empty (p !! "title_keywords"))
  \/ (v = PersonaLocation i /\ absent_or_empty (p !! "location")).
Proof.
  unfold persona_violations. rewrite in_app_iff. split.
  - intros [H|H].
    + destruct (truthy (p !! "title_keywords")) eqn:T; pick H.
      left. split; [reflexivity | now apply truthy_false].
    + destruct (truthy (p !! "location")) eqn:T; pick H.
      right. split; [reflexivity | now apply truthy_false].
  - intros [[-> H]|[-> H]]; apply truthy_false in H; rewrite H; [left|right];
      now left.
Qed.

(** The list [violations] holds exactly the rules that the config breaks. *)
Lemma in_violations c v : In v (violations c) <-> violated c v.
Proof.
  unfold violations. rewrite !in_app_iff, !in_flat_map.
  pose proof (truthy_false (company_name c)) as HC.
  pose proof (truthy_false (prefix c)) as HP.
  split.
  - intros [H|[H|[H|[H|[H|[H|H]]]]]].
    + destruct (truthy (company_name c)); pick H.
      cbn. left. split; [reflexivity | now apply HC].
    + destruct (truthy (prefix c)); pick H.
      cbn. right. split; [reflexivity | now apply HP].
    + destruct (prefix c) as [[|a s]|] eqn:E; try solve [destruct H].
      destruct (fullmatch PREFIX_RE (String a s)) eqn:F; pick H.
      cbn. split; [exact E|]. split; [discriminate|].
      rewrite <- fullmatch_prefix_re. congruence.
    + destruct (operators_of c) eqn:E; pick H. exact E.
    + destruct H as ([i op] & Hin & Hv). apply in_enumerate in Hin.
      apply in_operator_violations in Hv as [[-> H]|[[-> H]|(o & -> & H)]];
        cbn; eauto.
    + destruct (personas_of c) eqn:E; pick H. exact E.
    + destruct H as ([i p] & Hin & Hv). apply in_enumerate in Hin.
      apply in_persona_violations in Hv as [[-> H]|[-> H]]; cbn; eauto.
  - destruct v; cbn [violated].
    + intros [[-> H]|[-> H]].
      * left. apply HC in H. rewrite H. now left.
      * right; left. apply HP in H. rewrite H. now left.
    + intros (E & Hne & Hshape). right; right; left. rewrite E.
      destruct p as [|a s]; [congruence|].
      destruct (fullmatch PREFIX_RE (String a s)) eqn:F; [|now left].
      apply fullmatch_prefix_re in F. contradiction.
    + intros E. do 3 right. left. rewrite E. now left.
    + intros (op & Hop & H). do 4 right. left. exists (i, op).
      rewrite in_enumerate, in_operator_violations. auto.
    + intros (op & Hop & H). do 4 right. left. exists (i, op).
      rewrite in_enumerate, in_operator_violations. auto.
    + intros (op & Hop & H). do 4 right. left. exists (i, op).
      rewrite in_enumerate, in_operator_violations. split; [exact Hop|].
      right; right. eauto.
    + intros E. do 5 right. left. rewrite E. now left.
    + intros (p & Hp & H). do 6 right. exists (i, p).
      rewrite in_enumerate, in_persona_violations. auto.
    + intros (p & Hp & H). do 6 right. exists (i, p).
      rewrite in_enumerate, in_persona_violations. auto.
Qed.


(** *** Every violation is listed once *)

Lemma flat_map_position {A} (f : nat * A -> list violation) (l : list A) s v :
  (forall i x w, In w (f (i, x)) -> position w = Some i) ->
  In v (flat_map f (combine (seq s (length l)) l)) ->
  exists i, position v = Some i /\ s <= i.
Proof.
  intros Hpos Hin. apply in_flat_map in Hin as ([i x] & Hix & Hv).
  apply in_enumerate_from in Hix as [Hle _]. eauto.
Qed.

Lemma NoDup_flat_map_from {A} (f : nat * A -> list violation) (l : list A) :
  (forall i x, NoDup (f (i, x))) ->
  (forall i x w, In w (f (i, x)) -> position w = Some i) ->
  forall s, NoDup (flat_map f (combine (seq s (length l)) l)).
Proof.
  intros Hnd Hpos. induction l as [|x l IH]; intros s; cbn.
  - constructor.
  - apply NoDup_app. split; [apply Hnd|]. split; [|apply IH].
    intros v Hv Hin. apply list_elem_of_In in Hv, Hin.
    apply Hpos in Hv.
    apply flat_map_position in Hin as (i & Hi & Hle); [|exact Hpos].
    rewrite Hv in Hi. injection Hi as <-. lia.
Qed.

Lemma operator_violations_position i op w :
  In w (operator_violations (i, op)) -> position w = Some i.
Proof.
  rewrite in_operator_violations.
  intros [[-> _]|[[-> _]|(o & -> & _)]]; reflexivity.
Qed.

Lemma persona_violations_position i p w :
  In w (persona_violations (i, p)) -> position w = Some i.
Proof.
  rewrite in_persona_violations. intros [[-> _]|[-> _]]; reflexivity.
Qed.

Lemma NoDup_two (v w : violation) : v <> w -> NoDup [v; w].
Proof.
  intros Hne. apply NoDup_cons. split.
  - rewrite list_elem_of_In. intros [H|[]]. congruence.
  - apply NoDup_singleton.
Qed.

Lemma operator_violations_nodup iop : NoDup (operator_violations iop).
Proof.
  destruct iop as [i op]. unfold operator_violations.
  destruct (truthy (op !! "name"));
    destruct (op !! "hubspot_owner_id") as [[|a s]|];
    try destruct (isdigit (String a s)); cbn [app];
    first [ apply NoDup_nil_2 | apply NoDup_singleton
          | apply NoDup_two; discriminate ].
Qed.

Lemma persona_violations_nodup ip : NoDup (persona_violations ip).
Proof.
  destruct ip as [i p]. unfold persona_violations.
  destruct (truthy (p !! "title_keywords")), (truthy (p !! "location"));
    cbn [app];
    first [ apply NoDup_nil_2 | apply NoDup_singleton
          | apply NoDup_two; discriminate ].
Qed.

Lemma NoDup_app_rule (l k : list violation) n :
  NoDup l -> Forall (fun v => rule_number v = n) l ->
  NoDup k -> Forall (fun v => n < rule_number v) k ->
  NoDup (l ++ k).
Proof.
  intros Hl Hln Hk Hkn. apply NoDup_app. split; [exact Hl|]. split; [|exact Hk].
  intros v Hv Hin.
  rewrite Forall_forall in Hln, Hkn.
  specialize (Hln v Hv). specialize (Hkn v Hin). lia.
Qed.

Lemma violations_nodup c : NoDup (violations c).
Proof.
  unfold violations.
  set (A := if truthy (company_name c) then [] else [MissingField "company_name"]).
  set (B := if truthy (prefix c) then [] else [MissingField "prefix"]).
  set (C := match prefix c with
            | Some (String a s) =>
                if fullmatch PREFIX_RE (String a s) then []
                else [PrefixShape (String a s)]
            | _ => []
            end).
  set (D := match operators_of c with [] => [NoOperator] | _ => [] end).
  set (E := flat_map operator_violations (enumerate (operators_of c))).
  set (F := match personas_of c with [] => [NoPersona] | _ => [] end).
  set (G := flat_map persona_violations (enumerate (personas_of c))).
  assert (HA : NoDup A /\ Forall (fun v => rule_number v = 0) A).
  { subst A. destruct (truthy (company_name c)); (split; [first [apply NoDup_nil_2 | apply NoDup_singleton] | repeat constructor]). }
  assert (HB : NoDup B /\ Forall (fun v => rule_number v = 1) B).
  { subst B. destruct (truthy (prefix c)); (split; [first [apply NoDup_nil_2 | apply NoDup_singleton] | repeat constructor]). }
  assert (HC : NoDup C /\ Forall (fun v => rule_number v = 2) C).
  { subst C. destruct (prefix c) as [[|a s]|];
      try destruct (fullmatch PREFIX_RE (String a s));
      (split; [first [apply NoDup_nil_2 | apply NoDup_singleton] | repeat constructor]). }
  assert (HD : NoDup D /\ Forall (fun v => rule_number v = 3) D).
  { subst D. destruct (operators_of c); (split; [first [apply NoDup_nil_2 | apply NoDup_singleton] | repeat constructor]). }
  assert (HE : NoDup E /\ Forall (fun v => rule_number v = 4) E).
  { subst E. split.
    - apply NoDup_flat_map_from.
      + intros i x. apply operator_violations_nodup.
      + apply operator_violations_position.
    - apply Forall_forall. intros v Hv. apply list_elem_of_In in Hv.
      apply in_flat_map in Hv as ([i op] & _ & Hv).
      apply in_operator_violations in Hv as [[-> _]|[[-> _]|(o & -> & _)]];
        reflexivity. }
  assert (HF : NoDup F /\ Forall (fun v => rule_number v = 5) F).
  { subst F. destruct (personas_of c); (split; [first [apply NoDup_nil_2 | apply NoDup_singleton] | repeat constructor]). }
  assert (HG : NoDup G /\ Forall (fun v => rule_number v = 6) G).
  { subst G. split.
    - apply NoDup_flat_map_from.
      + intros i x. apply persona_violations_nodup.
      + apply persona_violations_position.
    - apply Forall_forall. intros v Hv. apply list_elem_of_In in Hv.
      apply in_flat_map in Hv as ([i p] & _ & Hv).
      apply in_persona_violations in Hv as [[-> _]|[-> _]]; reflexivity. }
  destruct HA as [NA RA], HB as [NB RB], HC as [NC RC], HD as [ND RD],
    HE as [NE RE], HF as [NF RF], HG as [NG RG].
  assert (lift : forall n m (l : list violation),
             n < m -> Forall (fun v => rule_number v = m) l ->
             Forall (fun v => n < rule_number v) l).
  { intros n m l Hnm H. eapply Forall_impl; [exact H|].
    intros v Hv. cbn in Hv. rewrite Hv. exact Hnm. }
  assert (later : forall n (l k : list violation),
             Forall (fun v => n < rule_number v) l ->
             Forall (fun v => n < rule_number v) k ->
             Forall (fun v => n < rule_number v) (l ++ k)).
  { intros n l k Hl Hk. apply Forall_app. auto. }
  apply (NoDup_app_rule A _ 0 NA RA);
    [|repeat apply later; eapply lift; try eassumption; lia].
  apply (NoDup_app_rule B _ 1 NB RB);
    [|repeat apply later; eapply lift; try eassumption; lia].
  apply (NoDup_app_rule C _ 2 NC RC);
    [|repeat apply later; eapply lift; try eassumption; lia].
  apply (NoDup_app_rule D _ 3 ND RD);
    [|repeat apply later; eapply lift; try eassumption; lia].
  apply (NoDup_app_rule E _ 4 NE RE);
    [|repeat apply later; eapply lift; try eassumption; lia].
  apply (NoDup_app_rule F _ 5 NF RF);
    [|repeat apply later; eapply lift; try eassumption; lia].
  exact NG.
Qed.

(** *** Telling the messages apart *)

Lemma pretty_N_go_digits x :
  forall s, all_chars decimal_digit s = true ->
            all_chars decimal_digit (pretty_N_go x s) = true.
Proof.
  induction (N.lt_wf_0 x) as [x _ IH]; intros s Hs.
  destruct (decide (x = 0)%N) as [->|Hx].
  - now rewrite pretty_N_go_0.
  - rewrite pretty_N_go_step by lia. apply IH.
    + apply N.div_lt; lia.
    + cbn [all_chars]. rewrite Hs, andb_true_r.
      unfold pretty_N_char. repeat case_match; reflexivity.
Qed.

Lemma str_nat_digits n : all_chars decimal_digit (str_nat n) = true.
Proof.
  unfold str_nat, pretty, pretty_nat, pretty, pretty_N.
  case_decide; [reflexivity | now apply pretty_N_go_digits].
Qed.

Lemma prefix_cons_eq a s t :
  String.prefix (String a s) (String a t) = String.prefix s t.
Proof. cbn. destruct (ascii_dec a a); congruence. Qed.

Lemma prefix_cons_ne a b s t :
  a <> b -> String.prefix (String a s) (String b t) = false.
Proof. intros H. cbn. destruct (ascii_dec a b); congruence. Qed.

Lemma append_cons c s t : String c s +:+ t = String c (s +:+ t).
Proof. reflexivity. Qed.

Lemma append_nil t : "" +:+ t = t.
Proof. reflexivity. Qed.

Lemma append_assoc s t u : (s +:+ t) +:+ u = s +:+ t +:+ u.
Proof. induction s as [|c s IH]; rewrite ?append_nil, ?append_cons; congruence. Qed.

Lemma prefix_app_same a r : String.prefix a (a +:+ r) = true.
Proof.
  induction a as [|c a IH]; rewrite ?append_nil, ?append_cons.
  - now destruct r.
  - now rewrite prefix_cons_eq.
Qed.

Lemma digits_colon_prefix x :
  forall y r r',
    all_chars decimal_digit x = true -> all_chars decimal_digit y = true ->
    String.prefix (x +:+ String ":" r) (y +:+ String ":" r') = true ->
    x = y.
Proof.
  induction x as [|a x IH]; intros [|b y] r r' Hx Hy;
    rewrite ?append_nil, ?append_cons; cbn [all_chars] in *.
  - reflexivity.
  - apply andb_true_iff in Hy as [Hb _].
    destruct (ascii_dec ":" b) as [<-|Hne]; [discriminate Hb|].
    rewrite prefix_cons_ne by exact Hne. discriminate.
  - apply andb_true_iff in Hx as [Ha _].
    destruct (ascii_dec a ":") as [->|Hne]; [discriminate Ha|].
    rewrite prefix_cons_ne by exact Hne. discriminate.
  - apply andb_true_iff in Hx as [_ Hx]. apply andb_true_iff in Hy as [_ Hy].
    destruct (ascii_dec a b) as [<-|Hne].
    + rewrite prefix_cons_eq. intros H. f_equal. eapply IH; eassumption.
    + rewrite prefix_cons_ne by exact Hne. discriminate.
Qed.

Lemma about_operator_own i rest :
  about_operator i ("Operator " +:+ str_nat (i + 1) +:+ ": " +:+ rest).
Proof.
  unfold about_operator.
  replace ("Operator " +:+ str_nat (i + 1) +:+ ": " +:+ rest)
    with (("Operator " +:+ str_nat (i + 1) +:+ ": ") +:+ rest).
  - apply prefix_app_same.
  - now rewrite !append_assoc.
Qed.

Lemma about_operator_message i v :
  about_operator i (message v) ->
  v = OperatorName i \/ v = OperatorOwnerMissing i
  \/ exists owner_id, v = OperatorOwnerNumeric i owner_id.
Proof.
  unfold about_operator.
  assert (same : forall j r,
             String.prefix ("Operator " +:+ str_nat (i + 1) +:+ ": ")
               ("Operator " +:+ str_nat (j + 1) +:+ String ":" r) = true -> j = i).
  { intros j r. rewrite !append_cons, !append_nil, !prefix_cons_eq. intros H.
    apply digits_colon_prefix in H; [|apply str_nat_digits..].
    apply (inj (pretty : nat -> string)) in H. lia. }
  destruct v; cbn [message]; rewrite ?append_cons, ?append_nil;
    try (rewrite prefix_cons_ne by discriminate; discriminate).
  - intros H. apply same in H as ->. auto.
  - intros H. apply same in H as ->. auto.
  - intros H. apply same in H as ->. eauto.
Qed.

Lemma isdigit_char_of_decimal c : decimal_digit c = true -> isdigit_char c = true.
Proof.
  unfold decimal_digit, isdigit_char. intros ->. reflexivity.
Qed.

Lemma all_decimal_isdigit s :
  s <> "" -> all_chars decimal_digit s = true -> isdigit s = true.
Proof.
  intros Hne H. destruct s as [|a s]; [congruence|]. unfold isdigit.
  revert H. generalize (String a s). clear. intros s.
  induction s as [|c s IH]; cbn [all_chars]; [reflexivity|].
  rewrite !andb_true_iff. intros [Hc Hs]. auto using isdigit_char_of_decimal.
Qed.

Lemma isdigit_false s :
  s <> "" -> (isdigit s = false <-> all_chars isdigit_char s = false).
Proof. intros Hne. destruct s; [congruence | reflexivity]. Qed.

(** What an error about operator [i] says about the operator. *)
Lemma operator_message_cases c i op msg :
  operators_of c !! i = Some op ->
  In msg (validate_config c) -> about_operator i msg ->
  (msg = message (OperatorName i) /\ absent_or_empty (op !! "name"))
  \/ (msg = message (OperatorOwnerMissing i)
      /\ absent_or_empty (op !! "hubspot_owner_id"))
  \/ (exists owner_id,
        msg = message (OperatorOwnerNumeric i owner_id)
        /\ op !! "hubspot_owner_id" = Some owner_id
        /\ owner_id <> "" /\ isdigit owner_id = false).
Proof.
  intros Hop Hin Habout. rewrite validate_config_messages in Hin.
  apply in_map_iff in Hin as (v & <- & Hv). apply in_violations in Hv.
  apply about_operator_message in Habout as [->|[->|(o & ->)]];
    cbn [violated] in Hv; destruct Hv as (op' & Hop' & Hv);
    rewrite Hop in Hop'; injection Hop' as <-; eauto 10.
Qed.

Lemma violated_reported c v : violated c v -> In (message v) (validate_config c).
Proof.
  intros H. rewrite validate_config_messages. apply in_map.
  now apply in_violations.
Qed.

(** The owner ids that the spec gives as examples. *)
Lemma owner_id_examples :
  validate_config (acme_with_owner_id "1234567") = []
  /\ validate_config (acme_with_owner_id "12a")
     = ["Operator 1: hubspot_owner_id must be numeric, got: '12a'"]
  /\ validate_config (acme_with_owner_id EmptyString)
     = ["Operator 1: missing hubspot_owner_id"].
Proof. repeat split; vm_compute; reflexivity. Qed.

(** *** [str.upper] *)

Lemma upper_char_idem c : upper (upper_char c) = upper_char c.
Proof. destruct c as [[] [] [] [] [] [] [] []]; vm_compute; reflexivity. Qed.

Lemma upper_char_nonempty c : upper_char c <> "".
Proof. destruct c as [[] [] [] [] [] [] [] []]; vm_compute; discriminate. Qed.

Lemma upper_app s t : upper (s +:+ t) = upper s +:+ upper t.
Proof.
  induction s as [|c s IH]; rewrite ?append_nil, ?append_cons; cbn [upper].
  - reflexivity.
  - now rewrite IH, append_assoc.
Qed.

Lemma upper_idem s : upper (upper s) = upper s.
Proof.
  induction s as [|c s IH]; cbn [upper]; [reflexivity|].
  now rewrite upper_app, upper_char_idem, IH.
Qed.

Lemma truthy_upper s : truthy (Some (upper s)) = truthy (Some s).
Proof.
  destruct s as [|c s]; [reflexivity|]. cbn [upper truthy].
  pose proof (upper_char_nonempty c) as H.
  destruct (upper_char c) as [|a u]; [congruence|].
  now rewrite append_cons.
Qed.

End ConfigFacts.

Section PrefixClaims.
Import Py GenerateClientConfig ConfigSpec ConfigFacts.

(** C4. For every string [s], [validate_prefix s] is the empty list when
    [s] consists of 2 to 4 uppercase ASCII letters (the strings that
    ^[A-Z]{2,4}$ describes) and a non-empty list otherwise; "AC" and "ACME"
    are accepted, "ac", "A", "ACMEX" and "AC1" are rejected. *)
Theorem validate_prefix_accepts_two_to_four_uppercase :
  (forall s, two_to_four_uppercase s -> validate_prefix s = [])
  /\ (forall s, ~ two_to_four_uppercase s -> validate_prefix s <> [])
  /\ validate_prefix "AC" = [] /\ validate_prefix "ACME" = []
  /\ validate_prefix "ac" <> [] /\ validate_prefix "A" <> []
  /\ validate_prefix "ACMEX" <> [] /\ validate_prefix "AC1" <> [].
Proof.
  split; [|split].
  - intros s H. now apply validate_prefix_nil.
  - intros s H C. now apply H, validate_prefix_nil.
  - repeat split; try reflexivity; vm_compute; discriminate.
Qed.

Lemma validate_prefix_accepts_witness :
  two_to_four_uppercase "ACM" /\ validate_prefix "ACM" = [].
Proof.
  assert (H : two_to_four_uppercase "ACM")
    by (split; [cbn; lia | reflexivity]).
  split; [exact H|].
  exact (proj1 validate_prefix_accepts_two_to_four_uppercase "ACM" H).
Defined.

End PrefixClaims.

(** ** Claims about generate_client_config.py *)

Section ConfigClaims.
Import Py GenerateClientConfig ConfigSpec ConfigFacts.

(** C5, as stated, fails: the owner id that is the single character
    U+00B2 (superscript two) holds a character that is not a decimal digit,
    and [str.isdigit] accepts it, so the validator reports nothing. *)
Lemma owner_id_superscript_two_not_rejected :
  operators_of (acme_with_owner_id superscript_two) !! 0
  = Some (<["hubspot_owner_id" := superscript_two]> dana)
  /\ all_chars decimal_digit superscript_two = false
  /\ validate_config (acme_with_owner_id superscript_two) = []
  /\ ~ owner_id_rule_as_stated (acme_with_owner_id superscript_two) 0
         (<["hubspot_owner_id" := superscript_two]> dana).
Proof.
  assert (Hrun : validate_config (acme_with_owner_id superscript_two) = [])
    by (vm_compute; reflexivity).
  split; [reflexivity|]. split; [reflexivity|]. split; [exact Hrun|].
  unfold owner_id_rule_as_stated. rewrite Hrun. intros [_ H].
  destruct H as (msg & [] & _).
  right; right. exists superscript_two. split; vm_compute; reflexivity.
Qed.

(** C5, amended. For every config and every operator in it,
    [validate_config] reports an error about that operator if and only if
    its name is absent or empty, or its hubspot_owner_id is absent or
    empty, or its hubspot_owner_id holds a character that [str.isdigit]
    rejects (on U+0000..U+00FF: any character other than 0-9 and the
    superscript digits); for an id made of decimal digits 0-9 only, such
    as "1234567", the only error there can be about the operator is the one
    about its name. *)
Theorem operator_error_iff_not_isdigit
    (c : Config) (i : nat) (op : gmap string string) :
  operators_of c !! i = Some op ->
  ((exists msg, In msg (validate_config c) /\ about_operator i msg)
   <-> (absent_or_empty (op !! "name")
        \/ absent_or_empty (op !! "hubspot_owner_id")
        \/ exists owner_id, op !! "hubspot_owner_id" = Some owner_id
                            /\ all_chars isdigit_char owner_id = false))
  /\ (forall owner_id,
        op !! "hubspot_owner_id" = Some owner_id -> owner_id <> "" ->
        all_chars decimal_digit owner_id = true ->
        forall msg, In msg (validate_config c) -> about_operator i msg ->
                    msg = message (OperatorName i)).
Proof.
  intros Hop. split; [split|].
  - intros (msg & Hin & Habout).
    destruct (operator_message_cases c i op msg Hop Hin Habout)
      as [[_ H]|[[_ H]|(o & _ & Ho & Hne & Hd)]]; auto.
    right; right. exists o. split; [exact Ho|]. now apply isdigit_false.
  - intros [H|[H|(o & Ho & Hd)]].
    + exists (message (OperatorName i)). split.
      * apply violated_reported. cbn. eauto.
      * exact (about_operator_own i "missing name").
    + exists (message (OperatorOwnerMissing i)). split.
      * apply violated_reported. cbn. eauto.
      * exact (about_operator_own i "missing hubspot_owner_id").
    + assert (Hne : o <> "") by (intros ->; discriminate Hd).
      exists (message (OperatorOwnerNumeric i o)). split.
      * apply violated_reported. cbn. exists op.
        repeat split; auto. now apply isdigit_false.
      * exact (about_operator_own i
                 ("hubspot_owner_id must be numeric, got: '" +:+ o +:+ "'")).
  - intros o Ho Hne Hdec msg Hin Habout.
    destruct (operator_message_cases c i op msg Hop Hin Habout)
      as [[-> _]|[[_ [H|H]]|(o' & _ & Ho' & _ & Hd)]]; try congruence.
    rewrite Ho in Ho'. injection Ho' as <-.
    rewrite (all_decimal_isdigit o Hne Hdec) in Hd. discriminate.
Qed.

Lemma operator_error_iff_not_isdigit_witness :
  operators_of acme !! 0 = Some dana
  /\ forall msg, In msg (validate_config acme) -> about_operator 0 msg ->
                 msg = message (OperatorName 0).
Proof.
  assert (Hop : operators_of acme !! 0 = Some dana) by reflexivity.
  split; [exact Hop|].
  refine (proj2 (operator_error_iff_not_isdigit acme 0 dana Hop) "1234567" _ _ _).
  - vm_compute. reflexivity.
  - discriminate.
  - vm_compute. reflexivity.
Defined.

(** C6. For every config, [validate_config] checks every rule, whatever
    the outcome of the others, and returns one message per violation: the
    list it returns is the list of the messages of the violations of the
    config, each violation counted once. In particular, when company_name
    or prefix is absent or empty, the list is not empty and holds the
    message that names this field, and every violation among the operators
    and the personas of the same config is reported as well. *)
Theorem validate_config_reports_every_violation (c : Config) :
  (exists vs, NoDup vs /\ (forall v, In v vs <-> violated c v)
              /\ validate_config c = map message vs)
  /\ (forall v, violated c v -> In (message v) (validate_config c))
  /\ (absent_or_empty (company_name c) ->
      validate_config c <> []
      /\ In "Missing required field: company_name" (validate_config c))
  /\ (absent_or_empty (prefix c) ->
      validate_config c <> []
      /\ In "Missing required field: prefix" (validate_config c)).
Proof.
  assert (Hne : forall m, In m (validate_config c) -> validate_config c <> []).
  { intros m Hm E. rewrite E in Hm. destruct Hm. }
  split; [|split; [|split]].
  - exists (violations c). split; [apply violations_nodup|].
    split; [apply in_violations | apply validate_config_messages].
  - apply violated_reported.
  - intros H.
    assert (Hin : In (message (MissingField "company_name")) (validate_config c))
      by (apply violated_reported; cbn; auto).
    split; [exact (Hne _ Hin) | exact Hin].
  - intros H.
    assert (Hin : In (message (MissingField "prefix")) (validate_config c))
      by (apply violated_reported; cbn; auto).
    split; [exact (Hne _ Hin) | exact Hin].
Qed.

Lemma validate_config_reports_every_violation_witness :
  absent_or_empty (company_name incomplete)
  /\ validate_config incomplete <> []
  /\ In "Missing required field: company_name" (validate_config incomplete)
  /\ In "Operator 1: missing name" (validate_config incomplete)
  /\ In "At least one persona is required" (validate_config incomplete).
Proof.
  assert (H : absent_or_empty (company_name incomplete)) by (left; reflexivity).
  destruct (validate_config_reports_every_violation incomplete)
    as (_ & Hall & Hcompany & _).
  split; [exact H|]. split; [exact (proj1 (Hcompany H))|].
  split; [exact (proj2 (Hcompany H))|]. split.
  - apply (Hall (OperatorName 0)). cbn. eexists. split; [reflexivity|].
    left. reflexivity.
  - apply (Hall NoPersona). reflexivity.
Defined.

(** C9. The prefix given with --prefix is put in upper case before
    anything is done with it: in the validate mode of the config generator
    and in the table generator, a run with the prefix [p] is the run with
    the upper case of [p]; the validate mode works on the upper case of [p]
    only, and "acm" names the same pair of files as "ACM". *)
Theorem prefix_argument_is_uppercased :
  (forall fs p dir,
     GenerateClientConfig.main fs
       {| arg_validate := true; arg_prefix := Some p; arg_output_dir := dir |}
     = GenerateClientConfig.main fs
         {| arg_validate := true; arg_prefix := Some (upper p);
            arg_output_dir := dir |})
  /\ (forall fs p dir,
        p <> "" ->
        GenerateClientConfig.main fs
          {| arg_validate := true; arg_prefix := Some p; arg_output_dir := dir |}
        = Some (run_validate fs (upper p) dir))
  /\ (forall fs today now p dir,
        SetupN8nTables.main fs today now p dir
        = SetupN8nTables.main fs today now (upper p) dir)
  /\ (forall dir,
        path_join dir (upper "acm" +:+ "-client-config.json")
        = path_join dir ("ACM" +:+ "-client-config.json")
        /\ path_join dir (upper "acm" +:+ ".env") = path_join dir ("ACM" +:+ ".env")).
Proof.
  split; [|split; [|split]].
  - intros fs p dir. unfold GenerateClientConfig.main.
    cbn [arg_validate arg_prefix arg_output_dir].
    rewrite truthy_upper. unfold default. cbn [from_option id].
    now rewrite upper_idem.
  - intros fs p dir Hp. unfold GenerateClientConfig.main. simpl.
    destruct p; [congruence | reflexivity].
  - intros fs today now p dir. unfold SetupN8nTables.main.
    now rewrite upper_idem.
  - intros dir. split; reflexivity.
Qed.

Lemma prefix_argument_is_uppercased_witness :
  "acm" <> ""
  /\ GenerateClientConfig.main no_files
       {| arg_validate := true; arg_prefix := Some "acm";
          arg_output_dir := "configs" |}
     = Some (run_validate no_files "ACM" "configs").
Proof.
  assert (H : "acm" <> "") by discriminate.
  split; [exact H|].
  exact (proj1 (proj2 prefix_argument_is_uppercased) no_files "acm" "configs" H).
Defined.

End ConfigClaims.

(** ** The schema reconciler of verify_hubspot_properties.py *)

Module ReconcilerFacts.
Import Py VerifyHubspotProperties ReconcilerSpec.

(** *** Programs of [io] extend the trace *)

Lemma appends_ret {A} (a : A) : appends (ret a).
Proof. intros tr. cbn. now rewrite app_nil_r. Qed.

Lemma appends_emit e : appends (emit e).
Proof. intros tr. reflexivity. Qed.

Lemma appends_raise {A} e : appends (@raise A e).
Proof. intros tr. cbn. now rewrite app_nil_r. Qed.

Lemma appends_http_get net url token : appends (http_get net url token).
Proof. intros tr. reflexivity. Qed.

Lemma appends_http_post net url token prop : appends (http_post net url token prop).
Proof. intros tr. reflexivity. Qed.

(** How a sequence runs from the empty trace. *)
Lemma bind_run {A B} (m : io A) (k : A -> io B) :
  appends m -> (forall a, appends (k a)) ->
  bind m k [] =
    match snd (m []) with
    | Ok a => (fst (m []) ++ fst (k a []), snd (k a []))
    | Raise e => (fst (m []), Raise e)
    end.
Proof.
  intros Hm Hk. unfold bind.
  destruct (m []) as [t [a|e]] eqn:E; cbn [fst snd]; [|reflexivity].
  apply Hk.
Qed.

Lemma appends_bind {A B} (m : io A) (k : A -> io B) :
  appends m -> (forall a, appends (k a)) -> appends (bind m k).
Proof.
  intros Hm Hk tr. rewrite bind_run by assumption.
  unfold bind. rewrite (Hm tr).
  destruct (snd (m [])) as [a|e]; cbn [fst snd]; [|reflexivity].
  rewrite (Hk a (tr ++ fst (m []))). now rewrite app_assoc.
Qed.

Lemma appends_try {A} (m : io A) : appends m -> appends (try_except_HTTPError m).
Proof.
  intros Hm tr. unfold try_except_HTTPError. rewrite (Hm tr).
  destruct (m []) as [t [a|e]]; cbn [fst snd]; [reflexivity|].
  destruct e; reflexivity.
Qed.

Lemma appends_if {A} (b : bool) (m1 m2 : io A) :
  appends m1 -> appends m2 -> appends (if b then m1 else m2).
Proof. destruct b; auto. Qed.

Create HintDb io_appends.
#[local] Hint Resolve appends_ret appends_emit appends_raise appends_http_get
  appends_http_post appends_bind appends_try appends_if : io_appends.

Lemma appends_raise_for_status resp : appends (raise_for_status resp).
Proof. unfold raise_for_status. auto with io_appends. Qed.

Lemma appends_fetch net token ot : appends (fetch_existing_properties net token ot).
Proof.
  unfold fetch_existing_properties.
  apply appends_bind; [auto with io_appends|]. intros resp.
  apply appends_bind; [apply appends_raise_for_status | auto with io_appends].
Qed.

Lemma appends_create net token ot prop : appends (create_property net token ot prop).
Proof.
  unfold create_property.
  apply appends_bind; [auto with io_appends|]. intros resp.
  apply appends_if; auto with io_appends.
Qed.

Lemma appends_check_prop net token dc ot ex prop all_ok :
  appends (check_prop net token dc ot ex prop all_ok).
Proof.
  unfold check_prop. destruct (decide _); [auto with io_appends|].
  apply appends_bind; [auto with io_appends|]. intros _.
  destruct dc; [|auto with io_appends].
  apply appends_bind; [auto with io_appends|]. intros _.
  apply appends_bind; [apply appends_create|]. intros ok.
  destruct ok; auto with io_appends.
Qed.

Lemma appends_check_specs net token dc ot ex specs :
  forall all_ok, appends (check_specs net token dc ot ex specs all_ok).
Proof.
  induction specs as [|prop specs IH]; intros all_ok; cbn [check_specs].
  - apply appends_ret.
  - apply appends_bind; [apply appends_check_prop | auto].
Qed.

Lemma appends_verify_types net token dc items :
  forall all_ok, appends (verify_types net token dc items all_ok).
Proof.
  induction items as [|[ot specs] items IH]; intros all_ok; cbn [verify_types].
  - apply appends_ret.
  - apply appends_bind; [auto with io_appends|]. intros _.
    apply appends_bind; [apply appends_try, appends_fetch|].
    intros [exc|existing].
    + apply appends_bind; [auto with io_appends | auto].
    + apply appends_bind; [apply appends_check_specs | auto].
Qed.


(** *** The check of one field *)

Lemma check_prop_run net token dc ot ex prop all_ok :
  check_prop net token dc ot ex prop all_ok []
  = (prop_trace net token dc ot ex prop, prop_value net token dc ot ex prop all_ok).
Proof.
  unfold check_prop, prop_trace, prop_value, create_property, http_post, bind,
    emit, ret.
  fold (url_of ot).
  destruct (decide (name prop ∈ ex)); [reflexivity|].
  destruct dc; [|reflexivity]. cbn [app].
  destruct (requests_post net (url_of ot) token prop) as [resp|e]; [|reflexivity].
  fold (is_created_status (status_code resp)).
  destruct (is_created_status (status_code resp)); reflexivity.
Qed.

Lemma check_specs_cons net token dc ot ex prop specs all_ok :
  check_specs net token dc ot ex (prop :: specs) all_ok []
  = match prop_value net token dc ot ex prop all_ok with
    | Ok a =>
        (prop_trace net token dc ot ex prop
           ++ fst (check_specs net token dc ot ex specs a []),
         snd (check_specs net token dc ot ex specs a []))
    | Raise e => (prop_trace net token dc ot ex prop, Raise e)
    end.
Proof.
  cbn [check_specs]. rewrite bind_run.
  - now rewrite check_prop_run.
  - apply appends_check_prop.
  - intros a. apply appends_check_specs.
Qed.

Lemma section_event_mono net token dc ot ex prop specs e :
  section_event net token dc ot ex specs e ->
  section_event net token dc ot ex (prop :: specs) e.
Proof.
  destruct e; cbn [section_event In]; try tauto.
  - intros (H1 & H2 & p & Hp & Hn). eauto 8.
  - intros (H1 & H2 & p & Hp & Hn). eauto 8.
  - intros (H1 & H2 & H3 & p & Hp & Hn). eauto 10.
Qed.

Lemma prop_trace_events net token dc ot ex prop specs :
  Forall (section_event net token dc ot ex (prop :: specs))
    (prop_trace net token dc ot ex prop).
Proof.
  assert (Hp : exists q, In q (prop :: specs) /\ name q = name prop)
    by (exists prop; cbn; auto).
  unfold prop_trace. destruct (decide (name prop ∈ ex)).
  - repeat constructor; auto.
  - destruct dc; [|repeat constructor; auto].
    destruct (requests_post net (url_of ot) token prop) as [resp|e] eqn:E;
      try destruct (is_created_status (status_code resp));
      repeat constructor; cbn [In]; auto.
Qed.

(** A field that is there is either in the set or created by the call of
    its check. *)
Lemma field_ok_true net token dc ot ex prop :
  field_ok net token dc ot ex prop = true ->
  name prop ∈ ex \/ created (prop_trace net token dc ot ex prop) ot prop.
Proof.
  unfold field_ok, prop_trace, accepts, created.
  destruct (decide (name prop ∈ ex)) as [Hin|Hout]; [auto|].
  rewrite bool_decide_eq_false_2 by exact Hout. cbn [orb].
  destruct dc; [|discriminate]. cbn [andb].
  destruct (requests_post net (url_of ot) token prop) as [resp|e]; [|discriminate].
  intros Hs. right. exists resp. split; [|exact Hs].
  rewrite Hs. cbn. auto.
Qed.

Lemma prop_value_ok net token dc ot ex prop all_ok b :
  prop_value net token dc ot ex prop all_ok = Ok b ->
  b = all_ok && field_ok net token dc ot ex prop.
Proof.
  unfold prop_value, field_ok, accepts.
  destruct (decide (name prop ∈ ex)) as [Hin|Hout].
  - rewrite bool_decide_eq_true_2 by exact Hin. intros [= <-].
    now rewrite andb_true_r.
  - rewrite bool_decide_eq_false_2 by exact Hout. cbn [orb].
    destruct dc; cbn [andb]; [|intros [= <-]; now rewrite andb_false_r].
    destruct (requests_post net (url_of ot) token prop) as [resp|e]; [|discriminate].
    destruct (is_created_status (status_code resp)); intros [= <-];
      now rewrite ?andb_true_r, ?andb_false_r.
Qed.

Lemma prop_value_raise net token dc ot ex prop all_ok e :
  prop_value net token dc ot ex prop all_ok = Raise e <->
  exists url q, In (Post url q (Raise e)) (prop_trace net token dc ot ex prop).
Proof.
  unfold prop_value, prop_trace.
  destruct (decide (name prop ∈ ex)).
  - split; [discriminate | intros (url & q & [H|[]]); discriminate].
  - destruct dc.
    + destruct (requests_post net (url_of ot) token prop) as [resp|e'].
      * split; [destruct (is_created_status _); discriminate|].
        destruct (is_created_status _); cbn;
          intros (url & q & [H|[H|[H|[H|[]]]]]); discriminate.
      * split; [intros [= ->]; cbn; eauto 6|].
        cbn. intros (url & q & [H|[H|[H|[]]]]); try discriminate.
        now injection H as _ _ ->.
    + split; [discriminate | intros (url & q & [H|[]]); discriminate].
Qed.

Lemma prop_trace_checked net token dc ot ex prop :
  checked (prop_trace net token dc ot ex prop) ot (name prop).
Proof.
  unfold checked, prop_trace. destruct (decide _); cbn; auto.
Qed.

(** *** The pass over the fields of one object type *)

Lemma created_app_l tr1 tr2 ot prop : created tr1 ot prop -> created (tr1 ++ tr2) ot prop.
Proof. intros (resp & H & Hs). exists resp. rewrite in_app_iff. auto. Qed.

Lemma created_app_r tr1 tr2 ot prop : created tr2 ot prop -> created (tr1 ++ tr2) ot prop.
Proof. intros (resp & H & Hs). exists resp. rewrite in_app_iff. auto. Qed.

Lemma checked_app_l tr1 tr2 ot n : checked tr1 ot n -> checked (tr1 ++ tr2) ot n.
Proof. unfold checked. rewrite !in_app_iff. tauto. Qed.

Lemma checked_app_r tr1 tr2 ot n : checked tr2 ot n -> checked (tr1 ++ tr2) ot n.
Proof. unfold checked. rewrite !in_app_iff. tauto. Qed.

Lemma check_specs_events net token dc ot ex specs :
  forall all_ok,
    Forall (section_event net token dc ot ex specs)
      (fst (check_specs net token dc ot ex specs all_ok [])).
Proof.
  induction specs as [|prop specs IH]; intros all_ok.
  - constructor.
  - rewrite check_specs_cons.
    pose proof (prop_trace_events net token dc ot ex prop specs) as Hp.
    destruct (prop_value net token dc ot ex prop all_ok) as [a|e]; cbn [fst];
      [|exact Hp].
    apply Forall_app. split; [exact Hp|].
    eapply Forall_impl; [apply IH|]. intros e. apply section_event_mono.
Qed.

Lemma check_specs_ok net token dc ot ex specs :
  forall all_ok b,
    snd (check_specs net token dc ot ex specs all_ok []) = Ok b ->
    let tr := fst (check_specs net token dc ot ex specs all_ok []) in
    b = all_ok && forallb (field_ok net token dc ot ex) specs
    /\ (forall prop, In prop specs -> checked tr ot (name prop))
    /\ (forall prop, In prop specs -> field_ok net token dc ot ex prop = true ->
                     name prop ∈ ex \/ created tr ot prop).
Proof.
  induction specs as [|prop specs IH]; intros all_ok b.
  - cbn. intros [= <-]. rewrite andb_true_r. repeat split; intros ? [].
  - rewrite check_specs_cons.
    destruct (prop_value net token dc ot ex prop all_ok) as [a|e] eqn:Hv;
      cbn [fst snd]; [|discriminate].
    intros Hrun. apply IH in Hrun as (Hb & Hchecked & Hthere).
    apply prop_value_ok in Hv. split; [|split].
    + cbn [forallb]. rewrite Hb, Hv. now rewrite andb_assoc.
    + intros q [<-|Hq].
      * apply checked_app_l, prop_trace_checked.
      * apply checked_app_r. auto.
    + intros q [<-|Hq] Hok.
      * destruct (field_ok_true _ _ _ _ _ _ Hok); auto using created_app_l.
      * destruct (Hthere q Hq Hok); auto using created_app_r.
Qed.

Lemma check_specs_raise net token dc ot ex specs :
  forall all_ok e,
    snd (check_specs net token dc ot ex specs all_ok []) = Raise e <->
    exists url q,
      In (Post url q (Raise e)) (fst (check_specs net token dc ot ex specs all_ok [])).
Proof.
  induction specs as [|prop specs IH]; intros all_ok e.
  - cbn. split; [discriminate | intros (? & ? & [])].
  - rewrite check_specs_cons.
    pose proof (prop_value_raise net token dc ot ex prop all_ok) as Hp.
    destruct (prop_value net token dc ot ex prop all_ok) as [a|e'] eqn:Hv;
      cbn [fst snd].
    + rewrite IH. split.
      * intros (url & q & H). exists url, q. rewrite in_app_iff. auto.
      * intros (url & q & H). apply in_app_iff in H as [H|H]; [|eauto].
        assert (C : Ok a = Raise e) by (apply Hp; eauto). discriminate.
    + split.
      * intros [= ->]. now apply Hp.
      * intros H. apply Hp in H. congruence.
Qed.

(** *** The pass over the object types *)

Lemma fetch_run net token ot :
  try_except_HTTPError (fetch_existing_properties net token ot) []
  = ([Get (url_of ot) (requests_get net (url_of ot) token)],
     match fetch_outcome_of net token ot with
     | Fetched existing => Ok (inr existing)
     | FetchFailed e => Ok (inl e)
     | FetchCrashed e => Raise e
     end).
Proof.
  unfold try_except_HTTPError, fetch_existing_properties, http_get,
    raise_for_status, fetch_outcome_of, bind.
  fold (url_of ot). cbn [app].
  destruct (requests_get net (url_of ot) token) as [resp|e].
  - fold (is_error_status (status_code resp)).
    destruct (is_error_status (status_code resp)); reflexivity.
  - destruct e; reflexivity.
Qed.

Lemma verify_types_cons net token dc ot specs items all_ok :
  verify_types net token dc ((ot, specs) :: items) all_ok []
  = let head :=
      [SectionHeader ot (length specs);
       Get (url_of ot) (requests_get net (url_of ot) token)] in
    match fetch_outcome_of net token ot with
    | Fetched existing =>
        let cs := check_specs net token dc ot existing specs all_ok [] in
        match snd cs with
        | Ok a =>
            (head ++ fst cs ++ fst (verify_types net token dc items a []),
             snd (verify_types net token dc items a []))
        | Raise e => (head ++ fst cs, Raise e)
        end
    | FetchFailed e =>
        (head ++ [FetchError ot e] ++ fst (verify_types net token dc items false []),
         snd (verify_types net token dc items false []))
    | FetchCrashed e => (head, Raise e)
    end.
Proof.
  cbn [verify_types].
  rewrite bind_run; [|apply appends_emit|].
  2:{ intros _. apply appends_bind; [apply appends_try, appends_fetch|].
      intros [exc|existing].
      - apply appends_bind; [apply appends_emit|].
        intros _. apply appends_verify_types.
      - apply appends_bind; [apply appends_check_specs|].
        intros a. apply appends_verify_types. }
  cbn [emit fst snd app].
  rewrite bind_run; [|apply appends_try, appends_fetch|].
  2:{ intros [exc|existing].
      - apply appends_bind; [apply appends_emit|].
        intros _. apply appends_verify_types.
      - apply appends_bind; [apply appends_check_specs|].
        intros a. apply appends_verify_types. }
  rewrite fetch_run. cbn [fst snd].
  destruct (fetch_outcome_of net token ot) as [existing|e|e]; cbn [app].
  - rewrite bind_run;
      [|apply appends_check_specs | intros a; apply appends_verify_types].
    destruct (snd (check_specs net token dc ot existing specs all_ok []));
      reflexivity.
  - rewrite bind_run;
      [|apply appends_emit | intros a; apply appends_verify_types].
    reflexivity.
  - reflexivity.
Qed.

Lemma run_event_mono net token dc item items e :
  run_event net token dc items e -> run_event net token dc (item :: items) e.
Proof.
  destruct e; cbn [run_event].
  all: try (intros (ot & specs & ex & Hin & H); exists ot, specs, ex;
            split; [right; exact Hin | exact H]).
  - intros (specs & Hin & H). exists specs. split; [right; exact Hin | exact H].
  - intros (ot & specs & Hin & H). exists ot, specs.
    split; [right; exact Hin | exact H].
  - intros (specs & Hin & H). exists specs. split; [right; exact Hin | exact H].
Qed.

Lemma run_event_section net token dc ot specs ex items e :
  fetch_outcome_of net token ot = Fetched ex ->
  section_event net token dc ot ex specs e ->
  run_event net token dc ((ot, specs) :: items) e.
Proof.
  intros Hf He. destruct e; cbn [section_event] in He; try contradiction;
    cbn [run_event]; exists ot, specs, ex; cbn [In section_event]; auto.
Qed.

Lemma verify_types_events net token dc items :
  forall all_ok,
    Forall (run_event net token dc items)
      (fst (verify_types net token dc items all_ok [])).
Proof.
  induction items as [|[ot specs] items IH]; intros all_ok.
  - constructor.
  - rewrite verify_types_cons. cbv zeta.
    assert (Hhead : Forall (run_event net token dc ((ot, specs) :: items))
                      [SectionHeader ot (length specs);
                       Get (url_of ot) (requests_get net (url_of ot) token)]).
    { repeat constructor; cbn [run_event].
      - exists specs. cbn. auto.
      - exists ot, specs. cbn. auto. }
    assert (Htail : forall a,
               Forall (run_event net token dc ((ot, specs) :: items))
                 (fst (verify_types net token dc items a []))).
    { intros a. eapply Forall_impl; [apply IH|]. intros e. apply run_event_mono. }
    destruct (fetch_outcome_of net token ot) as [ex|e|e] eqn:Hf.
    + assert (Hcs : Forall (run_event net token dc ((ot, specs) :: items))
                      (fst (check_specs net token dc ot ex specs all_ok []))).
      { eapply Forall_impl; [apply check_specs_events|].
        intros e. now apply run_event_section. }
      destruct (snd (check_specs net token dc ot ex specs all_ok []));
        cbn [fst]; rewrite ?Forall_app; auto.
    + cbn [fst]. rewrite !Forall_app. repeat split; auto.
      repeat constructor. cbn [run_event]. exists specs. cbn. auto.
    + exact Hhead.
Qed.

Lemma verify_types_ok net token dc items :
  forall all_ok b,
    snd (verify_types net token dc items all_ok []) = Ok b ->
    let tr := fst (verify_types net token dc items all_ok []) in
    b = all_ok && forallb (type_ok net token dc) items
    /\ (forall ot specs ex,
          In (ot, specs) items -> fetch_outcome_of net token ot = Fetched ex ->
          (forall prop, In prop specs -> checked tr ot (name prop))
          /\ (forall prop, In prop specs ->
                field_ok net token dc ot ex prop = true ->
                name prop ∈ ex \/ created tr ot prop))
    /\ (forall ot specs e,
          In (ot, specs) items -> fetch_outcome_of net token ot = FetchFailed e ->
          In (FetchError ot e) tr).
Proof.
  induction items as [|[ot specs] items IH]; intros all_ok b.
  - cbn. intros [= <-]. rewrite andb_true_r.
    split; [reflexivity|]. split; intros ? ? ? [].
  - rewrite verify_types_cons. cbv zeta. unfold type_ok at 1. cbn [fst snd forallb].
    destruct (fetch_outcome_of net token ot) as [ex|e|e] eqn:Hf.
    + destruct (snd (check_specs net token dc ot ex specs all_ok [])) as [a|e]
        eqn:Hcs; cbn [fst snd]; [|discriminate].
      intros Hrun. apply IH in Hrun as (Hb & Hfetched & Hfailed).
      apply check_specs_ok in Hcs as (Ha & Hchecked & Hthere).
      split; [|split].
      * rewrite Hb, Ha. now rewrite andb_assoc.
      * intros ot' specs' ex' [[= <- <-]|Hin] Hf'.
        -- rewrite Hf in Hf'. injection Hf' as <-. split.
           ++ intros p Hp. apply checked_app_r, checked_app_l. auto.
           ++ intros p Hp Hok. destruct (Hthere p Hp Hok); auto.
              right. apply created_app_r, created_app_l. assumption.
        -- destruct (Hfetched ot' specs' ex' Hin Hf') as [H1 H2]. split.
           ++ intros p Hp. apply checked_app_r, checked_app_r. auto.
           ++ intros p Hp Hok. destruct (H2 p Hp Hok); auto.
              right. apply created_app_r, created_app_r. assumption.
      * intros ot' specs' e' [[= <- <-]|Hin] Hf'; [congruence|].
        rewrite !in_app_iff. right; right. eauto.
    + cbn [fst snd]. intros Hrun. apply IH in Hrun as (Hb & Hfetched & Hfailed).
      split; [|split].
      * rewrite Hb. cbn. now rewrite andb_false_r.
      * intros ot' specs' ex' [[= <- <-]|Hin] Hf'; [congruence|].
        destruct (Hfetched ot' specs' ex' Hin Hf') as [H1 H2]. split.
        -- intros p Hp. apply checked_app_r, checked_app_r. auto.
        -- intros p Hp Hok. destruct (H2 p Hp Hok); auto.
           right. apply created_app_r, created_app_r. assumption.
      * intros ot' specs' e' [[= <- <-]|Hin] Hf'.
        -- rewrite Hf in Hf'. injection Hf' as <-.
           rewrite !in_app_iff. right; left. now left.
        -- rewrite !in_app_iff. right; right. eauto.
    + discriminate.
Qed.

Lemma fetch_crashed_get net token ot e :
  fetch_outcome_of net token ot = FetchCrashed e <->
  requests_get net (url_of ot) token = Raise e /\ forall s, e <> HTTPError s.
Proof.
  unfold fetch_outcome_of.
  destruct (requests_get net (url_of ot) token) as [resp|e'].
  - destruct (is_error_status _); split; try discriminate; intros [? _]; discriminate.
  - destruct e'; split;
      try (intros [= <-]; split; [reflexivity | discriminate]);
      try discriminate;
      try (intros [[= <-] _]; reflexivity).
    intros [[= <-] H]. now destruct (H status).
Qed.

Lemma verify_types_raise net token dc items :
  forall all_ok e,
    snd (verify_types net token dc items all_ok []) = Raise e <->
    call_failed (fst (verify_types net token dc items all_ok [])) e.
Proof.
  unfold call_failed.
  induction items as [|[ot specs] items IH]; intros all_ok e.
  - cbn. split; [discriminate|].
    intros [(? & [] & _)|(? & ? & [])].
  - rewrite verify_types_cons. cbv zeta.
    pose proof (fetch_crashed_get net token ot) as Hcrash.
    destruct (fetch_outcome_of net token ot) as [ex|e'|e'] eqn:Hf.
    + pose proof (check_specs_raise net token dc ot ex specs all_ok) as Hcs.
      destruct (snd (check_specs net token dc ot ex specs all_ok [])) as [a|e2];
        cbn [fst snd].
      * rewrite IH. split.
        -- intros [(url & H & Hne)|(url & q & H)]; [left|right].
           ++ exists url. split; [|exact Hne]. rewrite !in_app_iff. auto.
           ++ exists url, q. rewrite !in_app_iff. auto.
        -- intros [(url & H & Hne)|(url & q & H)].
           ++ rewrite !in_app_iff in H. destruct H as [H|[H|H]].
              ** destruct H as [H|[H|[]]]; [discriminate|].
                 injection H as _ H.
                 assert (C : Fetched ex = FetchCrashed e) by (apply Hcrash; auto).
                 discriminate.
              ** pose proof (check_specs_events net token dc ot ex specs all_ok) as Hev.
                 rewrite Forall_forall in Hev.
                 apply list_elem_of_In, Hev in H. destruct H.
              ** left. eauto.
           ++ rewrite !in_app_iff in H. destruct H as [H|[H|H]].
              ** destruct H as [H|[H|[]]]; discriminate.
              ** assert (C : Ok a = Raise e) by (apply Hcs; eauto). discriminate.
              ** right. eauto.
      * split.
        -- intros [= ->]. right.
           destruct (proj1 (Hcs e) eq_refl) as (url & q & H).
           exists url, q. rewrite in_app_iff. auto.
        -- intros [(url & H & Hne)|(url & q & H)].
           ++ rewrite in_app_iff in H. destruct H as [H|H].
              ** destruct H as [H|[H|[]]]; [discriminate|].
                 injection H as _ H.
                 assert (C : Fetched ex = FetchCrashed e) by (apply Hcrash; auto).
                 discriminate.
              ** pose proof (check_specs_events net token dc ot ex specs all_ok) as Hev.
                 rewrite Forall_forall in Hev.
                 apply list_elem_of_In, Hev in H. destruct H.
           ++ rewrite in_app_iff in H. destruct H as [H|H].
              ** destruct H as [H|[H|[]]]; discriminate.
              ** f_equal. assert (C : Raise e2 = Raise e) by (apply Hcs; eauto).
                 now injection C.
    + cbn [fst snd]. rewrite IH. split.
      * intros [(url & H & Hne)|(url & q & H)]; [left|right].
        -- exists url. split; [|exact Hne]. rewrite !in_app_iff. auto.
        -- exists url, q. rewrite !in_app_iff. auto.
      * intros [(url & H & Hne)|(url & q & H)].
        -- rewrite !in_app_iff in H. destruct H as [H|[H|H]].
           ++ destruct H as [H|[H|[]]]; [discriminate|].
              injection H as _ H.
              assert (C : FetchFailed e' = FetchCrashed e) by (apply Hcrash; auto).
              discriminate.
           ++ destruct H as [H|[]]. discriminate.
           ++ left. eauto.
        -- rewrite !in_app_iff in H. destruct H as [H|[H|H]].
           ++ destruct H as [H|[H|[]]]; discriminate.
           ++ destruct H as [H|[]]. discriminate.
           ++ right. eauto.
    + cbn [fst snd]. destruct (proj1 (Hcrash e') eq_refl) as [Hget Hne].
      split.
      * intros [= ->]. left. exists (url_of ot). rewrite Hget. cbn. auto.
      * intros [(url & H & _)|(url & q & H)].
        -- destruct H as [H|[H|[]]]; [discriminate|].
           injection H as _ H. rewrite Hget in H. congruence.
        -- destruct H as [H|[H|[]]]; discriminate.
Qed.

End ReconcilerFacts.

(** *** Whole runs *)

Module ReconcilerRuns.
Import Py VerifyHubspotProperties ReconcilerSpec ReconcilerFacts.

(** Within an object type the required names are pairwise distinct, so a
    run sends every request at most once. *)
Lemma required_names_distinct :
  Forall (fun item => NoDup (map name (snd item))) PROPERTY_SPECS.
Proof.
  unfold PROPERTY_SPECS. rewrite !Forall_cons, Forall_nil.
  repeat split; apply (bool_decide_unpack _); vm_compute; exact I.
Qed.


(** A creation call of the trace that was accepted. *)
Lemma created_accepts net token dc items all_ok ot prop :
  created (fst (verify_types net token dc items all_ok [])) ot prop ->
  dc = true /\ accepts net token ot prop = true.
Proof.
  intros (resp & Hin & Hs).
  pose proof (verify_types_events net token dc items all_ok) as Hev.
  rewrite Forall_forall in Hev. apply list_elem_of_In, Hev in Hin.
  cbn [run_event] in Hin.
  destruct Hin as (ot' & specs & ex & _ & _ & Hurl & Hdc & Ha & _).
  split; [exact Hdc|]. unfold accepts. rewrite <- Ha. exact Hs.
Qed.

Lemma field_ok_of_there net token dc items all_ok ot ex prop :
  name prop ∈ ex
  \/ created (fst (verify_types net token dc items all_ok [])) ot prop ->
  field_ok net token dc ot ex prop = true.
Proof.
  unfold field_ok. intros [H|H].
  - now rewrite bool_decide_eq_true_2.
  - apply created_accepts in H as [-> ->]. now rewrite orb_true_r.
Qed.

(** The run returns true exactly when the fields of every object type
    were fetched and each of them is there after the run. *)
Lemma verify_types_true_iff net token dc items all_ok :
  let tr := fst (verify_types net token dc items all_ok []) in
  snd (verify_types net token dc items all_ok []) = Ok true <->
  all_ok = true
  /\ forall ot specs, In (ot, specs) items ->
       exists ex, fetch_outcome_of net token ot = Fetched ex
                  /\ all_fields_there tr ot ex specs.
Proof.
  cbv zeta. split.
  - intros Hrun. apply verify_types_ok in Hrun as (Hb & Hfetched & _).
    symmetry in Hb. apply andb_true_iff in Hb as [-> Hall].
    split; [reflexivity|]. intros ot specs Hin.
    rewrite forallb_forall in Hall. specialize (Hall _ Hin).
    unfold type_ok in Hall. cbn [fst snd] in Hall.
    destruct (fetch_outcome_of net token ot) as [ex|e|e] eqn:Hf; try discriminate.
    exists ex. split; [reflexivity|]. intros prop Hprop.
    rewrite forallb_forall in Hall.
    destruct (Hfetched ot specs ex Hin Hf) as [_ Hthere]. auto.
  - intros [-> Hall].
    assert (Hok : forallb (type_ok net token dc) items = true).
    { apply forallb_forall. intros [ot specs] Hin.
      destruct (Hall ot specs Hin) as (ex & Hf & Hthere).
      unfold type_ok. cbn [fst snd]. rewrite Hf.
      apply forallb_forall. intros prop Hprop.
      eapply field_ok_of_there. apply Hthere, Hprop. }
    destruct (snd (verify_types net token dc items true [])) as [b|e] eqn:Hrun.
    + apply verify_types_ok in Hrun as (-> & _). now rewrite Hok.
    + exfalso. apply verify_types_raise in Hrun.
      pose proof (verify_types_events net token dc items true) as Hev.
      rewrite Forall_forall in Hev.
      destruct Hrun as [(url & Hin & Hne)|(url & q & Hin)].
      * apply list_elem_of_In, Hev in Hin. cbn [run_event] in Hin.
        destruct Hin as (ot & specs & Hitem & -> & Hget).
        destruct (Hall ot specs Hitem) as (ex & Hf & _).
        assert (C : fetch_outcome_of net token ot = FetchCrashed e)
          by (apply fetch_crashed_get; auto).
        congruence.
      * pose proof Hin as Hin'.
        apply list_elem_of_In, Hev in Hin. cbn [run_event section_event] in Hin.
        destruct Hin as (ot & specs & ex & Hitem & Hf & -> & Hdc & Ha & Hq & Hout).
        destruct (Hall ot specs Hitem) as (ex' & Hf' & Hthere).
        rewrite Hf in Hf'. injection Hf' as <-.
        destruct (Hthere q Hq) as [Hex|Hcr]; [contradiction|].
        apply created_accepts in Hcr as [_ Hacc].
        unfold accepts in Hacc. rewrite <- Ha in Hacc. discriminate.
Qed.



(** When every required field exists the run asks for nothing. *)
Lemma verify_types_all_present net token dc items :
  (forall ot specs, In (ot, specs) items ->
     exists ex, fetch_outcome_of net token ot = Fetched ex
                /\ forall prop, In prop specs -> name prop ∈ ex) ->
  let tr := fst (verify_types net token dc items true []) in
  snd (verify_types net token dc items true []) = Ok true
  /\ (forall ot n, ~ In (Missing ot n) tr)
  /\ (forall ot n, ~ In (Creating ot n) tr)
  /\ (forall url prop a, ~ In (Post url prop a) tr).
Proof.
  intros Hall. cbv zeta.
  pose proof (verify_types_events net token dc items true) as Hev.
  rewrite Forall_forall in Hev.
  split; [|repeat split].
  - apply verify_types_true_iff. split; [reflexivity|].
    intros ot specs Hin. destruct (Hall ot specs Hin) as (ex & Hf & Hex).
    exists ex. split; [exact Hf|]. intros prop Hprop. left. auto.
  - intros ot n Hin. apply list_elem_of_In, Hev in Hin.
    cbn [run_event section_event] in Hin.
    destruct Hin as (ot' & specs & ex & Hitem & Hf & _ & Hout & p & Hp & <-).
    destruct (Hall ot' specs Hitem) as (ex' & Hf' & Hex).
    rewrite Hf in Hf'. injection Hf' as <-. apply Hout. auto.
  - intros ot n Hin. apply list_elem_of_In, Hev in Hin.
    cbn [run_event section_event] in Hin.
    destruct Hin as (ot' & specs & ex & Hitem & Hf & _ & Hout & _ & p & Hp & <-).
    destruct (Hall ot' specs Hitem) as (ex' & Hf' & Hex).
    rewrite Hf in Hf'. injection Hf' as <-. apply Hout. auto.
  - intros url prop a Hin. apply list_elem_of_In, Hev in Hin.
    cbn [run_event section_event] in Hin.
    destruct Hin as (ot' & specs & ex & Hitem & Hf & _ & _ & _ & Hp & Hout).
    destruct (Hall ot' specs Hitem) as (ex' & Hf' & Hex).
    rewrite Hf in Hf'. injection Hf' as <-. apply Hout. auto.
Qed.








End ReconcilerRuns.

(** ** Claims about verify_hubspot_properties.py *)

Section ReconcilerClaims.
Import Py VerifyHubspotProperties ReconcilerSpec ReconcilerFacts ReconcilerRuns.






(** C7. When every one of the 14 required fields is in the set that the
    fetch of its object type delivers, a run of [verify_and_create]
    returns true, reports no field as missing and sends no creation call.
    This is the state after a first run with create=True that returned
    true, provided the remote system keeps what it had and what the first
    run created: a second run then has nothing to report and nothing to
    create. *)
Theorem verify_and_create_idempotent :
  (forall net token do_create,
     (forall ot specs, In (ot, specs) PROPERTY_SPECS ->
        exists existing,
          fetch_outcome_of net token ot = Fetched existing
          /\ forall prop, In prop specs -> name prop ∈ existing) ->
     let tr := fst (verify_and_create net token do_create []) in
     snd (verify_and_create net token do_create []) = Ok true
     /\ (forall ot n, ~ In (Missing ot n) tr)
     /\ (forall ot n, ~ In (Creating ot n) tr)
     /\ (forall url prop a, ~ In (Post url prop a) tr))
  /\ (forall first second token do_create,
        snd (verify_and_create first token true []) = Ok true ->
        (forall ot specs before,
           In (ot, specs) PROPERTY_SPECS ->
           fetch_outcome_of first token ot = Fetched before ->
           exists after,
             fetch_outcome_of second token ot = Fetched after
             /\ before ⊆ after
             /\ forall prop,
                  created (fst (verify_and_create first token true [])) ot prop ->
                  name prop ∈ after) ->
        let tr := fst (verify_and_create second token do_create []) in
        snd (verify_and_create second token do_create []) = Ok true
        /\ (forall ot n, ~ In (Missing ot n) tr)
        /\ (forall url prop a, ~ In (Post url prop a) tr)).
Proof.
  split.
  - intros net token do_create Hall.
    exact (verify_types_all_present net token do_create PROPERTY_SPECS Hall).
  - intros first second token do_create Hfirst Hkeeps.
    apply verify_types_true_iff in Hfirst as [_ Hthere].
    destruct (verify_types_all_present second token do_create PROPERTY_SPECS)
      as (Hrun & Hmissing & _ & Hpost); [|auto].
    intros ot specs Hitem.
    destruct (Hthere ot specs Hitem) as (before & Hf & Hfields).
    destruct (Hkeeps ot specs before Hitem Hf) as (after & Hf' & Hsub & Hcreated).
    exists after. split; [exact Hf'|].
    intros prop Hprop. destruct (Hfields prop Hprop) as [H|H]; auto.
Qed.

Lemma verify_and_create_idempotent_witness :
  (forall ot specs, In (ot, specs) PROPERTY_SPECS ->
     exists existing,
       fetch_outcome_of complete_remote "pat" ot = Fetched existing
       /\ forall prop, In prop specs -> name prop ∈ existing)
  /\ snd (verify_and_create complete_remote "pat" true []) = Ok true
  /\ (forall url prop a,
        ~ In (Post url prop a) (fst (verify_and_create complete_remote "pat" true []))).
Proof.
  assert (Hall : forall ot specs, In (ot, specs) PROPERTY_SPECS ->
            exists existing,
              fetch_outcome_of complete_remote "pat" ot = Fetched existing
              /\ forall prop, In prop specs -> name prop ∈ existing).
  { intros ot specs [[= <- <-]|[[= <- <-]|[]]]; eexists;
      (split; [reflexivity|]); intros prop Hprop;
      apply elem_of_list_to_set, list_elem_of_In, in_map; exact Hprop. }
  split; [exact Hall|].
  destruct (proj1 verify_and_create_idempotent complete_remote "pat" true Hall)
    as (Hrun & _ & _ & Hpost).
  split; [exact Hrun | exact Hpost].
Defined.

End ReconcilerClaims.

(** ** More about the runs of the reconciler *)

Module ReconcilerTraceFacts.
Import Py VerifyHubspotProperties ReconcilerSpec ReconcilerFacts ReconcilerRuns
  ReconcilerTrace.

Lemma prop_value_ok_value net token dc ot ex prop all_ok :
  (exists b, prop_value net token dc ot ex prop all_ok = Ok b)
  \/ (exists e, prop_value net token dc ot ex prop all_ok = Raise e).
Proof. destruct (prop_value net token dc ot ex prop all_ok); eauto. Qed.

(** The trace of a pass that returns: the checks of the fields, one after
    the other. *)
Lemma check_specs_trace net token dc ot ex specs :
  forall all_ok b,
    snd (check_specs net token dc ot ex specs all_ok []) = Ok b ->
    fst (check_specs net token dc ot ex specs all_ok [])
    = flat_map (prop_trace net token dc ot ex) specs.
Proof.
  induction specs as [|prop specs IH]; intros all_ok b.
  - reflexivity.
  - rewrite check_specs_cons.
    destruct (prop_value net token dc ot ex prop all_ok) as [a|e];
      cbn [fst snd flat_map]; [|discriminate].
    intros Hrun. f_equal. eapply IH, Hrun.
Qed.

(** The trace of a run that returns: the sections of the object types,
    one after the other. *)
Lemma verify_types_trace net token dc items :
  forall all_ok b,
    snd (verify_types net token dc items all_ok []) = Ok b ->
    fst (verify_types net token dc items all_ok [])
    = flat_map (section_trace net token dc) items.
Proof.
  induction items as [|[ot specs] items IH]; intros all_ok b.
  - reflexivity.
  - rewrite verify_types_cons. cbv zeta. cbn [flat_map section_trace].
    destruct (fetch_outcome_of net token ot) as [ex|e|e].
    + destruct (snd (check_specs net token dc ot ex specs all_ok [])) as [a|e]
        eqn:Hcs; cbn [fst snd]; [|discriminate].
      intros Hrun. rewrite (IH _ _ Hrun), (check_specs_trace _ _ _ _ _ _ _ _ Hcs).
      now rewrite <- !app_assoc.
    + cbn [fst snd]. intros Hrun. rewrite (IH _ _ Hrun).
      now rewrite <- !app_assoc.
    + discriminate.
Qed.

Lemma creation_calls_app tr1 tr2 :
  creation_calls (tr1 ++ tr2) = creation_calls tr1 ++ creation_calls tr2.
Proof. apply flat_map_app. Qed.

Lemma fetch_calls_app tr1 tr2 :
  fetch_calls (tr1 ++ tr2) = fetch_calls tr1 ++ fetch_calls tr2.
Proof. apply flat_map_app. Qed.

Lemma missing_lines_app tr1 tr2 :
  missing_lines (tr1 ++ tr2) = missing_lines tr1 ++ missing_lines tr2.
Proof. apply flat_map_app. Qed.

Lemma checklist_app ot tr1 tr2 :
  checklist ot (tr1 ++ tr2) = checklist ot tr1 ++ checklist ot tr2.
Proof. apply flat_map_app. Qed.

(** *** What the check of one field leaves in the trace *)

Lemma prop_trace_creation_calls net token dc ot ex prop :
  creation_calls (prop_trace net token dc ot ex prop)
  = if decide (name prop ∈ ex) then []
    else if dc then [(url_of ot, prop)] else [].
Proof.
  unfold prop_trace. destruct (decide (name prop ∈ ex)); [reflexivity|].
  destruct dc; [|reflexivity].
  destruct (requests_post net (url_of ot) token prop) as [resp|e];
    try destruct (is_created_status (status_code resp)); reflexivity.
Qed.

Lemma prop_trace_missing_lines net token dc ot ex prop :
  missing_lines (prop_trace net token dc ot ex prop)
  = if decide (name prop ∈ ex) then [] else [(ot, name prop)].
Proof.
  unfold prop_trace. destruct (decide (name prop ∈ ex)); [reflexivity|].
  destruct dc; [|reflexivity].
  destruct (requests_post net (url_of ot) token prop) as [resp|e];
    try destruct (is_created_status (status_code resp)); reflexivity.
Qed.

Lemma prop_trace_fetch_calls net token dc ot ex prop :
  fetch_calls (prop_trace net token dc ot ex prop) = [].
Proof.
  unfold prop_trace. destruct (decide (name prop ∈ ex)); [reflexivity|].
  destruct dc; [|reflexivity].
  destruct (requests_post net (url_of ot) token prop) as [resp|e];
    try destruct (is_created_status (status_code resp)); reflexivity.
Qed.

Lemma prop_trace_checklist net token dc ot ot' ex prop :
  checklist ot' (prop_trace net token dc ot ex prop)
  = if String.eqb ot ot' then [name prop] else [].
Proof.
  unfold prop_trace, checklist.
  destruct (decide (name prop ∈ ex)); cbn [flat_map];
    [now destruct (String.eqb ot ot')|].
  destruct dc.
  - destruct (requests_post net (url_of ot) token prop) as [resp|e];
      try destruct (is_created_status (status_code resp));
      cbn [flat_map app]; now destruct (String.eqb ot ot').
  - cbn [flat_map app]. now destruct (String.eqb ot ot').
Qed.

(** *** What the pass over an object type leaves in the trace *)

Lemma specs_creation_calls net token dc ot ex specs :
  creation_calls (flat_map (prop_trace net token dc ot ex) specs)
  = if dc then map (fun prop => (url_of ot, prop)) (missing_from ex specs) else [].
Proof.
  induction specs as [|prop specs IH]; [now destruct dc|].
  cbn [flat_map]. rewrite creation_calls_app, IH, prop_trace_creation_calls.
  unfold missing_from. rewrite filter_cons.
  destruct (decide (name prop ∈ ex)) as [Hin|Hout].
  - rewrite decide_False by (intros C; apply C, Hin). reflexivity.
  - rewrite decide_True by exact Hout. now destruct dc.
Qed.

Lemma specs_missing_lines net token dc ot ex specs :
  missing_lines (flat_map (prop_trace net token dc ot ex) specs)
  = map (fun prop => (ot, name prop)) (missing_from ex specs).
Proof.
  induction specs as [|prop specs IH]; [reflexivity|].
  cbn [flat_map]. rewrite missing_lines_app, IH, prop_trace_missing_lines.
  unfold missing_from. rewrite filter_cons.
  destruct (decide (name prop ∈ ex)) as [Hin|Hout].
  - rewrite decide_False by (intros C; apply C, Hin). reflexivity.
  - rewrite decide_True by exact Hout. reflexivity.
Qed.

Lemma specs_fetch_calls net token dc ot ex specs :
  fetch_calls (flat_map (prop_trace net token dc ot ex) specs) = [].
Proof.
  induction specs as [|prop specs IH]; [reflexivity|].
  cbn [flat_map]. now rewrite fetch_calls_app, IH, prop_trace_fetch_calls.
Qed.

Lemma specs_checklist net token dc ot ot' ex specs :
  checklist ot' (flat_map (prop_trace net token dc ot ex) specs)
  = if String.eqb ot ot' then map name specs else [].
Proof.
  induction specs as [|prop specs IH]; [now destruct (String.eqb ot ot')|].
  cbn [flat_map]. rewrite checklist_app, IH, prop_trace_checklist.
  now destruct (String.eqb ot ot').
Qed.

(** *** What a section leaves in the trace *)

Lemma section_creation_calls net token dc item :
  creation_calls (section_trace net token dc item)
  = if dc then to_create net token item else [].
Proof.
  destruct item as [ot specs]. unfold section_trace, to_create. cbn [fst snd].
  rewrite creation_calls_app. cbn [creation_calls flat_map app].
  destruct (fetch_outcome_of net token ot).
  - apply specs_creation_calls.
  - now destruct dc.
  - now destruct dc.
Qed.

Lemma section_fetch_calls net token dc item :
  fetch_calls (section_trace net token dc item) = [url_of (fst item)].
Proof.
  destruct item as [ot specs]. unfold section_trace. cbn [fst].
  rewrite fetch_calls_app. cbn [fetch_calls flat_map app].
  destruct (fetch_outcome_of net token ot); [|reflexivity..].
  now rewrite specs_fetch_calls.
Qed.

Lemma section_missing_lines net token dc item :
  missing_lines (section_trace net token dc item)
  = match fetch_outcome_of net token (fst item) with
    | Fetched existing =>
        map (fun prop => (fst item, name prop)) (missing_from existing (snd item))
    | _ => []
    end.
Proof.
  destruct item as [ot specs]. unfold section_trace. cbn [fst snd].
  rewrite missing_lines_app. cbn [missing_lines flat_map app].
  destruct (fetch_outcome_of net token ot); [|reflexivity..].
  apply specs_missing_lines.
Qed.

Lemma section_checklist net token dc item ot' :
  checklist ot' (section_trace net token dc item)
  = match fetch_outcome_of net token (fst item) with
    | Fetched _ => if String.eqb (fst item) ot' then map name (snd item) else []
    | _ => []
    end.
Proof.
  destruct item as [ot specs]. unfold section_trace. cbn [fst snd].
  rewrite checklist_app. cbn [checklist flat_map app].
  destruct (fetch_outcome_of net token ot); [|reflexivity..].
  apply specs_checklist.
Qed.

Lemma flat_map_flat_map {A B C} (f : A -> list B) (g : B -> list C) l :
  flat_map g (flat_map f l) = flat_map (fun x => flat_map g (f x)) l.
Proof.
  induction l as [|x l IH]; [reflexivity|].
  cbn [flat_map]. now rewrite flat_map_app, IH.
Qed.

Lemma to_create_length net token item :
  length (to_create net token item)
  = length (match fetch_outcome_of net token (fst item) with
            | Fetched existing =>
                map (fun prop => (fst item, name prop))
                  (missing_from existing (snd item))
            | _ => []
            end).
Proof.
  unfold to_create. destruct (fetch_outcome_of net token (fst item));
    [|reflexivity..].
  now rewrite !length_map.
Qed.

End ReconcilerTraceFacts.

Section ReconcilerTraceTheorems.
Import Py VerifyHubspotProperties ReconcilerSpec ReconcilerFacts ReconcilerRuns
  ReconcilerTrace ReconcilerTraceFacts.

(** X1. A dry run (create off) never sends a creation call, whatever the
    remote system answers, and it returns true exactly when the fetch of
    each object type succeeds and every required field is in the set it
    delivers. *)
Theorem dry_run_creates_nothing (net : network) (token : string) :
  let tr := fst (verify_and_create net token false []) in
  creation_calls tr = []
  /\ (forall url prop a, ~ In (Post url prop a) tr)
  /\ (forall ot n, ~ In (Creating ot n) tr)
  /\ (snd (verify_and_create net token false []) = Ok true <->
      forall ot specs, In (ot, specs) PROPERTY_SPECS ->
        exists existing,
          fetch_outcome_of net token ot = Fetched existing
          /\ forall prop, In prop specs -> name prop ∈ existing).
Proof.
  cbv zeta. unfold verify_and_create.
  pose proof (verify_types_events net token false PROPERTY_SPECS true) as Hev.
  rewrite Forall_forall in Hev.
  assert (Hpost : forall url prop a,
             ~ In (Post url prop a)
                 (fst (verify_types net token false PROPERTY_SPECS true []))).
  { intros url prop a Hin. apply list_elem_of_In, Hev in Hin.
    cbn [run_event section_event] in Hin.
    destruct Hin as (ot & specs & ex & _ & _ & _ & Hdc & _). discriminate. }
  split; [|split; [exact Hpost|split]].
  - destruct (creation_calls _) as [|[url prop] rest] eqn:Hcalls; [reflexivity|].
    exfalso.
    assert (Hin : In (url, prop) (creation_calls
                    (fst (verify_types net token false PROPERTY_SPECS true []))))
      by (rewrite Hcalls; now left).
    unfold creation_calls in Hin. apply in_flat_map in Hin as (e & He & Hin).
    destruct e; try contradiction. destruct Hin as [[= <- <-]|[]].
    eapply Hpost, He.
  - intros ot n Hin. apply list_elem_of_In, Hev in Hin.
    cbn [run_event section_event] in Hin.
    destruct Hin as (ot' & specs & ex & _ & _ & _ & _ & Hdc & _). discriminate.
  - rewrite verify_types_true_iff. split.
    + intros [_ Hall] ot specs Hitem.
      destruct (Hall ot specs Hitem) as (ex & Hf & Hthere).
      exists ex. split; [exact Hf|]. intros prop Hprop.
      destruct (Hthere prop Hprop) as [H|(resp & Hin & _)]; [exact H|].
      now apply Hpost in Hin.
    + intros Hall. split; [reflexivity|]. intros ot specs Hitem.
      destruct (Hall ot specs Hitem) as (ex & Hf & Hin).
      exists ex. split; [exact Hf|]. intros prop Hprop. left. auto.
Qed.

(** X2. In a run that returns with create on, the creation calls are, in
    order, one call per required field that is not in the fetched set of
    its object type, sent to the address of that object type with the full
    field definition as body, and nothing else; so there are as many
    creation calls as fields reported missing. *)
Theorem one_creation_call_per_missing_field
    (net : network) (token : string) (b : bool) :
  snd (verify_and_create net token true []) = Ok b ->
  let tr := fst (verify_and_create net token true []) in
  creation_calls tr = flat_map (to_create net token) PROPERTY_SPECS
  /\ length (creation_calls tr) = length (missing_lines tr).
Proof.
  unfold verify_and_create. intros Hrun. cbv zeta.
  rewrite (verify_types_trace _ _ _ _ _ _ Hrun).
  unfold creation_calls at 1 2, missing_lines.
  rewrite !flat_map_flat_map.
  fold creation_calls. fold missing_lines.
  assert (Hc : forall items,
             flat_map (fun x => creation_calls (section_trace net token true x)) items
             = flat_map (to_create net token) items).
  { intros items. apply flat_map_ext. intros item.
    now rewrite section_creation_calls. }
  rewrite Hc. split; [reflexivity|].
  unfold PROPERTY_SPECS. cbn [flat_map].
  rewrite !section_missing_lines, !app_nil_r, !length_app, !to_create_length.
  reflexivity.
Qed.

Lemma one_creation_call_per_missing_field_witness :
  snd (verify_and_create empty_remote "pat" true []) = Ok true
  /\ length (creation_calls (fst (verify_and_create empty_remote "pat" true [])))
     = length (missing_lines (fst (verify_and_create empty_remote "pat" true []))).
Proof.
  assert (Hrun : snd (verify_and_create empty_remote "pat" true []) = Ok true)
    by (vm_compute; reflexivity).
  split; [exact Hrun|].
  exact (proj2 (one_creation_call_per_missing_field empty_remote "pat" true Hrun)).
Defined.

(** X3. In a run that returns, every object type is fetched once, contacts
    first and companies second (a failed fetch of the first does not stop
    the second), and the checklist of an object type whose fetch succeeded
    names each of its required fields once, in the order of the table of
    required fields; an object type whose fetch failed has no checklist. *)
Theorem one_fetch_and_one_line_per_field
    (net : network) (token : string) (do_create b : bool) :
  snd (verify_and_create net token do_create []) = Ok b ->
  let tr := fst (verify_and_create net token do_create []) in
  fetch_calls tr = [url_of "contacts"; url_of "companies"]
  /\ checklist "contacts" tr
     = match fetch_outcome_of net token "contacts" with
       | Fetched _ => map name CONTACT_PROPERTIES
       | _ => []
       end
  /\ checklist "companies" tr
     = match fetch_outcome_of net token "companies" with
       | Fetched _ => map name COMPANY_PROPERTIES
       | _ => []
       end.
Proof.
  unfold verify_and_create. intros Hrun. cbv zeta.
  rewrite (verify_types_trace _ _ _ _ _ _ Hrun).
  unfold PROPERTY_SPECS. cbn [flat_map]. rewrite app_nil_r.
  rewrite fetch_calls_app, !checklist_app, !section_fetch_calls, !section_checklist.
  cbn [fst snd].
  change (String.eqb "contacts" "contacts") with true.
  change (String.eqb "companies" "companies") with true.
  change (String.eqb "contacts" "companies") with false.
  change (String.eqb "companies" "contacts") with false.
  split; [reflexivity|].
  destruct (fetch_outcome_of net token "contacts"),
    (fetch_outcome_of net token "companies");
    rewrite ?app_nil_r; split; reflexivity.
Qed.

Lemma one_fetch_and_one_line_per_field_witness :
  snd (verify_and_create contacts_down "pat" false []) = Ok false
  /\ fetch_calls (fst (verify_and_create contacts_down "pat" false []))
     = [url_of "contacts"; url_of "companies"]
  /\ checklist "contacts" (fst (verify_and_create contacts_down "pat" false [])) = [].
Proof.
  assert (Hrun : snd (verify_and_create contacts_down "pat" false []) = Ok false)
    by (vm_compute; reflexivity).
  destruct (one_fetch_and_one_line_per_field contacts_down "pat" false false Hrun)
    as (Hfetch & Hcontacts & _).
  split; [exact Hrun|]. split; [exact Hfetch | exact Hcontacts].
Defined.

End ReconcilerTraceTheorems.

(** ** Strings: white space and its removal *)

Module StripFacts.
Import Py GenerateClientConfig EnvSpec ConfigFacts.

Lemma chars_inj s t : chars s = chars t -> s = t.
Proof.
  unfold chars. intros H.
  rewrite <- (string_of_list_ascii_of_string s), <- (string_of_list_ascii_of_string t).
  now rewrite H.
Qed.

Lemma chars_app s t : chars (s +:+ t) = chars s ++ chars t.
Proof.
  unfold chars. induction s as [|c s IH]; rewrite ?append_nil, ?append_cons;
    cbn [list_ascii_of_string app]; congruence.
Qed.

Lemma chars_rev_app s t : chars (String.rev_app s t) = rev (chars s) ++ chars t.
Proof.
  unfold chars. revert t. induction s as [|c s IH]; intros t;
    cbn [String.rev_app list_ascii_of_string rev app]; [reflexivity|].
  rewrite IH. cbn [list_ascii_of_string]. now rewrite <- app_assoc.
Qed.

Lemma chars_rev s : chars (String.rev s) = rev (chars s).
Proof. unfold String.rev. rewrite chars_rev_app. cbn. now rewrite app_nil_r. Qed.

Lemma chars_lstrip s : chars (lstrip s) = drop_space (chars s).
Proof.
  unfold chars. induction s as [|c s IH]; cbn [lstrip list_ascii_of_string drop_space];
    [reflexivity|].
  destruct (isspace_char c); [exact IH | reflexivity].
Qed.

Lemma chars_rstrip s : chars (rstrip s) = drop_space_end (chars s).
Proof. unfold rstrip, drop_space_end. now rewrite chars_rev, chars_lstrip, chars_rev. Qed.

Lemma strip_rstrip_lstrip s : strip s = rstrip (lstrip s).
Proof. reflexivity. Qed.

Lemma chars_strip s : chars (strip s) = drop_space_end (drop_space (chars s)).
Proof. now rewrite strip_rstrip_lstrip, chars_rstrip, chars_lstrip. Qed.

Lemma all_chars_forallb p s : all_chars p s = forallb p (chars s).
Proof. unfold chars. induction s as [|c s IH]; cbn; congruence. Qed.

(** *** On lists of characters *)

Lemma drop_space_nil l : drop_space l = [] <-> forallb isspace_char l = true.
Proof.
  induction l as [|c l IH]; cbn; [tauto|].
  destruct (isspace_char c); cbn; [exact IH|]. split; discriminate.
Qed.

Lemma drop_space_solid l :
  match drop_space l with
  | c :: _ => isspace_char c = false
  | [] => True
  end.
Proof.
  induction l as [|c l IH]; cbn; [exact I|].
  destruct (isspace_char c) eqn:E; [exact IH | exact E].
Qed.

Lemma drop_space_id c l : isspace_char c = false -> drop_space (c :: l) = c :: l.
Proof. intros H. cbn. now rewrite H. Qed.

Lemma drop_space_app l c m :
  isspace_char c = false ->
  drop_space (l ++ c :: m) = drop_space l ++ c :: m.
Proof.
  intros Hc. induction l as [|x l IH]; cbn [app drop_space].
  - now rewrite Hc.
  - destruct (isspace_char x); [exact IH | reflexivity].
Qed.

Lemma drop_space_idem l : drop_space (drop_space l) = drop_space l.
Proof.
  pose proof (drop_space_solid l) as H.
  destruct (drop_space l) as [|c m]; [reflexivity|]. now apply drop_space_id.
Qed.

Lemma drop_space_end_app l c m :
  isspace_char c = false ->
  drop_space_end (l ++ c :: m) = l ++ c :: drop_space_end m.
Proof.
  intros Hc. unfold drop_space_end.
  rewrite rev_app_distr. cbn [rev]. rewrite <- app_assoc. cbn [app].
  rewrite drop_space_app by exact Hc.
  rewrite rev_app_distr. cbn [rev]. rewrite rev_involutive, <- app_assoc.
  reflexivity.
Qed.

Lemma drop_space_end_cons c m :
  isspace_char c = false -> drop_space_end (c :: m) = c :: drop_space_end m.
Proof. intros Hc. exact (drop_space_end_app [] c m Hc). Qed.

Lemma drop_space_end_idem l : drop_space_end (drop_space_end l) = drop_space_end l.
Proof.
  unfold drop_space_end. now rewrite rev_involutive, drop_space_idem.
Qed.

Lemma drop_space_end_nil l :
  drop_space_end l = [] <-> forallb isspace_char l = true.
Proof.
  unfold drop_space_end. split.
  - intros H. apply (f_equal (@rev ascii)) in H. rewrite rev_involutive in H.
    cbn in H. apply drop_space_nil in H.
    rewrite forallb_forall in *. intros x Hx. apply H, in_rev.
    now rewrite rev_involutive.
  - intros H. replace (drop_space (rev l)) with (@nil ascii); [reflexivity|].
    symmetry. apply drop_space_nil. rewrite forallb_forall in *.
    intros x Hx. apply H. now apply in_rev.
Qed.

(** Stripping twice is stripping once. *)
Lemma strip_chars_idem l :
  drop_space_end (drop_space (drop_space_end (drop_space l)))
  = drop_space_end (drop_space l).
Proof.
  pose proof (drop_space_solid l) as H.
  destruct (drop_space l) as [|c m]; [reflexivity|].
  rewrite (drop_space_end_cons c m H), (drop_space_id c _ H).
  now rewrite (drop_space_end_cons c _ H), drop_space_end_idem.
Qed.

(** *** On strings *)

Lemma strip_idem s : strip (strip s) = strip s.
Proof. apply chars_inj. rewrite !chars_strip. apply strip_chars_idem. Qed.

Lemma strip_empty s : strip s = EmptyString <-> blank s = true.
Proof.
  unfold blank. rewrite all_chars_forallb. split.
  - intros H. apply (f_equal chars) in H. rewrite chars_strip in H.
    change (chars EmptyString) with (@nil ascii) in H.
    apply drop_space_end_nil in H.
    pose proof (drop_space_solid (chars s)) as Hs.
    destruct (drop_space (chars s)) as [|c m] eqn:E.
    + now apply drop_space_nil.
    + cbn in H. rewrite Hs in H. discriminate.
  - intros H. apply chars_inj. rewrite chars_strip.
    apply drop_space_nil in H. now rewrite H.
Qed.

Lemma truthy_strip s : truthy (Some (strip s)) = negb (blank s).
Proof.
  pose proof (strip_empty s) as H.
  destruct (strip s) as [|c t]; destruct (blank s); cbn; try reflexivity.
  - destruct H as [H _]. now specialize (H eq_refl).
  - destruct H as [_ H]. now specialize (H eq_refl).
Qed.

End StripFacts.

(** ** Credentials and env files *)

Module EnvFacts.
Import Py GenerateClientConfig EnvSpec ConfigFacts StripFacts.

Lemma validate_env_fold env keys :
  forall acc,
    fold_left
      (fun errors key =>
         let val := strip (get_default env key "") in
         if negb (truthy (Some val))
         then errors ++ ["Missing or empty credential: " +:+ key]
         else errors) keys acc
    = acc ++ map (fun key => "Missing or empty credential: " +:+ key)
               (List.filter (credential_missing env) keys).
Proof.
  induction keys as [|key keys IH]; intros acc; cbn [fold_left List.filter map].
  - now rewrite app_nil_r.
  - rewrite IH. cbv zeta. rewrite truthy_strip, negb_involutive.
    unfold credential_missing at 2, get_default.
    destruct (env !! key) as [v|].
    + destruct (blank v); cbn [map]; now rewrite <- ?app_assoc.
    + change (blank "") with true. cbn [map]. now rewrite <- app_assoc.
Qed.

Lemma validate_env_as_filter env :
  validate_env env
  = map (fun key => "Missing or empty credential: " +:+ key)
      (List.filter (credential_missing env) ENV_KEYS).
Proof. unfold validate_env. now rewrite validate_env_fold. Qed.

(** *** [parse_env_file], line by line *)

(** What one line does to the env read so far. *)
Lemma parse_env_snoc lines line :
  parse_env_lines (lines ++ [line])
  = let env := parse_env_lines lines in
    let line := strip line in
    if negb (truthy (Some line)) || startswith "#" line then env
    else match partition_eq line with
         | Some (key, value) => <[strip key := strip value]> env
         | None => env
         end.
Proof. unfold parse_env_lines. now rewrite fold_left_app. Qed.

Lemma parse_env_app_same l1 l2 l2' :
  (forall env,
     fold_left
       (fun (env : gmap string string) line =>
          let line := strip line in
          if negb (truthy (Some line)) || startswith "#" line then env
          else match partition_eq line with
               | Some (key, value) => <[strip key := strip value]> env
               | None => env
               end) l2 env
     = fold_left
         (fun (env : gmap string string) line =>
            let line := strip line in
            if negb (truthy (Some line)) || startswith "#" line then env
            else match partition_eq line with
                 | Some (key, value) => <[strip key := strip value]> env
                 | None => env
                 end) l2' env) ->
  parse_env_lines (l1 ++ l2) = parse_env_lines (l1 ++ l2').
Proof. intros H. unfold parse_env_lines. now rewrite !fold_left_app, H. Qed.

Lemma partition_eq_none s : partition_eq s = None <-> no_equals s = true.
Proof.
  unfold no_equals. induction s as [|c s IH]; cbn [partition_eq all_chars].
  - tauto.
  - destruct (code c =? 61)%N; cbn [negb andb]; [split; discriminate|].
    rewrite <- IH. destruct (partition_eq s) as [[k v]|]; split; congruence.
Qed.

Lemma partition_eq_split left right :
  no_equals left = true ->
  partition_eq (left +:+ "=" +:+ right) = Some (left, right).
Proof.
  unfold no_equals. change ("=" +:+ right) with (String "="%char right).
  induction left as [|c left IH]; intros H.
  - reflexivity.
  - cbn [all_chars] in H. apply andb_true_iff in H as [Hc H].
    apply negb_true_iff in Hc. rewrite append_cons. cbn [partition_eq].
    now rewrite Hc, (IH H).
Qed.

Lemma forallb_drop_space p l : forallb p l = true -> forallb p (drop_space l) = true.
Proof.
  induction l as [|c l IH]; cbn [drop_space forallb]; [auto|].
  intros H. apply andb_true_iff in H as [Hc H].
  destruct (isspace_char c); [auto|]. cbn. now rewrite Hc, H.
Qed.

Lemma forallb_rev {A} (p : A -> bool) l : forallb p (rev l) = forallb p l.
Proof.
  apply eq_true_iff_eq. rewrite !forallb_forall. split; intros H x Hx;
    apply H; [now apply in_rev in Hx | now apply in_rev].
Qed.

Lemma forallb_drop_space_end p l :
  forallb p l = true -> forallb p (drop_space_end l) = true.
Proof.
  intros H. unfold drop_space_end. rewrite forallb_rev.
  apply forallb_drop_space. now rewrite forallb_rev.
Qed.

Lemma no_equals_strip s : no_equals s = true -> no_equals (strip s) = true.
Proof.
  unfold no_equals. rewrite !all_chars_forallb, chars_strip. intros H.
  now apply forallb_drop_space_end, forallb_drop_space.
Qed.

Lemma startswith_hash s :
  startswith "#" s = match s with
                     | String c _ => bool_decide (c = "#"%char)
                     | EmptyString => false
                     end.
Proof.
  unfold startswith. destruct s as [|c s]; [reflexivity|].
  change "#" with (String "#"%char EmptyString).
  destruct (ascii_dec "#" c) as [<-|Hne].
  - rewrite prefix_cons_eq, bool_decide_eq_true_2 by reflexivity. now destruct s.
  - rewrite prefix_cons_ne by exact Hne.
    rewrite bool_decide_eq_false_2 by congruence. reflexivity.
Qed.

(** The first character of a stripped string is the first character that
    is not white space. *)
Lemma strip_head s :
  match lstrip s with
  | String c _ => exists t, strip s = String c t
  | EmptyString => strip s = EmptyString
  end.
Proof.
  pose proof (chars_lstrip s) as Hl. pose proof (chars_strip s) as Hs.
  pose proof (drop_space_solid (chars s)) as Hsolid.
  rewrite <- Hl in Hs, Hsolid.
  destruct (lstrip s) as [|c u]; cbn [chars list_ascii_of_string] in *.
  - apply chars_inj. rewrite Hs. reflexivity.
  - rewrite drop_space_end_cons in Hs by exact Hsolid.
    exists (string_of_list_ascii (drop_space_end (list_ascii_of_string u))).
    apply chars_inj. rewrite Hs. unfold chars. cbn [list_ascii_of_string].
    now rewrite list_ascii_of_string_of_list_ascii.
Qed.

Lemma startswith_hash_strip s :
  startswith "#" (strip s) = comment_line s.
Proof.
  unfold comment_line. rewrite !startswith_hash.
  pose proof (strip_head s) as H.
  destruct (lstrip s) as [|c u].
  - now rewrite H.
  - destruct H as (t & ->). reflexivity.
Qed.

(** A line that assigns nothing leaves the env as it is. *)
Lemma parse_env_step_nothing (env : gmap string string) line :
  assigns_nothing line = true ->
  (let line := strip line in
   if negb (truthy (Some line)) || startswith "#" line then env
   else match partition_eq line with
        | Some (key, value) => <[strip key := strip value]> env
        | None => env
        end) = env.
Proof.
  unfold assigns_nothing. cbv zeta.
  rewrite truthy_strip, negb_involutive, startswith_hash_strip.
  destruct (blank line); [reflexivity|].
  destruct (comment_line line); [reflexivity|]. cbn [orb].
  intros H. apply no_equals_strip, partition_eq_none in H. now rewrite H.
Qed.

Lemma drop_space_split l :
  exists sp, l = sp ++ drop_space l /\ forallb isspace_char sp = true.
Proof.
  induction l as [|c l (sp & Hl & Hsp)]; [exists []; auto|].
  cbn [drop_space]. destruct (isspace_char c) eqn:E.
  - exists (c :: sp). cbn. rewrite E, Hsp. split; [congruence | reflexivity].
  - exists []. auto.
Qed.

Lemma drop_space_comm l :
  drop_space (drop_space_end l) = drop_space_end (drop_space l).
Proof.
  destruct (drop_space_split l) as (sp & Hl & Hsp).
  pose proof (drop_space_solid l) as Hsolid.
  destruct (drop_space l) as [|c m] eqn:E.
  - assert (Hall : forallb isspace_char l = true) by now apply drop_space_nil.
    apply drop_space_end_nil in Hall. now rewrite Hall.
  - rewrite Hl at 1. rewrite drop_space_end_app by exact Hsolid.
    rewrite drop_space_app by exact Hsolid.
    apply drop_space_nil in Hsp. rewrite Hsp. cbn [app].
    now rewrite drop_space_end_cons.
Qed.

Lemma strip_lstrip s : strip (lstrip s) = strip s.
Proof.
  apply chars_inj. now rewrite !chars_strip, chars_lstrip, drop_space_idem.
Qed.

Lemma strip_rstrip s : strip (rstrip s) = strip s.
Proof.
  apply chars_inj. rewrite !chars_strip, chars_rstrip.
  now rewrite drop_space_comm, drop_space_end_idem.
Qed.

Lemma equals_solid : isspace_char "=" = false.
Proof. reflexivity. Qed.

(** A line with an equals sign, stripped. *)
Lemma strip_assignment left right :
  strip (left +:+ "=" +:+ right) = lstrip left +:+ "=" +:+ rstrip right.
Proof.
  apply chars_inj.
  rewrite chars_strip, !chars_app, chars_lstrip, chars_rstrip.
  change (chars "=") with ["="%char]. cbn [app].
  rewrite drop_space_app by exact equals_solid.
  destruct (drop_space_split (chars left)) as (sp & Hl & Hsp).
  now rewrite drop_space_end_app by exact equals_solid.
Qed.

Lemma comment_line_assignment left right :
  comment_line (left +:+ "=" +:+ right) = comment_line left.
Proof.
  unfold comment_line. rewrite !startswith_hash.
  assert (H : lstrip (left +:+ "=" +:+ right) = lstrip left +:+ "=" +:+ right).
  { apply chars_inj. rewrite chars_lstrip, !chars_app, chars_lstrip.
    change (chars "=") with ["="%char]. cbn [app].
    now rewrite drop_space_app by exact equals_solid. }
  rewrite H. destruct (lstrip left) as [|c u]; reflexivity.
Qed.

(** The keys and the values of the env that was read carry no white space
    at their ends. *)
Lemma parse_env_stripped lines :
  forall key value,
    parse_env_lines lines !! key = Some value ->
    strip key = key /\ strip value = value.
Proof.
  induction lines as [|line lines IH] using rev_ind; intros key value.
  - unfold parse_env_lines. cbn. rewrite lookup_empty. discriminate.
  - rewrite parse_env_snoc. cbv zeta.
    destruct (negb _ || _); [apply IH|].
    destruct (partition_eq (strip line)) as [[k v]|]; [|apply IH].
    destruct (decide (strip k = key)) as [<-|Hne].
    + rewrite lookup_insert_eq. intros [= <-]. now rewrite !strip_idem.
    + rewrite lookup_insert_ne by exact Hne. apply IH.
Qed.

(** A line that assigns nothing can be left out of the file. *)
Lemma parse_env_skip before after line :
  assigns_nothing line = true ->
  parse_env_lines (before ++ line :: after) = parse_env_lines (before ++ after).
Proof.
  intros H. apply parse_env_app_same. intros env. cbn [fold_left].
  pose proof (parse_env_step_nothing env line H) as E.
  cbv beta zeta in E |- *. now rewrite E.
Qed.

End EnvFacts.

Section EnvTheorems.
Import Py GenerateClientConfig EnvSpec ConfigFacts StripFacts EnvFacts.

(** X4. [validate_env] returns one error per key of [ENV_KEYS] that is
    absent from the env or whose value holds only white space, in the
    order of [ENV_KEYS], and nothing else; it returns the empty list
    exactly when each of the five keys has a value that is not blank. *)
Theorem validate_env_reports_blank_credentials (env : gmap string string) :
  validate_env env
  = map (fun key => "Missing or empty credential: " +:+ key)
      (List.filter (credential_missing env) ENV_KEYS)
  /\ (validate_env env = [] <->
      forall key, In key ENV_KEYS ->
        exists value, env !! key = Some value /\ blank value = false).
Proof.
  assert (Hrun : validate_env env
                 = map (fun key => "Missing or empty credential: " +:+ key)
                     (List.filter (credential_missing env) ENV_KEYS))
    by exact (validate_env_as_filter env).
  split; [exact Hrun|]. rewrite Hrun. split.
  - intros Hnil key Hkey.
    apply map_eq_nil in Hnil.
    assert (Hout : ~ In key (List.filter (credential_missing env) ENV_KEYS))
      by (rewrite Hnil; intros []).
    rewrite filter_In in Hout. unfold credential_missing in Hout.
    destruct (env !! key) as [v|]; [|tauto].
    exists v. split; [reflexivity|]. destruct (blank v); tauto.
  - intros Hall.
    destruct (List.filter (credential_missing env) ENV_KEYS) as [|key rest] eqn:E;
      [reflexivity|].
    assert (Hin : In key (List.filter (credential_missing env) ENV_KEYS))
      by (rewrite E; now left).
    apply filter_In in Hin as [Hkey Hmiss].
    destruct (Hall key Hkey) as (v & Hv & Hb).
    unfold credential_missing in Hmiss. rewrite Hv in Hmiss. congruence.
Qed.

(** X5. [parse_env_file] skips, wherever they stand in the file, the
    lines that are blank, the lines whose first character after the
    leading white space is "#", and the lines without an equals sign. *)
Theorem parse_env_skips_blank_and_comment_lines
    (before after : list string) (line : string) :
  assigns_nothing line = true ->
  parse_env_lines (before ++ line :: after) = parse_env_lines (before ++ after).
Proof.
  intros H. now apply parse_env_skip.
Qed.

Lemma parse_env_skips_blank_and_comment_lines_witness :
  assigns_nothing "  # credentials" = true
  /\ parse_env_lines (["A=1"] ++ "  # credentials" :: ["B=2"])
     = parse_env_lines (["A=1"] ++ ["B=2"]).
Proof.
  assert (H : assigns_nothing "  # credentials" = true) by reflexivity.
  split; [exact H|].
  exact (parse_env_skips_blank_and_comment_lines ["A=1"] ["B=2"] "  # credentials" H).
Defined.

(** X6. A line with an equals sign that is not a comment is an
    assignment: it is split at the first equals sign, the white space
    around the key and around the value is dropped (the value keeps any
    further equals sign), and the assignment replaces what earlier lines
    gave for the key. *)
Theorem parse_env_reads_assignment
    (lines : list string) (left right : string) :
  no_equals left = true ->
  comment_line left = false ->
  parse_env_lines (lines ++ [left +:+ "=" +:+ right])
  = <[strip left := strip right]> (parse_env_lines lines).
Proof.
  intros Hleft Hcomment. rewrite parse_env_snoc. cbv zeta.
  rewrite startswith_hash_strip, comment_line_assignment, Hcomment.
  rewrite truthy_strip, negb_involutive.
  assert (Hblank : blank (left +:+ "=" +:+ right) = false).
  { unfold blank. rewrite all_chars_forallb, !chars_app.
    apply not_true_iff_false. rewrite !forallb_app.
    change (chars "=") with ["="%char]. cbn. rewrite andb_false_r.
    discriminate. }
  rewrite Hblank. cbn [orb].
  rewrite strip_assignment, partition_eq_split.
  - now rewrite strip_lstrip, strip_rstrip.
  - unfold no_equals in *. rewrite all_chars_forallb in *. rewrite chars_lstrip.
    now apply forallb_drop_space.
Qed.

Lemma parse_env_reads_assignment_witness :
  no_equals " UNIPILE_DNS " = true
  /\ comment_line " UNIPILE_DNS " = false
  /\ parse_env_lines (["UNIPILE_DNS=old"] ++ [" UNIPILE_DNS " +:+ "=" +:+ " api1.example.com:443/a=b "])
     !! "UNIPILE_DNS" = Some "api1.example.com:443/a=b".
Proof.
  assert (H1 : no_equals " UNIPILE_DNS " = true) by reflexivity.
  assert (H2 : comment_line " UNIPILE_DNS " = false) by reflexivity.
  split; [exact H1|]. split; [exact H2|].
  rewrite (parse_env_reads_assignment ["UNIPILE_DNS=old"] " UNIPILE_DNS "
             " api1.example.com:443/a=b " H1 H2).
  vm_compute. reflexivity.
Defined.

(** X7. In the env that [parse_env_file] returns no key and no value
    starts or ends with white space, so for such an env [validate_env]
    reports a key exactly when no line gave it a value or the value is
    empty. *)
Theorem parsed_env_is_stripped (lines : list string) :
  (forall key value,
     parse_env_lines lines !! key = Some value ->
     strip key = key /\ strip value = value)
  /\ validate_env (parse_env_lines lines)
     = map (fun key => "Missing or empty credential: " +:+ key)
         (List.filter
            (fun key => negb (truthy (parse_env_lines lines !! key))) ENV_KEYS).
Proof.
  split; [apply parse_env_stripped|].
  rewrite (validate_env_as_filter (parse_env_lines lines)).
  f_equal. apply filter_ext. intros key. unfold credential_missing.
  destruct (parse_env_lines lines !! key) as [v|] eqn:E; [|reflexivity].
  apply parse_env_stripped in E as [_ Hv].
  transitivity (negb (truthy (Some (strip v)))).
  - now rewrite truthy_strip, negb_involutive.
  - now rewrite Hv.
Qed.

End EnvTheorems.

(** ** From the validator to the tables *)

Module PipelineFacts.
Import Py Date DateSpec DateFacts GenerateClientConfig SetupN8nTables
  ConfigSpec ConfigFacts TableSpec TableFacts.

Lemma valid_config_no_violation c v :
  validate_config c = [] -> ~ violated c v.
Proof.
  intros Hnil Hv. apply violated_reported in Hv. rewrite Hnil in Hv. destruct Hv.
Qed.

Lemma not_absent_is_Some (o : option string) : ~ absent_or_empty o -> is_Some o.
Proof.
  intros H. destruct o as [v|]; [eauto|]. exfalso. apply H. now left.
Qed.

(** A config without error has operators and personas with every key
    that the tables read. *)
Lemma valid_config_keys c :
  validate_config c = [] ->
  operators_of c <> [] /\ personas_of c <> []
  /\ Forall (fun op => is_Some (op !! "name") /\ is_Some (op !! "hubspot_owner_id"))
       (operators_of c)
  /\ Forall (fun p => is_Some (p !! "title_keywords") /\ is_Some (p !! "location"))
       (personas_of c).
Proof.
  intros Hnil. repeat split.
  - intros E. now apply (valid_config_no_violation c NoOperator Hnil).
  - intros E. now apply (valid_config_no_violation c NoPersona Hnil).
  - apply Forall_forall. intros op Hop.
    apply list_elem_of_lookup in Hop as [i Hi]. split; apply not_absent_is_Some.
    + intros H. apply (valid_config_no_violation c (OperatorName i) Hnil).
      cbn. eauto.
    + intros H. apply (valid_config_no_violation c (OperatorOwnerMissing i) Hnil).
      cbn. eauto.
  - apply Forall_forall. intros p Hp.
    apply list_elem_of_lookup in Hp as [i Hi]. split; apply not_absent_is_Some.
    + intros H. apply (valid_config_no_violation c (PersonaTitle i) Hnil).
      cbn. eauto.
    + intros H. apply (valid_config_no_violation c (PersonaLocation i) Hnil).
      cbn. eauto.
Qed.

Lemma personas_table_ok prefix personas :
  Forall (fun p => is_Some (p !! "title_keywords") /\ is_Some (p !! "location"))
    personas ->
  exists rows,
    personas_table prefix personas
    = Ok (prefix +:+ "-wos-personas",
          ["title_keywords"; "language"; "network_distance"; "location";
           "extra_1"; "extra_2"], rows)
    /\ Forall2 persona_row_of personas rows.
Proof.
  intros Hps.
  destruct (append_rows_ok persona_row_of persona_row personas)
    with (rows := @nil (gmap string string)) as (rows & Hrun & Hrows).
  { eapply Forall_impl; [exact Hps|]. intros p [H1 H2]. now apply persona_row_ok. }
  exists rows. unfold personas_table. rewrite Hrun. cbn. auto.
Qed.

(** [main] of the table generator on a config without error. *)
Lemma table_generator_on_valid_config
    (fs : filesystem) (today : date) (now arg_prefix dir : string) :
  let prefix := upper arg_prefix in
  let config_path := path_join dir (prefix +:+ "-client-config.json")%string in
  let env_path := path_join dir (prefix +:+ ".env")%string in
  let config := json_load fs config_path in
  path_exists fs config_path = true -> path_exists fs env_path = true ->
  validate_config config = [] ->
  valid_date today -> (toordinal today + 7 <= MAXORDINAL)%Z ->
  exists persona_rows counter_rows nm tm,
    SetupN8nTables.main fs today now arg_prefix dir
    = ([Header (default prefix (company_name config)) prefix now;
        PrintTable
          (credentials_table prefix (parse_env_lines (read_lines fs env_path)));
        PrintTable
          ((prefix +:+ "-wos-personas")%string,
           ["title_keywords"; "language"; "network_distance"; "location";
            "extra_1"; "extra_2"]%string, persona_rows);
        PrintTable
          ((prefix +:+ "-wos-user_counters")%string,
           ["user_name"; "hubspot_owner_id"; "weekly_count"; "daily_count";
            "weekly_remaining"; "daily_remaining"; "weekly_reset_date";
            "daily_reset_date"; "invite_safe_date"; "extra_1"; "extra_2";
            "extra_3"]%string, counter_rows);
        Done (length (personas_of config) + length (operators_of config) + 3)],
       Exit 0)
    /\ Forall2 persona_row_of (personas_of config) persona_rows
    /\ Forall2 (counter_row_of nm tm) (operators_of config) counter_rows
    /\ (0 < length persona_rows)%nat /\ (0 < length counter_rows)%nat.
Proof.
  cbv zeta. unfold SetupN8nTables.main. intros -> -> Hvalid Hv Hmax. cbn [negb].
  set (config := json_load fs _) in *.
  destruct (valid_config_keys config Hvalid) as (Hops & Hps & Hopkeys & Hpkeys).
  destruct (personas_table_ok (upper arg_prefix) (personas_of config) Hpkeys)
    as (prows & Hp & Hprows).
  destruct (user_counters_table_ok (upper arg_prefix) (operators_of config) today
              Hv Hmax Hopkeys)
    as (monday & tmrw & crows & _ & _ & Hc & Hcrows).
  exists prows, crows, (isoformat monday), (isoformat tmrw).
  split; [|split; [exact Hprows|split; [exact Hcrows|]]].
  - fold (personas_of config). fold (operators_of config).
    cbn [print_tables]. rewrite Hp, Hc. reflexivity.
  - apply Forall2_length in Hprows, Hcrows. split.
    + rewrite <- Hprows. destruct (personas_of config); [congruence | cbn; lia].
    + rewrite <- Hcrows. destruct (operators_of config); [congruence | cbn; lia].
Qed.

End PipelineFacts.


Section PipelineTheorems.
Import Py Date DateSpec DateFacts GenerateClientConfig SetupN8nTables
  ConfigSpec ConfigFacts TableSpec TableFacts PipelineFacts PipelineSpec.
Local Open Scope Z_scope.



(** X9. A config that [validate_config] accepts is enough for the table
    generator: when both files exist, the config loaded has no error and
    the clock is at least a week before [date.max], [main] prints the
    header, the credentials table, the personas table and the counters
    table, in this order, then the total number of rows (personas plus
    operators plus 3), and ends with status 0. The personas table has one
    row per persona and the counters table one row per operator, in the
    order of the config, and neither is empty. *)
Theorem valid_config_gives_three_tables
    (fs : filesystem) (today : date) (now arg_prefix dir : string) :
  let prefix := upper arg_prefix in
  let config_path := path_join dir (prefix +:+ "-client-config.json")%string in
  let env_path := path_join dir (prefix +:+ ".env")%string in
  let config := json_load fs config_path in
  path_exists fs config_path = true -> path_exists fs env_path = true ->
  validate_config config = [] ->
  valid_date today -> toordinal today + 7 <= MAXORDINAL ->
  exists persona_rows counter_rows nm tm,
    SetupN8nTables.main fs today now arg_prefix dir
    = ([Header (default prefix (company_name config)) prefix now;
        PrintTable
          (credentials_table prefix (parse_env_lines (read_lines fs env_path)));
        PrintTable
          ((prefix +:+ "-wos-personas")%string,
           ["title_keywords"; "language"; "network_distance"; "location";
            "extra_1"; "extra_2"]%string, persona_rows);
        PrintTable
          ((prefix +:+ "-wos-user_counters")%string,
           ["user_name"; "hubspot_owner_id"; "weekly_count"; "daily_count";
            "weekly_remaining"; "daily_remaining"; "weekly_reset_date";
            "daily_reset_date"; "invite_safe_date"; "extra_1"; "extra_2";
            "extra_3"]%string, counter_rows);
        Done (length (personas_of config) + length (operators_of config) + 3)],
       Exit 0)
    /\ Forall2 persona_row_of (personas_of config) persona_rows
    /\ Forall2 (counter_row_of nm tm) (operators_of config) counter_rows
    /\ (0 < length persona_rows)%nat /\ (0 < length counter_rows)%nat.
Proof. exact (table_generator_on_valid_config fs today now arg_prefix dir). Qed.

Lemma valid_config_gives_three_tables_witness :
  validate_config acme = []
  /\ snd (SetupN8nTables.main (acm_files acme []) wednesday "2024-01-10 09:00"
            "acm" "configs") = Exit 0.
Proof.
  assert (H : validate_config acme = []) by (vm_compute; reflexivity).
  assert (Hv : valid_date wednesday) by (vm_compute; intuition discriminate).
  assert (Hmax : toordinal wednesday + 7 <= MAXORDINAL) by (vm_compute; discriminate).
  split; [exact H|].
  destruct (valid_config_gives_three_tables (acm_files acme []) wednesday
              "2024-01-10 09:00" "acm" "configs" eq_refl eq_refl H Hv Hmax)
    as (prows & crows & nm & tm & Hmain & _).
  rewrite Hmain. reflexivity.
Defined.

(** X10. The table generator does not check the config it loads: when
    both files exist and a persona lacks title_keywords or location, it
    prints the header and the credentials table and then ends with an
    uncaught [KeyError], before the personas table and the counters
    table. *)
Theorem table_generator_stops_at_missing_key
    (fs : filesystem) (today : date) (now arg_prefix dir : string) :
  let prefix := upper arg_prefix in
  let config_path := path_join dir (prefix +:+ "-client-config.json")%string in
  let env_path := path_join dir (prefix +:+ ".env")%string in
  let config := json_load fs config_path in
  path_exists fs config_path = true -> path_exists fs env_path = true ->
  Exists (fun p => p !! "title_keywords" = None \/ p !! "location" = None)
    (personas_of config) ->
  exists k,
    (k = "title_keywords"%string \/ k = "location"%string)
    /\ SetupN8nTables.main fs today now arg_prefix dir
       = ([Header (default prefix (company_name config)) prefix now;
           PrintTable
             (credentials_table prefix (parse_env_lines (read_lines fs env_path)))],
          Uncaught (KeyError k)).
Proof.
  cbv zeta. unfold SetupN8nTables.main. intros -> -> Hex. cbn [negb].
  apply (fun H => Exists_impl _ _ _ H persona_row_missing) in Hex.
  destruct (append_rows_raise
              (fun e => e = KeyError "title_keywords" \/ e = KeyError "location")
              persona_row _ persona_row_raise Hex (@nil (gmap string string)))
    as (e & Hrun & He).
  assert (Hp : exists k,
             (k = "title_keywords"%string \/ k = "location"%string)
             /\ personas_table (upper arg_prefix)
                  (personas_of (json_load fs
                     (path_join dir (upper arg_prefix +:+ "-client-config.json"))))
                = Raise (KeyError k)).
  { unfold personas_table. rewrite Hrun. cbn.
    destruct He as [-> | ->]; eauto. }
  destruct Hp as (k & Hk & Hp). exists k. split; [exact Hk|].
  fold (personas_of (json_load fs
          (path_join dir (upper arg_prefix +:+ "-client-config.json")))).
  cbn [print_tables]. rewrite Hp. reflexivity.
Qed.

Lemma table_generator_stops_at_missing_key_witness :
  Exists (fun p => p !! "title_keywords" = None \/ p !! "location" = None)
    (personas_of acme_without_location)
  /\ exists k,
       snd (SetupN8nTables.main (acm_files acme_without_location []) wednesday
              "2024-01-10 09:00" "acm" "configs") = Uncaught (KeyError k).
Proof.
  assert (H : Exists (fun p => p !! "title_keywords" = None \/ p !! "location" = None)
                (personas_of acme_without_location)).
  { apply Exists_exists. eexists. split; [left | right; reflexivity]. }
  split; [exact H|].
  destruct (table_generator_stops_at_missing_key (acm_files acme_without_location []) wednesday
              "2024-01-10 09:00" "acm" "configs" eq_refl eq_refl H)
    as (k & _ & Hmain).
  exists k. rewrite Hmain. reflexivity.
Defined.

End PipelineTheorems.

(** ** [print_table] *)

Module PrintTableFacts.
Import Py SetupN8nTables PrintTable ConfigFacts.

Lemma length_app_string s t :
  String.length (s +:+ t) = (String.length s + String.length t)%nat.
Proof.
  induction s as [|c s IH]; [now rewrite append_nil|].
  rewrite append_cons. cbn. now rewrite IH.
Qed.

Lemma length_spaces n : String.length (spaces n) = n.
Proof. induction n; cbn; congruence. Qed.

Lemma padding_spaces n : padding (spaces n) = true.
Proof. induction n; [reflexivity | exact IHn]. Qed.

Lemma length_ljust s w :
  (String.length s <= w)%nat -> String.length (ljust s w) = w.
Proof.
  intros H. unfold ljust. rewrite length_app_string, length_spaces. lia.
Qed.

Lemma length_first_chars n s :
  (n <= String.length s)%nat -> String.length (substring 0 n s) = n.
Proof.
  revert s. induction n as [|n IH]; intros s H.
  - now destruct s.
  - destruct s as [|c s]; cbn in *; [lia|]. rewrite IH; lia.
Qed.

Lemma length_cell_text val : (String.length (cell_text val) <= 40)%nat.
Proof.
  unfold cell_text. destruct (Nat.ltb_spec 40 (String.length val)) as [H|H]; [|lia].
  rewrite length_app_string, length_first_chars by lia. cbn. lia.
Qed.

Lemma length_cell_text_min val :
  (String.length (cell_text val) = Nat.min (String.length val) 40)%nat.
Proof.
  unfold cell_text. destruct (Nat.ltb_spec 40 (String.length val)) as [H|H]; [|lia].
  rewrite length_app_string, length_first_chars by lia. cbn. lia.
Qed.

Section Loops.
Variable dash : string.

Lemma initial_widths columns c :
  foldl (fun widths col => <[col := String.length col]> widths)
    (∅ : gmap string nat) columns !! c
  = if decide (c ∈ columns) then Some (String.length c) else None.
Proof.
  assert (H : forall w : gmap string nat,
             foldl (fun widths col => <[col := String.length col]> widths) w columns !! c
             = if decide (c ∈ columns) then Some (String.length c) else w !! c).
  { induction columns as [|x xs IH]; intros w; cbn [foldl].
    - destruct (decide (c ∈ [])) as [H|_]; [inversion H | reflexivity].
    - rewrite IH. destruct (decide (c ∈ xs)) as [Hin|Hin].
      + rewrite decide_True by (now right). reflexivity.
      + destruct (decide (c = x)) as [->|Hne].
        * rewrite decide_True by left. now rewrite lookup_insert_eq.
        * rewrite lookup_insert_ne by congruence.
          rewrite decide_False; [reflexivity|].
          intros H. apply elem_of_cons in H as [?|?]; contradiction. }
  rewrite H. destruct (decide _); [reflexivity | apply lookup_empty].
Qed.

Lemma widen_columns row cs :
  forall widths : gmap string nat,
    (forall c, c ∈ cs -> is_Some (widths !! c)) ->
    exists widths',
      for_each (widen dash row) cs widths = Ok widths'
      /\ forall c,
           widths' !! c
           = if decide (c ∈ cs)
             then (fun w => Nat.max w (Nat.min (String.length (cell_value dash row c)) 40))
                    <$> widths !! c
             else widths !! c.
Proof.
  induction cs as [|x xs IH]; intros widths Hdom.
  - exists widths. split; [reflexivity|]. intros c.
    destruct (decide (c ∈ [])) as [H|_]; [inversion H | reflexivity].
  - destruct (Hdom x) as [w Hw]; [left|].
    cbn [for_each]. unfold widen at 1, getitem. rewrite Hw. cbn [rbind].
    destruct (IH (<[x := Nat.max w (Nat.min (String.length (cell_value dash row x)) 40)]>
                    widths)) as (widths' & Hrun & Hlook).
    { intros c Hc. apply lookup_insert_is_Some'. right. apply Hdom. now right. }
    exists widths'. split; [exact Hrun|]. intros c. rewrite Hlook.
    destruct (decide (c = x)) as [->|Hne].
    + rewrite lookup_insert_eq, Hw. rewrite (decide_True (P := x ∈ x :: xs)) by left.
      destruct (decide (x ∈ xs)); cbn; f_equal; lia.
    + rewrite lookup_insert_ne by congruence.
      destruct (decide (c ∈ xs)) as [Hin|Hin].
      * rewrite decide_True by (now right). reflexivity.
      * rewrite decide_False; [reflexivity|].
        intros H. apply elem_of_cons in H as [?|?]; contradiction.
Qed.

Lemma widen_rows columns rows :
  forall widths : gmap string nat,
    (forall c, c ∈ columns -> is_Some (widths !! c)) ->
    exists widths',
      for_each (fun widths row => for_each (widen dash row) columns widths) rows widths
      = Ok widths'
      /\ forall c,
           widths' !! c
           = if decide (c ∈ columns)
             then (fun w =>
                     foldl (fun w row =>
                              Nat.max w (Nat.min (String.length (cell_value dash row c)) 40))
                       w rows) <$> widths !! c
             else widths !! c.
Proof.
  induction rows as [|row rows IH]; intros widths Hdom.
  - exists widths. split; [reflexivity|]. intros c.
    destruct (decide _); [|reflexivity]. now destruct (widths !! c).
  - destruct (widen_columns row columns widths Hdom) as (w1 & Hrun1 & Hlook1).
    destruct (IH w1) as (w2 & Hrun2 & Hlook2).
    { intros c Hc. rewrite Hlook1, decide_True by exact Hc.
      destruct (Hdom c Hc) as [w ->]. cbn. eauto. }
    exists w2. split; [cbn [for_each]; rewrite Hrun1; exact Hrun2|].
    intros c. rewrite Hlook2, Hlook1.
    destruct (decide (c ∈ columns)); [|reflexivity].
    now destruct (widths !! c).
Qed.

(** The dict of the widths has an entry for every column, with the width
    given by [width_of]: no lookup in it can fail. *)
Lemma column_widths_ok columns rows :
  exists widths,
    column_widths dash columns rows = Ok widths
    /\ forall c, c ∈ columns -> widths !! c = Some (width_of dash rows c).
Proof.
  unfold column_widths.
  destruct (widen_rows columns rows
              (foldl (fun widths col => <[col := String.length col]> widths)
                 (∅ : gmap string nat) columns)) as (widths & Hrun & Hlook).
  { intros c Hc. rewrite initial_widths, decide_True by exact Hc. eauto. }
  exists widths. split; [exact Hrun|]. intros c Hc.
  rewrite Hlook, initial_widths, !decide_True by exact Hc. reflexivity.
Qed.

Lemma width_of_ge_start rows : forall w col,
  (w <= foldl (fun w row => Nat.max w (Nat.min (String.length (cell_value dash row col)) 40))
          w rows)%nat.
Proof.
  induction rows as [|row rows IH]; intros w col; cbn [foldl]; [lia|].
  etransitivity; [|apply IH]. lia.
Qed.

Lemma width_of_ge_name rows col : (String.length col <= width_of dash rows col)%nat.
Proof. apply width_of_ge_start. Qed.

Lemma width_of_ge_value rows col row :
  row ∈ rows ->
  (Nat.min (String.length (cell_value dash row col)) 40 <= width_of dash rows col)%nat.
Proof.
  unfold width_of. generalize (String.length col).
  induction rows as [|r rows IH]; intros w Hin; [inversion Hin|].
  cbn [foldl]. apply elem_of_cons in Hin as [->|Hin].
  - etransitivity; [|apply width_of_ge_start]. lia.
  - now apply IH.
Qed.

Lemma collect_ok {A B} (f : A -> result B) (g : A -> B) xs :
  (forall x, x ∈ xs -> f x = Ok (g x)) -> collect f xs = Ok (map g xs).
Proof.
  induction xs as [|x xs IH]; intros H; [reflexivity|].
  cbn [collect map]. rewrite (H x) by left. cbn [rbind].
  rewrite IH; [reflexivity|]. intros y Hy. apply H. now right.
Qed.

Lemma print_rows_ok (widths : gmap string nat) columns (g : gmap string string -> list string) rows :
  (forall row, row ∈ rows -> collect (cell dash widths row) columns = Ok (g row)) ->
  forall out,
    print_rows dash widths columns rows out = (out ++ map Cells (map g rows), None).
Proof.
  induction rows as [|row rows IH]; intros H out; cbn [print_rows map].
  - now rewrite app_nil_r.
  - rewrite (H row) by left. rewrite IH by (intros r Hr; apply H; now right).
    now rewrite <- app_assoc.
Qed.

(** [print_table] in closed form, for a table with at least one row. *)
Lemma print_table_rows name columns row rows :
  print_table dash (name, columns, row :: rows)
  = ([Blank; Rule; Title name; Rule;
      Columns (length columns) (join ", " columns); Rows (S (length rows)); Blank;
      Cells (map (fun col => ljust col (width_of dash (row :: rows) col)) columns);
      Separator (map (width_of dash (row :: rows)) columns)]
     ++ map Cells
          (map (fun r =>
                  map (fun col => ljust (cell_text (cell_value dash r col))
                                    (width_of dash (row :: rows) col)) columns)
             (row :: rows)),
     None).
Proof.
  unfold print_table.
  destruct (column_widths_ok columns (row :: rows)) as (widths & -> & Hw).
  rewrite (collect_ok _ (fun col => ljust col (width_of dash (row :: rows) col))).
  2:{ intros c Hc. unfold getitem. now rewrite (Hw c Hc). }
  rewrite (collect_ok _ (width_of dash (row :: rows))).
  2:{ intros c Hc. unfold getitem. now rewrite (Hw c Hc). }
  rewrite (print_rows_ok widths columns
             (fun r => map (fun col => ljust (cell_text (cell_value dash r col))
                                         (width_of dash (row :: rows) col)) columns)).
  - reflexivity.
  - intros r _. apply collect_ok. intros c Hc.
    unfold cell, getitem. now rewrite (Hw c Hc).
Qed.

End Loops.

Lemma width_of_complete d1 d2 rows col :
  (forall row, In row rows -> is_Some (row !! col)) ->
  width_of d1 rows col = width_of d2 rows col.
Proof.
  unfold width_of. generalize (String.length col).
  induction rows as [|row rows IH]; intros w H; [reflexivity|]. cbn [foldl].
  destruct (H row (or_introl eq_refl)) as [v Hv].
  assert (E : cell_value d1 row col = cell_value d2 row col)
    by (unfold cell_value, get_default; now rewrite Hv).
  rewrite E. apply IH. intros r Hr. apply H. now right.
Qed.

(** The placeholder does not show in the printout of a table whose rows
    have every column. *)
Lemma print_table_complete d1 d2 t :
  complete t -> print_table d1 t = print_table d2 t.
Proof.
  destruct t as [[name columns] rows]. intros Hall.
  destruct rows as [|row0 rows0]; [reflexivity|].
  rewrite !print_table_rows. set (rows := row0 :: rows0) in *.
  assert (Hw : forall col, In col columns ->
                 width_of d1 rows col = width_of d2 rows col).
  { intros col Hcol. apply width_of_complete. intros r Hr. now apply Hall. }
  assert (H1 : map (fun col => ljust col (width_of d1 rows col)) columns
               = map (fun col => ljust col (width_of d2 rows col)) columns).
  { apply map_ext_in. intros col Hcol. now rewrite Hw. }
  assert (H2 : map (width_of d1 rows) columns = map (width_of d2 rows) columns).
  { apply map_ext_in. exact Hw. }
  assert (H3 : map (fun r => map (fun col => ljust (cell_text (cell_value d1 r col))
                                                (width_of d1 rows col)) columns) rows
               = map (fun r => map (fun col => ljust (cell_text (cell_value d2 r col))
                                                  (width_of d2 rows col)) columns) rows).
  { apply map_ext_in. intros r Hr. apply map_ext_in. intros col Hcol.
    rewrite (Hw col Hcol). destruct (Hall r col Hr Hcol) as [v Hv].
    unfold cell_value, get_default. now rewrite Hv. }
  now rewrite H1, H2, H3.
Qed.

Lemma credentials_table_complete prefix env : complete (credentials_table prefix env).
Proof.
  unfold credentials_table, complete. intros row col Hrow Hcol.
  repeat (destruct Hrow as [<-|Hrow]);
    try (repeat (destruct Hcol as [<-|Hcol]); try (vm_compute; eauto; fail);
         destruct Hcol).
  destruct Hrow.
Qed.

Lemma personas_table_complete prefix personas t :
  personas_table prefix personas = Ok t -> complete t.
Proof.
  unfold personas_table.
  destruct (append_rows _ _ _) as [out|] eqn:Hrun; cbn; [|discriminate].
  intros [= <-]. intros row col Hrow Hcol.
  apply TableFacts.append_rows_inv in Hrun as [_ Hin].
  destruct (Hin row Hrow) as [[]|(p & _ & Hp)].
  unfold persona_row, getitem in Hp.
  destruct (p !! "title_keywords"); cbn in Hp; try discriminate.
  destruct (p !! "location"); cbn in Hp; try discriminate.
  injection Hp as <-.
  repeat (destruct Hcol as [<-|Hcol]); try (vm_compute; eauto; fail).
  destruct Hcol.
Qed.

Lemma user_counters_table_complete prefix operators today t :
  user_counters_table prefix operators today = Ok t -> complete t.
Proof.
  unfold user_counters_table.
  destruct (next_monday today) as [nm|]; cbn; [|discriminate].
  destruct (tomorrow today) as [tm|]; cbn; [|discriminate].
  destruct (append_rows _ _ _) as [out|] eqn:Hrun; cbn; [|discriminate].
  intros [= <-]. intros row col Hrow Hcol.
  apply TableFacts.append_rows_inv in Hrun as [_ Hin].
  destruct (Hin row Hrow) as [[]|(op & _ & Hop)].
  unfold counter_row, getitem in Hop.
  destruct (op !! "name"); cbn in Hop; try discriminate.
  destruct (op !! "hubspot_owner_id"); cbn in Hop; try discriminate.
  injection Hop as <-.
  repeat (destruct Hcol as [<-|Hcol]); try (vm_compute; eauto; fail).
  destruct Hcol.
Qed.

End PrintTableFacts.

Section PrintTableTheorems.
Import Py SetupN8nTables PrintTable PrintTableFacts ConfigFacts.

(** X11. [print_table] never fails on a lookup in its dict of widths, and
    the table it prints is aligned: for a table with at least one row
    it prints the seven lines of the heading, then one line of cells for
    the column names, one separator line and one line of cells per row,
    and in each of these lines the entry of a column has the same length,
    the width of the column: the length of the column name or of the
    longest value in the column cut at 40, whichever is larger. For every
    table the call ends without exception. *)
Theorem print_table_aligned (dash name : string) (columns : list string)
    (rows : list (gmap string string)) :
  snd (print_table dash (name, columns, rows)) = None
  /\ (rows <> [] ->
      exists header widths body,
        fst (print_table dash (name, columns, rows))
        = [Blank; Rule; Title name; Rule;
           Columns (length columns) (join ", " columns); Rows (length rows); Blank;
           Cells header; Separator widths] ++ map Cells body
        /\ widths = map (width_of dash rows) columns
        /\ map String.length header = widths
        /\ length body = length rows
        /\ Forall (fun cells => map String.length cells = widths) body).
Proof.
  destruct rows as [|row rows].
  - split; [reflexivity | congruence].
  - rewrite print_table_rows. split; [reflexivity|]. intros _.
    eexists _, _, _. split; [reflexivity|]. split; [reflexivity|].
    split; [|split].
    + rewrite map_map. apply map_ext. intros col.
      apply length_ljust, width_of_ge_name.
    + now rewrite length_map.
    + apply Forall_forall. intros cells Hin.
      apply list_elem_of_fmap in Hin as (r & -> & Hr).
      rewrite map_map. apply map_ext. intros col.
      apply length_ljust. rewrite length_cell_text_min. now apply width_of_ge_value.
Qed.

Lemma print_table_aligned_witness :
  exists header widths body,
    fst (print_table "-" (credentials_table "ACM" ∅))
    = [Blank; Rule; Title "ACM-wos-credentials"; Rule;
       Columns 6 "service, api_key, account_id, dns, extra_1, extra_2"; Rows 3; Blank;
       Cells header; Separator widths] ++ map Cells body
    /\ map String.length header = widths
    /\ widths = [7; 7; 10; 3; 7; 7]%nat.
Proof.
  destruct (proj2 (print_table_aligned "-" "ACM-wos-credentials"
                     ["service"; "api_key"; "account_id"; "dns"; "extra_1"; "extra_2"]
                     (snd (credentials_table "ACM" ∅)))
              ltac:(discriminate))
    as (header & widths & body & Hout & Hw & Hh & _).
  exists header, widths, body. split; [exact Hout|]. split; [exact Hh|].
  rewrite Hw. vm_compute. reflexivity.
Defined.

(** X12. What a cell of the printed table shows: the cell of row [i] and
    column [j] is the value of the row for that column when the value has
    at most 40 characters, and the first 37 characters of the value
    followed by three dots when it is longer, in both cases followed by
    spaces only. A value longer than 40 characters, such as a long API
    key in the credentials table, is never printed in full. *)
Theorem print_table_cuts_long_values (dash name : string) (columns : list string)
    (rows : list (gmap string string)) (i j : nat)
    (row : gmap string string) (col : string) :
  rows !! i = Some row -> columns !! j = Some col ->
  exists before cells after text pad,
    fst (print_table dash (name, columns, rows))
    = before ++ Cells cells :: after
    /\ length before = (9 + i)%nat
    /\ cells !! j = Some (text +:+ pad)
    /\ padding pad = true
    /\ text = (if (40 <? String.length (cell_value dash row col))%nat
               then substring 0 37 (cell_value dash row col) +:+ "..."
               else cell_value dash row col)
    /\ (String.length text <= 40)%nat.
Proof.
  intros Hrow Hcol. destruct rows as [|r0 rows0]; [discriminate|].
  rewrite print_table_rows. set (rows := r0 :: rows0) in *.
  set (g := fun r => map (fun col => ljust (cell_text (cell_value dash r col))
                                       (width_of dash rows col)) columns).
  exists ([Blank; Rule; Title name; Rule;
           Columns (length columns) (join ", " columns); Rows (S (length rows0)); Blank;
           Cells (map (fun col => ljust col (width_of dash rows col)) columns);
           Separator (map (width_of dash rows) columns)]
          ++ map Cells (map g (take i rows))),
         (g row), (map Cells (map g (drop (S i) rows))),
         (cell_text (cell_value dash row col)),
         (spaces (width_of dash rows col - String.length (cell_text (cell_value dash row col)))).
  split; [|split; [|split; [|split; [|split]]]].
  - cbn [fst]. rewrite <- app_assoc. f_equal.
    rewrite <- (take_drop_middle rows i row Hrow) at 1.
    now rewrite !map_app.
  - rewrite length_app, !length_map, length_take.
    apply lookup_lt_Some in Hrow. cbn [length] in *. lia.
  - unfold g. change (map ?f columns) with (f <$> columns).
    rewrite list_lookup_fmap, Hcol. reflexivity.
  - apply padding_spaces.
  - reflexivity.
  - apply length_cell_text.
Qed.

Lemma print_table_cuts_long_values_witness :
  exists cells text pad,
    In (Cells cells)
      (fst (print_table "-"
              (credentials_table "ACM"
                 {[ "HUBSPOT_TOKEN" :=
                      "pat-na1-0123456789abcdef0123456789abcdef0123" ]})))
    /\ cells !! 1%nat = Some (text +:+ pad)
    /\ text = "pat-na1-0123456789abcdef0123456789abc...".
Proof.
  destruct (print_table_cuts_long_values "-" "ACM-wos-credentials"
              ["service"; "api_key"; "account_id"; "dns"; "extra_1"; "extra_2"]
              (snd (credentials_table "ACM"
                      {[ "HUBSPOT_TOKEN" :=
                           "pat-na1-0123456789abcdef0123456789abcdef0123" ]}))
              0 1 _ "api_key" eq_refl eq_refl)
    as (before & cells & after & text & pad & Hout & _ & Hcell & _ & Htext & _).
  exists cells, text, pad. split; [|split; [exact Hcell|]].
  - change (credentials_table "ACM" _)
      with ("ACM-wos-credentials",
            ["service"; "api_key"; "account_id"; "dns"; "extra_1"; "extra_2"],
            snd (credentials_table "ACM"
                   {[ "HUBSPOT_TOKEN" :=
                        "pat-na1-0123456789abcdef0123456789abcdef0123" ]})).
    rewrite Hout. apply in_elt.
  - rewrite Htext. vm_compute. reflexivity.
Defined.

(** X13. The placeholder that [print_table] shows for a column that a
    row lacks never appears in the printout of the three tables of the
    script: the rows that [credentials_table], [personas_table] and
    [user_counters_table] build have a value for every column, and for
    such a table the printout is the same whatever the placeholder. *)
Theorem generated_tables_show_no_placeholder
    (dash other prefix : string) (env : gmap string string)
    (personas operators : list (gmap string string)) (today : Date.date) :
  print_table dash (credentials_table prefix env)
  = print_table other (credentials_table prefix env)
  /\ (forall t, personas_table prefix personas = Ok t ->
       complete t /\ print_table dash t = print_table other t)
  /\ (forall t, user_counters_table prefix operators today = Ok t ->
       complete t /\ print_table dash t = print_table other t).
Proof.
  split; [|split].
  - apply print_table_complete, credentials_table_complete.
  - intros t Ht. apply personas_table_complete in Ht.
    split; [exact Ht | now apply print_table_complete].
  - intros t Ht. apply user_counters_table_complete in Ht.
    split; [exact Ht | now apply print_table_complete].
Qed.

End PrintTableTheorems.

(** ** The interactive mode *)

Module InteractiveFacts.
Import Py GenerateClientConfig ConfigSpec ConfigFacts Interactive InteractiveSpec.

Lemma spec_ret {A} n (a : A) (Q : A -> nat -> Prop) : Q a 0 -> spec n (ret a) Q.
Proof. intros HQ t _. cbn. exists 0. auto. Qed.

Lemma spec_bind {A B} n (m : console A) (k : A -> console B)
    (P : A -> nat -> Prop) (Q : B -> nat -> Prop) :
  spec n m P ->
  (forall a c1, P a c1 -> spec n (k a) (fun b c2 => Q b (c1 + c2))) ->
  spec n (bind m k) Q.
Proof.
  intros Hm Hk t Ht. unfold bind. specialize (Hm t Ht).
  destruct (m t) as [a t'|h t']; [|exact Hm].
  destruct Hm as (c1 & Hlen & HP).
  assert (Ht' : length (stdin t') < n) by lia.
  specialize (Hk a c1 HP t' Ht').
  destruct (k a t') as [b t''|h t'']; [|exact Hk].
  destruct Hk as (c2 & Hlen2 & HQ). exists (c1 + c2). split; [lia | exact HQ].
Qed.

Lemma spec_print n msg (Q : unit -> nat -> Prop) : Q tt 0 -> spec n (print msg) Q.
Proof. intros HQ t _. cbn. exists 0. auto. Qed.

Lemma spec_input n prompt (Q : string -> nat -> Prop) :
  (forall l, Q l 1) -> spec n (input prompt) Q.
Proof.
  intros HQ t _. unfold input. destruct (stdin t) as [|l rest]; cbn.
  - auto.
  - exists 1. split; [reflexivity | apply HQ].
Qed.

Lemma spec_weaken {A} n (m : console A) (P Q : A -> nat -> Prop) :
  spec n m P -> (forall a c, P a c -> Q a c) -> spec n m Q.
Proof.
  intros Hm HPQ t Ht. specialize (Hm t Ht).
  destruct (m t) as [a t'|h t']; [|exact Hm].
  destruct Hm as (c & Hlen & HP). eauto.
Qed.

(** A loop whose turns read a line before they go round again ends, by
    a return or at the end of the input, when it has more turns than
    there are lines. *)
Lemma spec_loop {S R} n (body : S -> console (S + R)) (I : S -> Prop)
    (Q : R -> Prop) :
  (forall s, I s ->
     spec n (body s)
       (fun r c => match r with inl s' => I s' /\ 0 < c | inr r => Q r end)) ->
  forall fuel s, fuel <= n -> I s ->
    spec fuel (loop fuel body s) (fun r _ => Q r).
Proof.
  intros Hbody. induction fuel as [|fuel IH]; intros s Hle HI t Ht; [lia|].
  cbn [loop].
  assert (Hn : length (stdin t) < n) by lia.
  specialize (Hbody s HI t Hn).
  destruct (body s t) as [[s'|r] t'|h t']; [| |exact Hbody].
  - destruct Hbody as (c & Hlen & HI' & Hc).
    assert (Ht' : length (stdin t') < fuel) by lia.
    specialize (IH s' ltac:(lia) HI' t' Ht').
    destruct (loop fuel body s' t') as [r t''|h t'']; [|exact IH].
    destruct IH as (c' & Hlen' & HQ). exists (c + c'). split; [lia | exact HQ].
  - destruct Hbody as (c & Hlen & HQ). eauto.
Qed.

Lemma spec_ask_again n bad prompt post v :
  spec n (ask_again n bad prompt post v) (fun r _ => bad r = false).
Proof.
  unfold ask_again.
  apply (spec_loop n _ (fun _ => True) (fun r => bad r = false)); [|lia|exact I].
  intros s _. destruct (bad s) eqn:Hbad.
  - eapply spec_bind; [apply spec_input with (Q := fun _ c => c = 1); reflexivity|].
    intros l c ->. apply spec_ret. split; [exact I | lia].
  - apply spec_ret. exact Hbad.
Qed.

Lemma nonempty_false {A} (l : list A) : nonempty l = false -> l = [].
Proof. now destruct l. Qed.

Lemma spec_prompt_basic_info n :
  spec n (prompt_basic_info n)
    (fun r _ => truthy (Some (fst r)) = true /\ validate_prefix (snd r) = []).
Proof.
  unfold prompt_basic_info.
  eapply spec_bind; [apply spec_print with (Q := fun _ _ => True); exact I|].
  intros _ c0 _.
  eapply spec_bind; [apply spec_input with (Q := fun _ _ => True); auto|].
  intros l c1 _.
  eapply spec_bind; [apply spec_ask_again|]. cbv beta.
  intros company_name c2 Hcompany.
  eapply spec_bind; [apply spec_input with (Q := fun _ _ => True); auto|].
  intros l' c3 _.
  eapply spec_bind; [apply spec_ask_again|]. cbv beta.
  intros prefix c4 Hprefix.
  apply spec_ret. cbn [fst snd]. split.
  - now apply negb_false_iff.
  - now apply nonempty_false.
Qed.

Lemma spec_operators_turn n operators idx :
  Forall good_operator operators ->
  spec n (operators_turn n (operators, idx))
    (fun r c =>
       match r with
       | inl s' => Forall good_operator (fst s') /\ 0 < c
       | inr ops => ops <> [] /\ Forall good_operator ops
       end).
Proof.
  intros Hgood. unfold operators_turn.
  eapply spec_bind; [apply spec_input with (Q := fun _ c => c = 1); reflexivity|].
  intros l c ->. cbv zeta.
  destruct (truthy (Some (strip l))) eqn:Hname; cbn [negb].
  - eapply spec_bind; [apply spec_input with (Q := fun _ _ => True); auto|].
    intros l' c1 _.
    eapply spec_bind; [apply spec_ask_again|]. cbv beta.
    intros owner_id c2 Hdigit. apply negb_false_iff in Hdigit.
    apply spec_ret. cbn [fst]. split; [|lia].
    apply Forall_app. split; [exact Hgood|].
    apply Forall_cons. split; [|apply Forall_nil; exact I]. split.
    + rewrite lookup_insert_eq. exact Hname.
    + exists owner_id. split; [|exact Hdigit].
      rewrite lookup_insert_ne by discriminate. apply lookup_singleton_eq.
  - destruct operators as [|op ops]; cbn [nonempty negb].
    + eapply spec_bind; [apply spec_print with (Q := fun _ _ => True); exact I|].
      intros _ c _. apply spec_ret. cbn [fst]. split; [exact Hgood | lia].
    + apply spec_ret. split; [discriminate | exact Hgood].
Qed.

Lemma spec_prompt_operators n :
  spec n (prompt_operators n)
    (fun ops _ => ops <> [] /\ Forall good_operator ops).
Proof.
  unfold prompt_operators.
  eapply spec_bind; [apply spec_print with (Q := fun _ _ => True); exact I|].
  intros _ c0 _.
  eapply spec_bind; [apply spec_print with (Q := fun _ _ => True); exact I|].
  intros _ c1 _.
  eapply spec_weaken.
  - apply (spec_loop n _ (fun s => Forall good_operator (fst s))
             (fun ops => ops <> [] /\ Forall good_operator ops)).
    + intros [operators idx] Hgood. apply spec_operators_turn. exact Hgood.
    + lia.
    + apply Forall_nil. exact I.
  - auto.
Qed.

Lemma truthy_or_default s dflt :
  truthy (Some dflt) = true -> truthy (Some (or_default s dflt)) = true.
Proof. unfold or_default. destruct (truthy (Some s)) eqn:E; auto. Qed.

Lemma spec_personas_turn n personas idx :
  Forall good_persona personas ->
  spec n (personas_turn n (personas, idx))
    (fun r c =>
       match r with
       | inl s' => Forall good_persona (fst s') /\ 0 < c
       | inr ps => ps <> [] /\ Forall good_persona ps
       end).
Proof.
  intros Hgood. unfold personas_turn.
  eapply spec_bind; [apply spec_input with (Q := fun _ c => c = 1); reflexivity|].
  intros l c ->. cbv zeta.
  destruct (truthy (Some (strip l))) eqn:Htitle; cbn [negb].
  - eapply spec_bind; [apply spec_input with (Q := fun _ _ => True); auto|].
    intros l1 c1 _.
    eapply spec_bind; [apply spec_input with (Q := fun _ _ => True); auto|].
    intros l2 c2 _.
    eapply spec_bind; [apply spec_input with (Q := fun _ _ => True); auto|].
    intros l3 c3 _.
    eapply spec_bind; [apply spec_ask_again|]. cbv beta.
    intros location c4 Hloc. apply negb_false_iff in Hloc.
    apply spec_ret. cbn [fst]. split; [|lia].
    apply Forall_app. split; [exact Hgood|].
    apply Forall_cons. split; [|apply Forall_nil; exact I]. split.
    + rewrite lookup_insert_eq. exact Htitle.
    + rewrite !lookup_insert_ne by discriminate. rewrite lookup_singleton_eq.
      exact Hloc.
  - destruct personas as [|p ps]; cbn [nonempty negb].
    + eapply spec_bind; [apply spec_print with (Q := fun _ _ => True); exact I|].
      intros _ c _. apply spec_ret. cbn [fst]. split; [exact Hgood | lia].
    + apply spec_ret. split; [discriminate | exact Hgood].
Qed.

Lemma spec_prompt_personas n :
  spec n (prompt_personas n)
    (fun ps _ => ps <> [] /\ Forall good_persona ps).
Proof.
  unfold prompt_personas.
  eapply spec_bind; [apply spec_print with (Q := fun _ _ => True); exact I|].
  intros _ c0 _.
  eapply spec_bind; [apply spec_print with (Q := fun _ _ => True); exact I|].
  intros _ c1 _.
  eapply spec_weaken.
  - apply (spec_loop n _ (fun s => Forall good_persona (fst s))
             (fun ps => ps <> [] /\ Forall good_persona ps)).
    + intros [personas idx] Hgood. apply spec_personas_turn. exact Hgood.
    + lia.
    + apply Forall_nil. exact I.
  - auto.
Qed.

Lemma flat_map_nil {A B} (f : A -> list B) (l : list A) :
  (forall x, In x l -> f x = []) -> flat_map f l = [].
Proof.
  induction l as [|x l IH]; intros H; [reflexivity|].
  cbn. rewrite (H x) by now left. apply IH. intros y Hy. apply H. now right.
Qed.

(** What the prompts collect is a config without error. *)
Lemma collected_config_valid company_name prefix operators personas :
  truthy (Some company_name) = true ->
  validate_prefix prefix = [] ->
  operators <> [] -> Forall good_operator operators ->
  personas <> [] -> Forall good_persona personas ->
  validate_config
    {| GenerateClientConfig.company_name := Some company_name;
       GenerateClientConfig.prefix := Some prefix;
       GenerateClientConfig.operators := Some operators;
       GenerateClientConfig.personas := Some personas |} = [].
Proof.
  intros Hcompany Hprefix Hops Hgood_ops Hps Hgood_ps.
  rewrite validate_config_messages. unfold violations, operators_of, personas_of.
  cbn [GenerateClientConfig.company_name GenerateClientConfig.prefix
       GenerateClientConfig.operators GenerateClientConfig.personas default
       from_option id].
  rewrite Hcompany.
  assert (Hmatch : fullmatch PREFIX_RE prefix = true).
  { apply fullmatch_prefix_re. now apply validate_prefix_nil. }
  destruct prefix as [|a s]; [discriminate Hmatch|].
  cbn [truthy]. rewrite Hmatch.
  destruct operators as [|op ops]; [congruence|].
  destruct personas as [|p ps]; [congruence|].
  rewrite !flat_map_nil; [reflexivity| |].
  - intros [i x] Hin. apply in_enumerate in Hin.
    apply list_elem_of_lookup_2 in Hin.
    rewrite Forall_forall in Hgood_ps. destruct (Hgood_ps x Hin) as [H1 H2].
    cbn [persona_violations]. now rewrite H1, H2.
  - intros [i x] Hin. apply in_enumerate in Hin.
    apply list_elem_of_lookup_2 in Hin.
    rewrite Forall_forall in Hgood_ops.
    destruct (Hgood_ops x Hin) as (H1 & owner_id & H2 & H3).
    cbn [operator_violations]. rewrite H1, H2.
    destruct owner_id as [|b r]; [discriminate H3|]. now rewrite H3.
Qed.

End InteractiveFacts.

Module InteractiveRuns.
Import Py GenerateClientConfig ConfigSpec ConfigFacts Interactive InteractiveSpec
  InteractiveFacts.

Lemma append_inj_l s t u : s +:+ t = s +:+ u -> t = u.
Proof.
  induction s as [|c s IH]; [now rewrite !append_nil|].
  rewrite !append_cons. intros [= H]. auto.
Qed.

Lemma startswith_slash_app p s t :
  s <> "" -> t <> "" ->
  startswith "/" (p +:+ s) = startswith "/" (p +:+ t)
  \/ p = "".
Proof.
  intros Hs Ht. destruct p as [|c p]; [now right|]. left.
  rewrite !append_cons. unfold startswith.
  destruct (ascii_dec "/" c) as [<-|Hne].
  - rewrite !prefix_cons_eq. now destruct (p +:+ s), (p +:+ t).
  - now rewrite !prefix_cons_ne by exact Hne.
Qed.

(** The config file and the env file of a prefix are two files. *)
Lemma env_path_not_config_path dir prefix :
  path_join dir (prefix +:+ ".env")
  <> path_join dir (prefix +:+ "-client-config.json").
Proof.
  unfold path_join.
  destruct (startswith_slash_app prefix ".env" "-client-config.json")
    as [E | ->]; [discriminate | discriminate | |].
  - rewrite E. destruct (startswith "/" (prefix +:+ "-client-config.json")).
    + intros H. now apply append_inj_l in H.
    + destruct ((String.length dir =? 0)%nat || ends_with_slash dir).
      * intros H. apply append_inj_l in H. now apply append_inj_l in H.
      * intros H. apply append_inj_l in H.
        rewrite !append_cons, !append_nil in H. injection H as H.
        now apply append_inj_l in H.
  - rewrite !append_nil.
    change (startswith "/" ".env") with false.
    change (startswith "/" "-client-config.json") with false. cbv iota.
    destruct ((String.length dir =? 0)%nat || ends_with_slash dir).
    + intros H. now apply append_inj_l in H.
    + intros H. apply append_inj_l in H. discriminate H.
Qed.

Lemma eqb_env_config dir prefix :
  String.eqb (path_join dir (prefix +:+ ".env"))
             (path_join dir (prefix +:+ "-client-config.json")) = false.
Proof. apply String.eqb_neq, env_path_not_config_path. Qed.

(** [run_interactive] returns only after it has written a config without
    error; it stops early only at the end of the input. *)
Lemma spec_interactive dash fs dir n :
  spec n (interactive dash fs dir n)
    (fun fs' _ =>
       exists config prefix,
         validate_config config = []
         /\ GenerateClientConfig.prefix config = Some prefix
         /\ validate_prefix prefix = []
         /\ (forall p,
               path_exists fs' p
               = String.eqb p (path_join dir (prefix +:+ "-client-config.json"))
                 || String.eqb p (path_join dir (prefix +:+ ".env"))
                 || path_exists fs p)
         /\ (forall p,
               json_load fs' p
               = if String.eqb p (path_join dir (prefix +:+ "-client-config.json"))
                 then config else json_load fs p)
         /\ (forall p,
               read_lines fs' p
               = if String.eqb p (path_join dir (prefix +:+ ".env"))
                    && negb (path_exists fs (path_join dir (prefix +:+ ".env")))
                 then env_template dash else read_lines fs p)).
Proof.
  unfold interactive.
  eapply spec_bind; [apply spec_prompt_basic_info|]. cbv beta.
  intros [company_name prefix] c0 [Hcompany Hprefix]. cbn [fst snd] in *.
  eapply spec_bind; [apply spec_prompt_operators|]. cbv beta.
  intros operators c1 [Hops Hgood_ops].
  eapply spec_bind; [apply spec_prompt_personas|]. cbv beta.
  intros personas c2 [Hps Hgood_ps]. cbv zeta.
  rewrite (collected_config_valid company_name prefix operators personas)
    by assumption.
  cbn [nonempty].
  set (config := {| GenerateClientConfig.company_name := Some company_name;
                    GenerateClientConfig.prefix := Some prefix;
                    GenerateClientConfig.operators := Some operators;
                    GenerateClientConfig.personas := Some personas |}).
  assert (Hvalid : validate_config config = [])
    by (now apply collected_config_valid).
  intros t Ht. unfold write_config, write_env_template, bind, print, ret.
  cbn [path_exists]. rewrite eqb_env_config. cbn [orb].
  destruct (path_exists fs (path_join dir (prefix +:+ ".env"))) eqn:Henv;
    cbn [negb stdin].
  - exists 0. split; [reflexivity|]. exists config, prefix.
    repeat split; try assumption; intros p; cbn [path_exists json_load read_lines];
      try reflexivity.
    + destruct (String.eqb_spec p (path_join dir (prefix +:+ ".env"))) as [->|_];
        [|now rewrite orb_false_r].
      rewrite Henv. now rewrite !orb_true_r.
    + rewrite Henv. now rewrite andb_false_r.
  - exists 0. split; [lia|]. exists config, prefix.
    repeat split; try assumption; intros p; cbn [path_exists json_load read_lines];
      try reflexivity.
    + destruct (String.eqb p (path_join dir (prefix +:+ ".env")));
        destruct (String.eqb p (path_join dir (prefix +:+ "-client-config.json")));
        reflexivity.
    + rewrite Henv. now rewrite andb_true_r.
Qed.

Lemma run_interactive_spec dash fs dir t :
  match run_interactive dash fs dir t with
  | Got fs' t' =>
      exists config prefix,
        validate_config config = []
        /\ GenerateClientConfig.prefix config = Some prefix
        /\ validate_prefix prefix = []
        /\ (forall p,
              path_exists fs' p
              = String.eqb p (path_join dir (prefix +:+ "-client-config.json"))
                || String.eqb p (path_join dir (prefix +:+ ".env"))
                || path_exists fs p)
        /\ (forall p,
              json_load fs' p
              = if String.eqb p (path_join dir (prefix +:+ "-client-config.json"))
                then config else json_load fs p)
        /\ (forall p,
              read_lines fs' p
              = if String.eqb p (path_join dir (prefix +:+ ".env"))
                   && negb (path_exists fs (path_join dir (prefix +:+ ".env")))
                then env_template dash else read_lines fs p)
  | Halt h t' => h = EOFError /\ stdin t' = []
  end.
Proof.
  unfold run_interactive.
  pose proof (spec_interactive dash fs dir (S (length (stdin t))) t
                (Nat.lt_succ_diag_r _)) as H.
  destruct (interactive dash fs dir (S (length (stdin t))) t) as [fs' t'|h t'];
    [|exact H].
  destruct H as (c & _ & H). exact H.
Qed.

End InteractiveRuns.

Module InteractiveRoundTrip.
Import Py Date GenerateClientConfig SetupN8nTables ConfigSpec ConfigFacts
  EnvSpec StripFacts EnvFacts Interactive InteractiveSpec InteractiveFacts
  InteractiveRuns.

Lemma upper_char_uppercase c :
  uppercase_ascii_letter c = true -> upper_char c = String c "".
Proof.
  destruct c as [[] [] [] [] [] [] [] []]; vm_compute; congruence.
Qed.

(** [str.upper] leaves a string of uppercase ASCII letters as it is. *)
Lemma upper_uppercase s :
  all_chars uppercase_ascii_letter s = true -> upper s = s.
Proof.
  induction s as [|c s IH]; [reflexivity|]. cbn [all_chars upper].
  intros [Hc Hs]%andb_true_iff.
  rewrite (upper_char_uppercase c Hc), (IH Hs).
  now rewrite append_cons, append_nil.
Qed.

Lemma upper_valid_prefix p : validate_prefix p = [] -> upper p = p.
Proof. intros H. apply validate_prefix_nil in H as [_ H]. now apply upper_uppercase. Qed.

(** The template has the five keys, each with the empty value: every
    credential is reported. *)
Lemma template_credentials dash :
  parse_env_lines (env_template dash)
  = parse_env_lines (map (fun key => key +:+ "=" +:+ newline) ENV_KEYS).
Proof.
  unfold env_template. cbn [app].
  etransitivity; [apply (parse_env_skip [] _ _); reflexivity|]. cbn [app].
  apply (parse_env_skip [] _ _).
  unfold assigns_nothing, comment_line. rewrite append_cons. cbn [lstrip].
  change (isspace_char "#") with false. cbv iota.
  unfold startswith. rewrite prefix_cons_eq.
  destruct (_ +:+ _); now rewrite orb_true_r.
Qed.

Lemma template_errors dash :
  validate_env (parse_env_lines (env_template dash))
  = map (fun key => "Missing or empty credential: " +:+ key) ENV_KEYS.
Proof. rewrite template_credentials. vm_compute. reflexivity. Qed.

Lemma template_table dash prefix :
  credentials_table prefix (parse_env_lines (env_template dash))
  = credentials_table prefix ∅.
Proof.
  rewrite template_credentials. unfold credentials_table.
  repeat match goal with
         | |- context [get_default ?env ?k ""] =>
             change (get_default env k "") with ""
         end.
  reflexivity.
Qed.

End InteractiveRoundTrip.

Section InteractiveTheorems.
Import Py Date DateSpec GenerateClientConfig SetupN8nTables ConfigSpec ConfigFacts
  EnvSpec StripFacts EnvFacts PipelineFacts Interactive InteractiveSpec
  InteractiveFacts InteractiveRuns InteractiveRoundTrip.
Local Open Scope Z_scope.



(** X15. What the interactive mode writes is what [--validate] reads:
    after a run of [run_interactive] that returned, [run_validate] for the
    same prefix and directory finds both files and no error in the
    config, so that its errors are those of the env file alone. For a
    client without env file before the run these are the five missing
    credentials of the template, and the status is 1 until they are
    filled in. *)
Theorem validate_after_interactive_mode
    (dash : string) (fs : filesystem) (dir : string) (t : terminal)
    (fs' : filesystem) (t' : terminal) :
  run_interactive dash fs dir t = Got fs' t' ->
  exists prefix,
    let config_path := path_join dir (prefix +:+ "-client-config.json")%string in
    let env_path := path_join dir (prefix +:+ ".env")%string in
    let env_errors := validate_env (parse_env_lines (read_lines fs' env_path)) in
    GenerateClientConfig.prefix (json_load fs' config_path) = Some prefix
    /\ upper prefix = prefix
    /\ run_validate fs' prefix dir
       = ([Validating prefix; Found config_path; Found env_path]
          ++ match env_errors with
             | [] => [AllChecksPassed]
             | _ => ErrorCount (length env_errors) :: map ErrorLine env_errors
             end,
          match env_errors with [] => 0 | _ => 1 end)
    /\ (path_exists fs env_path = false ->
        env_errors
        = map (fun key => "Missing or empty credential: " +:+ key)%string ENV_KEYS)
    /\ (path_exists fs env_path = true ->
        env_errors = validate_env (parse_env_lines (read_lines fs env_path))).
Proof.
  intros Hrun. pose proof (run_interactive_spec dash fs dir t) as H.
  rewrite Hrun in H.
  destruct H as (config & prefix & Hvalid & Hprefix & Hshape & Hex & Hjson & Hlines).
  exists prefix. cbv zeta.
  split; [rewrite Hjson, String.eqb_refl; exact Hprefix|].
  split; [now apply upper_valid_prefix|].
  split; [|split].
  - unfold run_validate.
    rewrite !Hex, Hjson, !String.eqb_refl, orb_true_r, Hvalid. cbn [orb negb app].
    now destruct (validate_env _).
  - intros Henv. rewrite Hlines, String.eqb_refl, Henv. cbn [negb andb].
    apply template_errors.
  - intros Henv. rewrite Hlines, String.eqb_refl, Henv. reflexivity.
Qed.

Lemma validate_after_interactive_mode_witness :
  exists fs' t' prefix,
    run_interactive "-" no_files "configs" session = Got fs' t'
    /\ snd (run_validate fs' prefix "configs") = 1.
Proof.
  assert (Hgot : returned (run_interactive "-" no_files "configs" session) = true)
    by (vm_compute; reflexivity).
  destruct (run_interactive "-" no_files "configs" session) as [fs' t'|h t'] eqn:E;
    [|discriminate Hgot].
  destruct (validate_after_interactive_mode "-" no_files "configs" session fs' t' E)
    as (prefix & _ & _ & Hreport & Hfresh & _).
  exists fs', t', prefix. split; [reflexivity|].
  rewrite Hreport, (Hfresh eq_refl). reflexivity.
Defined.

(** X16. What the interactive mode writes is enough for the table
    generator: after a run of [run_interactive] that returned, and with
    the clock at least a week before [date.max], [main] of
    setup_n8n_tables.py for the same prefix and directory prints the
    header, the three tables and the number of rows, and ends with status
    0, with at least one persona row and one counter row. For a client
    without env file before the run, the credentials table is the one of
    the empty env: it has no credential until the template is filled
    in. *)
Theorem tables_after_interactive_mode
    (dash : string) (fs : filesystem) (dir : string) (t : terminal)
    (fs' : filesystem) (t' : terminal) (today : date) (now : string) :
  run_interactive dash fs dir t = Got fs' t' ->
  valid_date today -> toordinal today + 7 <= MAXORDINAL ->
  exists prefix company persona_rows counter_rows,
    let env_path := path_join dir (prefix +:+ ".env")%string in
    let credentials :=
      credentials_table prefix (parse_env_lines (read_lines fs' env_path)) in
    SetupN8nTables.main fs' today now prefix dir
    = ([Header company prefix now;
        PrintTable credentials;
        PrintTable
          ((prefix +:+ "-wos-personas")%string,
           ["title_keywords"; "language"; "network_distance"; "location";
            "extra_1"; "extra_2"]%string, persona_rows);
        PrintTable
          ((prefix +:+ "-wos-user_counters")%string,
           ["user_name"; "hubspot_owner_id"; "weekly_count"; "daily_count";
            "weekly_remaining"; "daily_remaining"; "weekly_reset_date";
            "daily_reset_date"; "invite_safe_date"; "extra_1"; "extra_2";
            "extra_3"]%string, counter_rows);
        Done (length persona_rows + length counter_rows + 3)],
       Exit 0)
    /\ (0 < length persona_rows)%nat /\ (0 < length counter_rows)%nat
    /\ (path_exists fs env_path = false ->
        credentials = credentials_table prefix ∅).
Proof.
  intros Hrun Hv Hmax. pose proof (run_interactive_spec dash fs dir t) as H.
  rewrite Hrun in H.
  destruct H as (config & prefix & Hvalid & Hprefix & Hshape & Hex & Hjson & Hlines).
  pose proof (upper_valid_prefix prefix Hshape) as Hupper.
  pose proof (table_generator_on_valid_config fs' today now prefix dir) as Hmain.
  cbv zeta in Hmain. rewrite Hupper in Hmain.
  rewrite !Hex, Hjson, !String.eqb_refl, orb_true_r in Hmain. cbn [orb] in Hmain.
  destruct (Hmain eq_refl eq_refl Hvalid Hv Hmax)
    as (prows & crows & nm & tm & Hout & Hprows & Hcrows & Hp & Hc).
  exists prefix, (default prefix (company_name config)), prows, crows. cbv zeta.
  split; [|split; [exact Hp|split; [exact Hc|]]].
  - rewrite Hout. apply Forall2_length in Hprows, Hcrows.
    now rewrite Hprows, Hcrows.
  - intros Henv. rewrite Hlines, String.eqb_refl, Henv. cbn [negb andb].
    apply template_table.
Qed.

Lemma tables_after_interactive_mode_witness :
  exists fs' t' prefix,
    run_interactive "-" no_files "configs" session = Got fs' t'
    /\ snd (SetupN8nTables.main fs' wednesday "2024-01-10 09:00" prefix "configs")
       = Exit 0.
Proof.
  assert (Hgot : returned (run_interactive "-" no_files "configs" session) = true)
    by (vm_compute; reflexivity).
  assert (Hv : valid_date wednesday) by (vm_compute; intuition discriminate).
  assert (Hmax : toordinal wednesday + 7 <= MAXORDINAL) by (vm_compute; discriminate).
  destruct (run_interactive "-" no_files "configs" session) as [fs' t'|h t'] eqn:E;
    [|discriminate Hgot].
  destruct (tables_after_interactive_mode "-" no_files "configs" session fs' t'
              wednesday "2024-01-10 09:00" E Hv Hmax)
    as (prefix & company & prows & crows & Hmain & _).
  exists fs', t', prefix. split; [reflexivity|]. rewrite Hmain. reflexivity.
Defined.

End InteractiveTheorems.
